(** * TakeOff: a chat-triggered merge gateway

    A shallow embedding of the decision pipeline of the repository
    (src/auth.py, src/config.py, src/slack_handler.py,
    src/github_client.py, src/main.py) and the properties its
    specification states about it.

    Conventions.
    - A Python [str] whose code points all lie in U+0000..U+00FF is a
      [list ascii]: each character stands for the code point of the same
      number.  HTTP header values reach the program decoded that way, and
      the character tables of the interpreter ([\s], [\w], [\d], lower
      case) are written out for exactly this range.  A [str] holding
      arbitrary code points (a decoded request body, a message with a dash
      outside that range) is a [list Z]; [has_merge_intent] is modelled on
      both, with the tables of every code point in module [Unicode].
    - A [float] is a binary64 number, held as a rational; conversion from
      [int] and subtraction round to the nearest, ties to even.
    - [bytes] is a [list byte].
    - A call that can raise returns a [result]. *)

From Stdlib Require Import ZArith Lia List Ascii String QArith Qabs Qround Qpower Lqa.
From Stdlib Require Import Strings.Byte DecimalString.
From stdpp Require Import base gmap sets strings.
Import ListNotations.

Open Scope string_scope.
Open Scope Z_scope.

(** ** Python values, exceptions, results *)

Abbreviation str := (list ascii).
Abbreviation ustr := (list Z).
Abbreviation bytes := (list byte).

(** String literals of the source are written as Rocq strings. *)
Coercion list_ascii_of_string : string >-> list.

(** The failures of an HTTP call that [httpx] raises as exceptions. *)
Inductive transport_failure :=
| ConnectError
| ConnectTimeout
| ReadTimeout.

Inductive exn :=
| ValueError
| UnicodeDecodeError
| UnicodeEncodeError
| JSONDecodeError
| OverflowError
| TypeError
| AttributeError
| TransportError (f : transport_failure).

(** [isinstance(e, ValueError)]: the decoding errors are subclasses. *)
Definition is_ValueError (e : exn) : bool :=
  match e with
  | ValueError | UnicodeDecodeError | UnicodeEncodeError | JSONDecodeError => true
  | _ => false
  end.

Inductive result (A : Type) :=
| Returns (a : A)
| Raises (e : exn).
Arguments Returns {A} a.
Arguments Raises {A} e.

Definition rbind {A B} (r : result A) (k : A -> result B) : result B :=
  match r with
  | Returns a => k a
  | Raises e => Raises e
  end.

Notation "'let?' x ':=' r 'in' k" := (rbind r (fun x => k))
  (at level 10, x pattern, r at level 100, k at level 200).

(** ** Characters

    [code] is [ord]; the tables below are those of the interpreter's
    Unicode database on U+0000..U+00FF. *)

Definition code (c : ascii) : Z := Z.of_N (N_of_ascii c).
Definition chr (n : Z) : ascii := ascii_of_N (Z.to_N n).

Definition between (lo hi x : Z) : bool := (lo <=? x) && (x <=? hi).

(** [str.isspace] on one character; the class [\s] of [re]. *)
Definition Py_UNICODE_ISSPACE (c : ascii) : bool :=
  let x := code c in
  between 9 13 x || between 28 32 x || (x =? 133) || (x =? 160).

(** The decimal digits; the class [\d] of [re]. *)
Definition Py_UNICODE_ISDECIMAL (c : ascii) : bool := between 48 57 (code c).

Definition Py_UNICODE_TODECIMAL (c : ascii) : Z := code c - 48.

(** [str.isalnum] on one character. *)
Definition Py_UNICODE_ISALNUM (c : ascii) : bool :=
  let x := code c in
  between 48 57 x || between 65 90 x || between 97 122 x
  || (x =? 170) || (x =? 178) || (x =? 179) || (x =? 181) || (x =? 185)
  || (x =? 186) || between 188 190 x
  || between 192 214 x || between 216 246 x || between 248 255 x.

(** The class [\w] of [re]: alphanumeric or underscore. *)
Definition is_word (c : ascii) : bool :=
  Py_UNICODE_ISALNUM c || (code c =? 95).

(** The simple lower-case mapping, [_sre.unicode_tolower]; on this range it
    is also what [str.lower] does to each character. *)
Definition unicode_tolower (c : ascii) : ascii :=
  let x := code c in
  if between 65 90 x || between 192 214 x || between 216 222 x
  then chr (x + 32) else c.

Definition lower (s : str) : str := map unicode_tolower s.

(** ** src/config.py and src/auth.py *)

(** [s.split(",")] *)
Fixpoint split_comma (s : str) : list str :=
  match s with
  | [] => [[]]
  | c :: s' =>
      match split_comma s' with
      | cur :: rest =>
          if Ascii.eqb c ","%char then [] :: cur :: rest else (c :: cur) :: rest
      | [] => [[c]]
      end
  end.

Fixpoint lstrip (s : str) : str :=
  match s with
  | c :: s' => if Py_UNICODE_ISSPACE c then lstrip s' else s
  | [] => []
  end.

(** [s.strip()] *)
Definition strip (s : str) : str := rev (lstrip (rev (lstrip s))).

Record Settings := {
  slack_bot_token : str;
  slack_signing_secret : str;
  github_token : str;
  authorized_slack_user_ids : str
}.

(** The property [authorized_user_ids]: the identities between the commas,
    stripped, the empty ones dropped, as a set. *)
Definition authorized_user_ids (settings : Settings) : gset str :=
  list_to_set
    (List.filter (fun uid => match uid with [] => false | _ => true end)
       (map strip (split_comma (authorized_slack_user_ids settings)))).

(** [not authorized] on a set: the set is empty. *)
Definition set_is_empty (s : gset str) : bool := bool_decide (s = ∅).

Definition is_authorized (slack_user_id : str) (settings : Settings) : bool :=
  let authorized := authorized_user_ids settings in
  if set_is_empty authorized then false
  else bool_decide (slack_user_id ∈ authorized).

(** ** [int(str)] and [str(int)] *)

(** The white space [int] skips around the number. *)
Definition int_space (c : ascii) : bool :=
  let x := code c in
  between 9 13 x || (x =? 32) || (x =? 133) || (x =? 160).

Fixpoint skip_space (s : str) : str :=
  match s with
  | c :: s' => if int_space c then skip_space s' else s
  | [] => []
  end.

(** The digits of the number, single underscores allowed between digits.
    [need_digit] holds at the start and after an underscore.  Returns the
    value, the number of digits and what follows. *)
Fixpoint scan_digits (acc : Z) (ndigits : nat) (need_digit : bool) (s : str)
  : option (Z * nat * str) :=
  match s with
  | c :: s' =>
      if Py_UNICODE_ISDECIMAL c
      then scan_digits (10 * acc + Py_UNICODE_TODECIMAL c) (S ndigits) false s'
      else if (code c =? 95)
      then if need_digit then None else scan_digits acc ndigits true s'
      else if need_digit then None else Some (acc, ndigits, s)
  | [] => if need_digit then None else Some (acc, ndigits, [])
  end.

(** [sys.get_int_max_str_digits()], at the interpreter's default: a decimal
    string of more digits is refused with [ValueError]. *)
Definition int_max_str_digits : nat := 4300.

Definition py_int (s : str) : result Z :=
  let s1 := skip_space s in
  let '(negative, s2) :=
    match s1 with
    | "+"%char :: r => (false, r)
    | "-"%char :: r => (true, r)
    | _ => (false, s1)
    end in
  match scan_digits 0 0 true s2 with
  | None => Raises ValueError
  | Some (v, ndigits, rest) =>
      match skip_space rest with
      | [] =>
          if (int_max_str_digits <? ndigits)%nat then Raises ValueError
          else Returns (if negative then - v else v)
      | _ :: _ => Raises ValueError
      end
  end.

(** [str(n)] for an [int]: decimal, with a minus sign when negative. *)
Definition str_of_int (n : Z) : str :=
  list_ascii_of_string (NilZero.string_of_int (Z.to_int n)).

(** ** The fragment of [re] the two patterns use

    A pattern is a list of alternatives tried in order; an alternative is a
    sequence of atoms.  Repetition is greedy and backs off one character at
    a time, as the backtracking matcher of [re] does. *)

Inductive atom :=
| Lit (c : ascii)                       (* a literal character *)
| LitI (lo : ascii)                     (* a literal under IGNORECASE, held in lower case *)
| WordB                                 (* \b *)
| Rep1 (capture : bool) (cls : ascii -> bool).  (* cls+, in a group when [capture] *)

Abbreviation regex := (list (list atom)).

(** [\b]: exactly one of the characters before and after the position is
    a word character; outside the text counts as none. *)
Definition at_boundary (prev : option ascii) (s : str) : bool :=
  xorb (match prev with Some c => is_word c | None => false end)
       (match s with c :: _ => is_word c | [] => false end).

(** What a successful match reports: [group(0)], [groups()], and the text
    left after the match. *)
Definition matched : Type := str * list str * str.

Definition consume (x : ascii) (r : option matched) : option matched :=
  match r with
  | Some (m, gs, rest) => Some (x :: m, gs, rest)
  | None => None
  end.

(** The rest of a greedy repetition [cls+] after its character [last],
    followed by the rest of the pattern [k]: first one more character, and
    only when that fails, stop here. *)
Fixpoint rep_more (cls : ascii -> bool) (k : ascii -> str -> option matched)
  (last : ascii) (s : str) : option (str * matched) :=
  let stop :=
    match k last s with
    | Some r => Some ([], r)
    | None => None
    end in
  match s with
  | x :: s' =>
      if cls x then
        match rep_more cls k x s' with
        | Some (w, r) => Some (x :: w, r)
        | None => stop
        end
      else stop
  | [] => stop
  end.

Definition rep1 (cls : ascii -> bool) (k : ascii -> str -> option matched)
  (s : str) : option (str * matched) :=
  match s with
  | x :: s' =>
      if cls x then
        match rep_more cls k x s' with
        | Some (w, r) => Some (x :: w, r)
        | None => None
        end
      else None
  | [] => None
  end.

Definition close_rep (capture : bool) (r : option (str * matched)) : option matched :=
  match r with
  | Some (w, (m, gs, rest)) =>
      Some ((w ++ m)%list, if capture then w :: gs else gs, rest)
  | None => None
  end.

(** [match_seq atoms prev s]: match the sequence at the start of [s], [prev]
    being the character before it. *)
Fixpoint match_seq (atoms : list atom) (prev : option ascii) (s : str)
  {struct atoms} : option matched :=
  match atoms with
  | [] => Some ([], [], s)
  | a :: atoms' =>
      match a with
      | Lit c =>
          match s with
          | x :: s' =>
              if Ascii.eqb x c then consume x (match_seq atoms' (Some x) s') else None
          | [] => None
          end
      | LitI lo =>
          match s with
          | x :: s' =>
              if Ascii.eqb (unicode_tolower x) lo
              then consume x (match_seq atoms' (Some x) s') else None
          | [] => None
          end
      | WordB => if at_boundary prev s then match_seq atoms' prev s else None
      | Rep1 capture cls =>
          close_rep capture
            (rep1 cls (fun last s' => match_seq atoms' (Some last) s') s)
      end
  end.

Fixpoint first_alt (re : regex) (prev : option ascii) (s : str) : option matched :=
  match re with
  | [] => None
  | alt :: re' =>
      match match_seq alt prev s with
      | Some m => Some m
      | None => first_alt re' prev s
      end
  end.

(** [search_from re prev s]: the first position of [s], left to right, at
    which an alternative matches; returns the text skipped and the match. *)
Fixpoint search_from (re : regex) (prev : option ascii) (s : str)
  : option (str * matched) :=
  match first_alt re prev s with
  | Some m => Some ([], m)
  | None =>
      match s with
      | [] => None
      | x :: s' =>
          match search_from re (Some x) s' with
          | Some (pre, m) => Some (x :: pre, m)
          | None => None
          end
      end
  end.

Definition search (re : regex) (text : str) : option (str * matched) :=
  search_from re None text.

(** ** src/slack_handler.py: reading the message *)

Definition lits (s : str) : list atom := map Lit s.

(** Letters of a pattern compiled under [re.IGNORECASE]: the subject
    character is lowered and compared.  (For [s] the compiled set also has
    U+017F, outside the range written out here: module [Unicode] below has
    the matcher on every code point.) *)
Definition lits_i (s : str) : list atom := map (fun c => LitI (unicode_tolower c)) s.

(** The class [[A-Za-z0-9_.\-]]. *)
Definition name_char (c : ascii) : bool :=
  let x := code c in
  between 65 90 x || between 97 122 x || between 48 57 x
  || (x =? 95) || (x =? 46) || (x =? 45).

(** [https://github\.com/([A-Za-z0-9_.\-]+)/([A-Za-z0-9_.\-]+)/pull/(\d+)] *)
Definition pr_alternative : list atom :=
  (lits "https://github.com/" ++ [Rep1 true name_char]
    ++ lits "/" ++ [Rep1 true name_char]
    ++ lits "/pull/" ++ [Rep1 true Py_UNICODE_ISDECIMAL])%list.

Definition _PR_URL_PATTERN : regex := [pr_alternative].

(** [\bmerge\b|can\s+u|please\s+merge], with [re.IGNORECASE] *)
Definition _MERGE_KEYWORDS : regex :=
  [ ([WordB] ++ lits_i "merge" ++ [WordB])%list;
    (lits_i "can" ++ [Rep1 false Py_UNICODE_ISSPACE] ++ lits_i "u")%list;
    (lits_i "please" ++ [Rep1 false Py_UNICODE_ISSPACE] ++ lits_i "merge")%list ].

Record ParsedPR := {
  owner : str;
  repo : str;
  pull_number : Z;
  url : str
}.

Definition extract_pr (text : str) : result (option ParsedPR) :=
  match search _PR_URL_PATTERN text with
  | None => Returns None
  | Some (_, (group0, groups, _)) =>
      match groups with
      | [owner; repo; number] =>
          let? n := py_int number in
          Returns (Some {| owner := owner; repo := repo; pull_number := n; url := group0 |})
      | _ => Raises ValueError   (* unpacking three groups; the pattern has three *)
      end
  end.

Definition has_merge_intent (text : str) : bool :=
  match search _MERGE_KEYWORDS text with
  | Some _ => true
  | None => false
  end.

(** ** [hashlib.sha256] and [hmac] (FIPS 180-4, RFC 2104)

    Library code, written out so that signatures can be computed. *)

Definition Z_of_byte (b : byte) : Z := Z.of_N (Byte.to_N b).

Definition byte_of_Z (z : Z) : byte :=
  match Byte.of_N (Z.to_N (z mod 256)) with
  | Some b => b
  | None => x00
  end.

Module SHA256.

Definition w32 (x : Z) : Z := x mod 2 ^ 32.
Definition rotr (n x : Z) : Z :=
  Z.lor (Z.shiftr x n) (w32 (Z.shiftl x (32 - n))).
Definition not32 (x : Z) : Z := Z.lxor x (2 ^ 32 - 1).

Definition Ch (x y z : Z) : Z := Z.lxor (Z.land x y) (Z.land (not32 x) z).
Definition Maj (x y z : Z) : Z :=
  Z.lxor (Z.lxor (Z.land x y) (Z.land x z)) (Z.land y z).
Definition Sigma0 (x : Z) : Z := Z.lxor (Z.lxor (rotr 2 x) (rotr 13 x)) (rotr 22 x).
Definition Sigma1 (x : Z) : Z := Z.lxor (Z.lxor (rotr 6 x) (rotr 11 x)) (rotr 25 x).
Definition sigma0 (x : Z) : Z := Z.lxor (Z.lxor (rotr 7 x) (rotr 18 x)) (Z.shiftr x 3).
Definition sigma1 (x : Z) : Z := Z.lxor (Z.lxor (rotr 17 x) (rotr 19 x)) (Z.shiftr x 10).

(** The primes below [n], by trial division. *)
Definition is_prime (p : Z) : bool :=
  (2 <=? p) && forallb (fun d => negb (p mod Z.of_nat d =? 0)) (seq 2 (Z.to_nat p - 2)).

Definition primes_below (n : nat) : list Z :=
  List.filter is_prime (map Z.of_nat (seq 0 n)).

(** The integer cube root, one bit at a time from bit [k] down. *)
Fixpoint cbrt_bits (k : nat) (r n : Z) : Z :=
  match k with
  | O => r
  | S k' =>
      let c := r + 2 ^ Z.of_nat k' in
      if c * c * c <=? n then cbrt_bits k' c n else cbrt_bits k' r n
  end.

(** The first 32 bits of the fractional part of a cube root, of a square
    root. *)
Definition frac_cbrt (p : Z) : Z := cbrt_bits 40 0 (p * 2 ^ 96) mod 2 ^ 32.
Definition frac_sqrt (p : Z) : Z := Z.sqrt (p * 2 ^ 64) mod 2 ^ 32.

(** The round constants: from the cube roots of the first 64 primes. *)
Definition K : list Z := Eval vm_compute in map frac_cbrt (primes_below 312).

(** Big-endian: [n] bytes of [x]. *)
Fixpoint be_bytes (n : nat) (x : Z) : list Z :=
  match n with
  | O => []
  | S n' => ((x / 256 ^ Z.of_nat n') mod 256) :: be_bytes n' x
  end.

(** The message, a 1 bit, zeros up to 56 modulo 64, the bit length. *)
Definition pad (msg : list Z) : list Z :=
  let len := Z.of_nat (length msg) in
  let zeros := Z.to_nat ((55 - len) mod 64) in
  (msg ++ [128] ++ repeat 0 zeros ++ be_bytes 8 (8 * len))%list.

Fixpoint words (fuel : nat) (bs : list Z) : list Z :=
  match fuel, bs with
  | S fuel', b0 :: b1 :: b2 :: b3 :: rest =>
      (((b0 * 256 + b1) * 256 + b2) * 256 + b3) :: words fuel' rest
  | _, _ => []
  end.

(** Extends the message schedule by [n] words. *)
Fixpoint schedule (n : nat) (w : list Z) : list Z :=
  match n with
  | O => w
  | S n' =>
      let t := length w in
      let at_ (i : nat) := nth (t - i) w 0 in
      schedule n'
        (w ++ [w32 (sigma1 (at_ 2%nat) + at_ 7%nat + sigma0 (at_ 15%nat) + at_ 16%nat)])%list
  end.

Definition state : Type := Z * Z * Z * Z * Z * Z * Z * Z.

Definition round (s : state) (kw : Z * Z) : state :=
  let '(a, b, c, d, e, f, g, h) := s in
  let t1 := h + Sigma1 e + Ch e f g + fst kw + snd kw in
  let t2 := Sigma0 a + Maj a b c in
  (w32 (t1 + t2), a, b, c, w32 (d + t1), e, f, g).

Definition compress (s : state) (block : list Z) : state :=
  let w := schedule 48 (words 16 block) in
  let '(a, b, c, d, e, f, g, h) := fold_left round (combine K w) s in
  let '(a0, b0, c0, d0, e0, f0, g0, h0) := s in
  (w32 (a0 + a), w32 (b0 + b), w32 (c0 + c), w32 (d0 + d),
   w32 (e0 + e), w32 (f0 + f), w32 (g0 + g), w32 (h0 + h)).

Fixpoint blocks (fuel : nat) (s : state) (bs : list Z) : state :=
  match fuel with
  | O => s
  | S fuel' =>
      match bs with
      | [] => s
      | _ => blocks fuel' (compress s (firstn 64 bs)) (skipn 64 bs)
      end
  end.

(** The initial state: from the square roots of the first 8 primes. *)
Definition init : state :=
  match map frac_sqrt (primes_below 20) with
  | [a; b; c; d; e; f; g; h] => (a, b, c, d, e, f, g, h)
  | _ => (0, 0, 0, 0, 0, 0, 0, 0)
  end.

Definition digest (msg : bytes) : bytes :=
  let padded := pad (map Z_of_byte msg) in
  let '(a, b, c, d, e, f, g, h) := blocks (length padded) init padded in
  map byte_of_Z (flat_map (be_bytes 4) [a; b; c; d; e; f; g; h]).

End SHA256.

Definition sha256 (msg : bytes) : bytes := SHA256.digest msg.

Definition xor_byte (k : Z) (b : byte) : byte := byte_of_Z (Z.lxor k (Z_of_byte b)).

(** [hmac.new(key, msg, hashlib.sha256).digest()] *)
Definition hmac_sha256 (key msg : bytes) : bytes :=
  let key1 := if (64 <? length key)%nat then sha256 key else key in
  let key2 := (key1 ++ repeat x00 (64 - length key1))%list in
  sha256 (map (xor_byte 0x5c) key2 ++ sha256 (map (xor_byte 0x36) key2 ++ msg))%list.

Definition hex_digit (n : Z) : ascii :=
  if n <? 10 then chr (48 + n) else chr (87 + n).

(** [.hexdigest()]: two lower-case hexadecimal digits per byte. *)
Definition hexdigest (d : bytes) : str :=
  flat_map (fun b => [hex_digit (Z_of_byte b / 16); hex_digit (Z_of_byte b mod 16)]) d.

(** ** UTF-8 ([bytes.decode("utf-8")], [str.encode("utf-8")]) *)

(** A continuation byte [10xxxxxx] gives its six bits. *)
Definition continuation (b : byte) : option Z :=
  let x := Z_of_byte b in
  if between 128 191 x then Some (x - 128) else None.

Definition is_surrogate (c : Z) : bool := between 55296 57343 c.

(** Strict decoding: no overlong form, no surrogate, nothing above
    U+10FFFF, no truncated sequence. *)
Fixpoint utf8_decode (b : bytes) : result ustr :=
  match b with
  | [] => Returns []
  | b0 :: r0 =>
      let x0 := Z_of_byte b0 in
      if x0 <? 128 then
        let? t := utf8_decode r0 in Returns (x0 :: t)
      else if between 194 223 x0 then
        match r0 with
        | b1 :: r1 =>
            match continuation b1 with
            | Some x1 =>
                let? t := utf8_decode r1 in
                Returns ((x0 - 192) * 64 + x1 :: t)
            | None => Raises UnicodeDecodeError
            end
        | _ => Raises UnicodeDecodeError
        end
      else if between 224 239 x0 then
        match r0 with
        | b1 :: b2 :: r2 =>
            match continuation b1, continuation b2 with
            | Some x1, Some x2 =>
                let c := (x0 - 224) * 4096 + x1 * 64 + x2 in
                if (2048 <=? c) && negb (is_surrogate c) then
                  let? t := utf8_decode r2 in Returns (c :: t)
                else Raises UnicodeDecodeError
            | _, _ => Raises UnicodeDecodeError
            end
        | _ => Raises UnicodeDecodeError
        end
      else if between 240 244 x0 then
        match r0 with
        | b1 :: b2 :: b3 :: r3 =>
            match continuation b1, continuation b2, continuation b3 with
            | Some x1, Some x2, Some x3 =>
                let c := (x0 - 240) * 262144 + x1 * 4096 + x2 * 64 + x3 in
                if between 65536 1114111 c then
                  let? t := utf8_decode r3 in Returns (c :: t)
                else Raises UnicodeDecodeError
            | _, _, _ => Raises UnicodeDecodeError
            end
        | _ => Raises UnicodeDecodeError
        end
      else Raises UnicodeDecodeError
  end.

Definition utf8_encode_char (c : Z) : result (list Z) :=
  if c <? 0 then Raises UnicodeEncodeError
  else if c <? 128 then Returns [c]
  else if c <? 2048 then Returns [192 + c / 64; 128 + c mod 64]
  else if c <? 65536 then
    if is_surrogate c then Raises UnicodeEncodeError
    else Returns [224 + c / 4096; 128 + (c / 64) mod 64; 128 + c mod 64]
  else if c <=? 1114111 then
    Returns [240 + c / 262144; 128 + (c / 4096) mod 64;
             128 + (c / 64) mod 64; 128 + c mod 64]
  else Raises UnicodeEncodeError.

Fixpoint utf8_encode (s : ustr) : result bytes :=
  match s with
  | [] => Returns []
  | c :: s' =>
      let? bs := utf8_encode_char c in
      let? t := utf8_encode s' in
      Returns (map byte_of_Z bs ++ t)%list
  end.

(** A narrow string seen as a general one. *)
Definition wide (s : str) : ustr := map code s.

(** ** src/slack_handler.py: the signature *)

(** [hmac.compare_digest] on two [str]: refuses non-ASCII text; otherwise
    folds the differences of all positions of [b] into one byte and tests
    it at the end, without leaving the loop early. *)
Definition is_ascii_char (c : ascii) : bool := code c <? 128.

Definition tscmp (a b : str) : bool :=
  let '(lhs, start) :=
    if (length a =? length b)%nat then (a, 0) else (b, 1) in
  fold_left (fun acc lr => Z.lor acc (Z.lxor (code (fst lr)) (code (snd lr))))
            (combine lhs b) start =? 0.

Definition compare_digest (a b : str) : result bool :=
  if forallb is_ascii_char a && forallb is_ascii_char b
  then Returns (tscmp a b)
  else Raises TypeError.

(** ** Binary64 numbers

    A [float] of the interpreter is a binary64 number.  Its finite values
    are held as rationals.  The operations the program uses are correctly
    rounded: the result is the exact result rounded to the nearest
    binary64 number, ties to the even significand, and infinite when that
    rounds beyond the largest one. *)

Definition pow2 (e : Z) : Q := (2 ^ e)%Q.

(** The exponent of the leading bit of a positive rational. *)
Definition Qlog2 (a : Q) : Z :=
  let e := Z.log2 (Qnum a) - Z.log2 (Z.pos (Qden a)) in
  if Qle_bool (pow2 e) a then e else e - 1.

(** The nearest integer, ties to even. *)
Definition round_half_even (x : Q) : Z :=
  let f := Qfloor x in
  match (x - inject_Z f ?= 1 # 2)%Q with
  | Lt => f
  | Gt => f + 1
  | Eq => if Z.even f then f else f + 1
  end.

(** The exponent of the last bit kept: 53 bits, none below 2^-1074. *)
Definition last_bit (a : Q) : Z := Z.max (Qlog2 a - 52) (-1074).

Definition round_positive (a : Q) : Q :=
  (inject_Z (round_half_even (a / pow2 (last_bit a))) * pow2 (last_bit a))%Q.

Definition round64 (x : Q) : Q :=
  match (x ?= 0)%Q with
  | Eq => 0%Q
  | Gt => round_positive x
  | Lt => (- round_positive (- x))%Q
  end.

Inductive float :=
| Fnum (q : Q)
| Finf (negative : bool).

Definition float_of_Q (x : Q) : float :=
  let r := round64 x in
  if Qle_bool (pow2 1024) (Qabs r) then Finf (negb (Qle_bool 0 x)) else Fnum r.

(** [x - y] on two finite floats. *)
Definition float_sub (x y : Q) : float := float_of_Q (x - y).

(** [abs(x)] *)
Definition float_abs (x : float) : float :=
  match x with
  | Fnum q => Fnum (Qabs q)
  | Finf _ => Finf false
  end.

(** [x > k] for an [int] k: the comparison is exact. *)
Definition float_gt (x : float) (k : Z) : bool :=
  match x with
  | Fnum q => negb (Qle_bool q (inject_Z k))
  | Finf negative => negb negative
  end.

(** The value is a binary64 number. *)
Definition is_binary64 (x : Q) : Prop :=
  (round64 x == x)%Q /\ (Qabs x < pow2 1024)%Q.

(** The conversion of an [int] operand to [float]: the nearest binary64
    number; an integer that rounds beyond the largest one raises. *)
Definition float_of_int (n : Z) : result Q :=
  match float_of_Q (inject_Z n) with
  | Fnum q => Returns q
  | Finf _ => Raises OverflowError
  end.

(** [now] is the value [time.time()] returns, a binary64 number. *)
Definition verify_slack_signature (now : Q)
  (body : bytes) (timestamp signature signing_secret : str) : result bool :=
  match py_int timestamp with
  | Raises e => if is_ValueError e then Returns false else Raises e
  | Returns request_time =>
      let? t := float_of_int request_time in
      if float_gt (float_abs (float_sub now t)) 300 then Returns false
      else
        let? decoded := utf8_decode body in
        let base_string := (wide "v0:" ++ wide timestamp ++ wide ":" ++ decoded)%list in
        let? key := utf8_encode (wide signing_secret) in
        let? msg := utf8_encode base_string in
        let expected := ("v0=" ++ hexdigest (hmac_sha256 key msg))%list in
        compare_digest expected signature
  end.

(** ** Values decoded from JSON

    What [response.json()] can return.  A [float] is held by the two
    things this program can observe of it: whether it is zero, and its
    [repr]. *)

Record pyfloat := {
  float_nonzero : bool;
  float_repr : str
}.

#[warnings="-register-all"]
Inductive pyval :=
| PNone
| PBool (b : bool)
| PInt (n : Z)
| PFloat (f : pyfloat)
| PStr (s : str)
| PList (l : list pyval)
| PDict (d : list (str * pyval)).

(** [bool(v)] *)
Definition truthy (v : pyval) : bool :=
  match v with
  | PNone => false
  | PBool b => b
  | PInt n => negb (n =? 0)
  | PFloat f => float_nonzero f
  | PStr s => match s with [] => false | _ => true end
  | PList l => match l with [] => false | _ => true end
  | PDict d => match d with [] => false | _ => true end
  end.

Fixpoint assoc (key : str) (d : list (str * pyval)) : option pyval :=
  match d with
  | [] => None
  | (k, v) :: d' => if bool_decide (k = key) then Some v else assoc key d'
  end.

(** [v.get(key, default)]: only a [dict] has the method. *)
Definition py_get (v : pyval) (key : str) (default : pyval) : result pyval :=
  match v with
  | PDict d => Returns (match assoc key d with Some x => x | None => default end)
  | _ => Raises AttributeError
  end.

(** [v == s] for a [str] [s] *)
Definition eq_str (v : pyval) (s : str) : bool :=
  match v with
  | PStr t => bool_decide (t = s)
  | _ => false
  end.

(** [v is False] *)
Definition is_False (v : pyval) : bool :=
  match v with
  | PBool false => true
  | _ => false
  end.

Definition double_quote : ascii := chr 34.
Definition backslash : ascii := chr 92.

Definition isprintable (c : ascii) : bool :=
  let x := code c in
  between 32 126 x || between 161 172 x || between 174 255 x.

Definition repr_char (quote c : ascii) : str :=
  let x := code c in
  if Ascii.eqb c quote || (x =? 92) then [backslash; c]
  else if x =? 9 then [backslash; "t"%char]
  else if x =? 10 then [backslash; "n"%char]
  else if x =? 13 then [backslash; "r"%char]
  else if isprintable c then [c]
  else [backslash; "x"%char; hex_digit (x / 16); hex_digit (x mod 16)].

(** [repr(s)] for a [str] *)
Definition repr_str (s : str) : str :=
  let quote :=
    if existsb (Ascii.eqb "'"%char) s && negb (existsb (Ascii.eqb double_quote) s)
    then double_quote else "'"%char in
  (quote :: flat_map (repr_char quote) s ++ [quote])%list.

Fixpoint join (sep : str) (l : list str) : str :=
  match l with
  | [] => []
  | [x] => x
  | x :: l' => (x ++ sep ++ join sep l')%list
  end.

Fixpoint py_repr (v : pyval) : str :=
  match v with
  | PNone => "None"
  | PBool true => "True"
  | PBool false => "False"
  | PInt n => str_of_int n
  | PFloat f => float_repr f
  | PStr s => repr_str s
  | PList l => ("[" ++ join ", " (map py_repr l) ++ "]")%list
  | PDict d =>
      ("{" ++ join ", " (map (fun kv => let '(k, x) := kv in
                                        (repr_str k ++ ": " ++ py_repr x)%list) d)
           ++ "}")%list
  end.

(** [str(v)], also what an f-string field does *)
Definition py_str (v : pyval) : str :=
  match v with
  | PStr s => s
  | _ => py_repr v
  end.

(** [needle in haystack] on [str] *)
Fixpoint starts_with (needle s : str) : bool :=
  match needle, s with
  | [], _ => true
  | c :: needle', x :: s' => Ascii.eqb c x && starts_with needle' s'
  | _ :: _, [] => false
  end.

Fixpoint contains (needle s : str) : bool :=
  starts_with needle s ||
  match s with
  | [] => false
  | _ :: s' => contains needle s'
  end.

(** ** HTTP through [httpx]

    The network answers a request with a response, or the call raises (no
    connection, or the 15 second timeout).  A program that talks to it is a
    function of the network that also logs the requests it sends. *)

Inductive method := GET | PUT.

Record Request := {
  req_method : method;
  req_url : str;
  req_headers : list (str * str);
  req_json : option pyval
}.

(** A response: the status, and what calling [.json()] on it does. *)
Record Response := {
  status_code : Z;
  json : result pyval
}.

Definition Network : Type := Request -> result Response.

Definition Http (A : Type) : Type :=
  Network -> list Request -> result A * list Request.

Definition http_ret {A} (a : A) : Http A := fun _ log => (Returns a, log).

Definition http_lift {A} (r : result A) : Http A := fun _ log => (r, log).

Definition http_bind {A B} (c : Http A) (k : A -> Http B) : Http B :=
  fun net log =>
    match c net log with
    | (Returns a, log') => k a net log'
    | (Raises e, log') => (Raises e, log')
    end.

Notation "'await' x ':=' c 'in' k" := (http_bind c (fun x => k))
  (at level 10, x pattern, c at level 100, k at level 200).

Definition send (r : Request) : Http Response :=
  fun net log => (net r, (log ++ [r])%list).

Definition client_get (url : str) (headers : list (str * str)) : Http Response :=
  send {| req_method := GET; req_url := url; req_headers := headers; req_json := None |}.

Definition client_put (url : str) (headers : list (str * str)) (body : pyval)
  : Http Response :=
  send {| req_method := PUT; req_url := url; req_headers := headers;
          req_json := Some body |}.

(** Runs a program against a network, from an empty log. *)
Definition run {A} (c : Http A) (net : Network) : result A * list Request :=
  c net [].

(** ** src/github_client.py *)

Definition GITHUB_API_BASE : str := "https://api.github.com".

Inductive MergeStatus :=
| SUCCESS
| ALREADY_MERGED
| CONFLICT
| CHECKS_PENDING
| NOT_FOUND
| ERROR.

Record MergeResult := {
  status : MergeStatus;
  message : ustr
}.

(** U+2014, the dash of two of the messages. *)
Definition em_dash : Z := 8212.

Definition pr_url_of (owner repo : str) (pull_number : Z) : str :=
  (GITHUB_API_BASE ++ "/repos/" ++ owner ++ "/" ++ repo ++ "/pulls/"
     ++ str_of_int pull_number)%list.

Definition conflict_message (pull_number : Z) : ustr :=
  (wide "Cannot merge PR #" ++ wide (str_of_int pull_number) ++ wide " "
     ++ [em_dash] ++ wide " there are merge conflicts.")%list.

Definition _get_pr_state (owner repo : str) (pull_number : Z)
  (headers : list (str * str)) : Http (option MergeResult) :=
  let pr_url := pr_url_of owner repo pull_number in
  await response := client_get pr_url headers in
  if status_code response =? 404 then
    http_ret (Some {| status := NOT_FOUND;
                      message := wide ("PR #" ++ str_of_int pull_number ++ " not found in "
                                         ++ owner ++ "/" ++ repo ++ ".")%list |})
  else if negb (status_code response =? 200) then
    http_ret (Some {| status := ERROR;
                      message := wide ("Failed to fetch PR #" ++ str_of_int pull_number
                                         ++ ": HTTP " ++ str_of_int (status_code response)
                                         ++ ".")%list |})
  else
    await data := http_lift (json response) in
    await merged := http_lift (py_get data "merged" PNone) in
    if truthy merged then
      http_ret (Some {| status := ALREADY_MERGED;
                        message := wide ("PR #" ++ str_of_int pull_number
                                           ++ " is already merged.")%list |})
    else
      await state := http_lift (py_get data "state" PNone) in
      if eq_str state "closed" then
        http_ret (Some {| status := ERROR;
                          message := wide ("PR #" ++ str_of_int pull_number
                                             ++ " is closed without being merged.")%list |})
      else
        await mergeable := http_lift (py_get data "mergeable" PNone) in
        if is_False mergeable then
          http_ret (Some {| status := CONFLICT; message := conflict_message pull_number |})
        else http_ret None.

Definition _parse_merge_response (response : Response) (pull_number : Z)
  : result MergeResult :=
  if status_code response =? 200 then
    Returns {| status := SUCCESS;
               message := wide ("PR #" ++ str_of_int pull_number
                                  ++ " merged successfully.")%list |}
  else
    let body :=
      match json response with
      | Returns v => v
      | Raises _ => PDict []
      end in
    let? m := py_get body "message" (PStr "") in
    let github_message := lower (py_str m) in
    if status_code response =? 405 then
      if contains "not mergeable" github_message || contains "conflict" github_message
      then Returns {| status := CONFLICT; message := conflict_message pull_number |}
      else Returns {| status := CHECKS_PENDING;
                      message := (wide "Cannot merge PR #" ++ wide (str_of_int pull_number)
                                    ++ wide " " ++ [em_dash]
                                    ++ wide " status checks have not passed.")%list |}
    else if status_code response =? 409 then
      Returns {| status := CONFLICT; message := conflict_message pull_number |}
    else if status_code response =? 404 then
      Returns {| status := NOT_FOUND;
                 message := wide ("PR #" ++ str_of_int pull_number ++ " not found.")%list |}
    else
      let? m' := py_get body "message" PNone in
      let reason :=
        if truthy m' then m'
        else PStr ("HTTP " ++ str_of_int (status_code response))%list in
      Returns {| status := ERROR;
                 message := wide ("Failed to merge PR #" ++ str_of_int pull_number
                                    ++ ": " ++ py_str reason)%list |}.

(** The headers both calls carry. *)
Definition request_headers (github_token : str) : list (str * str) :=
  [ ("Authorization" : str, ("Bearer " ++ github_token)%list);
    ("Accept" : str, "application/vnd.github+json" : str);
    ("X-GitHub-Api-Version" : str, "2022-11-28" : str) ].

Definition merge_pull_request (owner repo : str) (pull_number : Z)
  (github_token : str) : Http MergeResult :=
  let url := (pr_url_of owner repo pull_number ++ "/merge")%list in
  let headers := request_headers github_token in
  await pr_state := _get_pr_state owner repo pull_number headers in
  match pr_state with
  | Some r => http_ret r
  | None =>
      await response :=
        client_put url headers (PDict [("merge_method" : str, PStr "squash")]) in
      http_lift (_parse_merge_response response pull_number)
  end.

(** ** What a pattern means

    The matches of a sequence of atoms, stated without reference to the
    order in which the matcher tries them. *)

(** The character before the position reached after reading [m]. *)
Definition after (prev : option ascii) (m : str) : option ascii :=
  fold_left (fun _ x => Some x) m prev.

Fixpoint seq_matches (atoms : list atom) (prev : option ascii) (s : str)
  (r : matched) : Prop :=
  match atoms with
  | [] => r = ([], [], s)
  | Lit c :: atoms' =>
      exists s' m gs rest,
        s = c :: s' /\ seq_matches atoms' (Some c) s' (m, gs, rest)
        /\ r = (c :: m, gs, rest)
  | LitI lo :: atoms' =>
      exists x s' m gs rest,
        s = x :: s' /\ unicode_tolower x = lo
        /\ seq_matches atoms' (Some x) s' (m, gs, rest)
        /\ r = (x :: m, gs, rest)
  | WordB :: atoms' =>
      at_boundary prev s = true /\ seq_matches atoms' prev s r
  | Rep1 capture cls :: atoms' =>
      exists x w s' m gs rest,
        s = (x :: w ++ s')%list /\ cls x = true /\ forallb cls w = true
        /\ seq_matches atoms' (after (Some x) w) s' (m, gs, rest)
        /\ r = ((x :: w ++ m)%list, if capture then (x :: w) :: gs else gs, rest)
  end.

(** ** The specification's words, for comparison with the code *)

(** Letters compared without regard to case. *)
Definition eq_ignore_case (a b : str) : Prop := lower a = lower b.

Definition ends_outside_word (pre : str) : Prop :=
  forall pre' c, pre = (pre' ++ [c])%list -> is_word c = false.

Definition starts_outside_word (post : str) : Prop :=
  forall c post', post = c :: post' -> is_word c = false.

(** The text holds [w] as a word of its own: no word character touches the
    occurrence on either side. *)
Definition has_standalone_word (w text : str) : Prop :=
  exists pre m post,
    text = (pre ++ m ++ post)%list /\ eq_ignore_case m w
    /\ ends_outside_word pre /\ starts_outside_word post.

(** The text holds the phrase [w1 w2]: the two words in order, white space
    between them. *)
Definition has_phrase (w1 w2 text : str) : Prop :=
  exists pre m1 ws m2 post,
    text = (pre ++ m1 ++ ws ++ m2 ++ post)%list
    /\ eq_ignore_case m1 w1 /\ ws <> []
    /\ forallb Py_UNICODE_ISSPACE ws = true /\ eq_ignore_case m2 w2.

Definition expresses_merge_intent (text : str) : Prop :=
  has_standalone_word "merge" text
  \/ has_phrase "can" "u" text
  \/ has_phrase "please" "merge" text.

(** [u] is a pull-request URL with these owner, repository and digits. *)
Definition is_pr_url (u o r d : str) : Prop :=
  u = ("https://github.com/" ++ o ++ "/" ++ r ++ "/pull/" ++ d)%list
  /\ o <> [] /\ forallb name_char o = true
  /\ r <> [] /\ forallb name_char r = true
  /\ d <> [] /\ forallb Py_UNICODE_ISDECIMAL d = true.

Definition has_pr_url (text : str) : Prop :=
  exists pre u post o r d, text = (pre ++ u ++ post)%list /\ is_pr_url u o r d.

(** Nothing of the class [cls] follows: a repetition went as far as it
    could. *)
Definition stops_before (cls : ascii -> bool) (rest : str) : Prop :=
  match rest with
  | y :: _ => cls y = false
  | [] => True
  end.

(** The first pull-request URL of a text: it starts where none starts
    before, and its digits go as far as they can. *)
Definition first_pr_url (text pre u post o r d : str) : Prop :=
  text = (pre ++ u ++ post)%list
  /\ is_pr_url u o r d
  /\ stops_before Py_UNICODE_ISDECIMAL post
  /\ forall pre' u' post' o' r' d',
       text = (pre' ++ u' ++ post')%list -> is_pr_url u' o' r' d' ->
       (length pre <= length pre')%nat.

(** The number a string of decimal digits writes. *)
Definition decimal_value (d : str) : Z :=
  fold_left (fun acc c => 10 * acc + Py_UNICODE_TODECIMAL c) d 0.

(** The invariant the data model gives for [ParsedPR], [positive] being the
    bound it asks of the number. *)
Definition ParsedPR_invariant (positive : bool) (text : str) (pr : ParsedPR) : Prop :=
  forallb name_char (owner pr) = true
  /\ forallb name_char (repo pr) = true
  /\ (if positive then 0 < pull_number pr else 0 <= pull_number pr)
  /\ exists pre post, text = (pre ++ url pr ++ post)%list.

(** The two requests of a merge attempt. *)
Definition get_request (owner repo : str) (pull_number : Z) (github_token : str)
  : Request :=
  {| req_method := GET;
     req_url := pr_url_of owner repo pull_number;
     req_headers := request_headers github_token;
     req_json := None |}.

Definition put_request (owner repo : str) (pull_number : Z) (github_token : str)
  : Request :=
  {| req_method := PUT;
     req_url := (pr_url_of owner repo pull_number ++ "/merge")%list;
     req_headers := request_headers github_token;
     req_json := Some (PDict [("merge_method" : str, PStr "squash")]) |}.

(** What Step 1 settles: an outcome, or that Step 2 goes ahead. *)
Inductive step1 :=
| Decided (s : MergeStatus)
| Proceed.

(** A field of the body of a response, [null] when there is none. *)
Definition body_field (response : Response) (key : str) : pyval :=
  match json response with
  | Returns (PDict d) =>
      match assoc key d with
      | Some v => v
      | None => PNone
      end
  | _ => PNone
  end.


(** The table of Step 1, the first row that applies; [merged_holds] is the
    test made of the field [merged]. *)
Definition step1_rule (merged_holds : pyval -> bool) (response : Response) : step1 :=
  if status_code response =? 404 then Decided NOT_FOUND
  else if negb (status_code response =? 200) then Decided ERROR
  else if merged_holds (body_field response "merged") then Decided ALREADY_MERGED
  else if eq_str (body_field response "state") "closed" then Decided ERROR
  else if is_False (body_field response "mergeable") then Decided CONFLICT
  else Proceed.


(** [text] holds [needle], letters compared without regard to case. *)
Definition contains_ignoring_case (needle text : str) : Prop :=
  exists pre m post, text = (pre ++ m ++ post)%list /\ eq_ignore_case m needle.

(** The field [message] of the body, when the body is an object that has
    one. *)
Definition message_field (response : Response) : option pyval :=
  match json response with
  | Returns (PDict d) => assoc "message" d
  | _ => None
  end.

Definition mentions_conflict (response : Response) : Prop :=
  exists v,
    message_field response = Some v
    /\ (contains_ignoring_case "not mergeable" (py_str v)
        \/ contains_ignoring_case "conflict" (py_str v)).

(** The reason of an [ERROR]: the field [message] when there is one that
    [usable] accepts, else the status. *)
Definition step2_reason (usable : pyval -> bool) (response : Response) : str :=
  let http := ("HTTP " ++ str_of_int (status_code response))%list in
  match message_field response with
  | Some v => if usable v then py_str v else http
  | None => http
  end.

(** The table of Step 2. *)
Definition step2_classified (usable : pyval -> bool)
  (response : Response) (pull_number : Z) (r : MergeResult) : Prop :=
  let c := status_code response in
  (c = 200 -> status r = SUCCESS)
  /\ (c = 405 -> mentions_conflict response -> status r = CONFLICT)
  /\ (c = 405 -> ~ mentions_conflict response -> status r = CHECKS_PENDING)
  /\ (c = 409 -> status r = CONFLICT)
  /\ (c = 404 -> status r = NOT_FOUND)
  /\ (c <> 200 -> c <> 405 -> c <> 409 -> c <> 404 ->
      status r = ERROR
      /\ message r = wide ("Failed to merge PR #" ++ str_of_int pull_number ++ ": "
                             ++ step2_reason usable response)%list).

(** The body of a response is a JSON object whenever it parses. *)
Definition body_is_object_if_parsed (response : Response) : Prop :=
  forall v, json response = Returns v -> exists d, v = PDict d.

(** [s.encode("utf-8")] for a narrow string: one byte below U+0080, two
    from there on. *)
Definition utf8_char (c : ascii) : bytes :=
  let x := code c in
  if x <? 128 then [byte_of_Z x]
  else [byte_of_Z (192 + x / 64); byte_of_Z (128 + x mod 64)].

Definition utf8 (s : str) : bytes := flat_map utf8_char s.

(** The signature the messaging platform computes for a request: "v0="
    and the hexadecimal HMAC-SHA256, keyed by the secret, of "v0:", the
    timestamp, ":" and the raw body. *)
Definition expected_signature (body : bytes) (timestamp signing_secret : str) : str :=
  ("v0=" ++ hexdigest (hmac_sha256 (utf8 signing_secret)
                         (utf8 "v0:" ++ utf8 timestamp ++ utf8 ":" ++ body)))%list.

(** The three conditions under which a request is to be accepted. *)
Definition signature_valid (now : Q) (body : bytes)
  (timestamp signature signing_secret : str) : Prop :=
  exists request_time,
    py_int timestamp = Returns request_time
    /\ (Qabs (now - inject_Z request_time) <= inject_Z 300)%Q
    /\ signature = expected_signature body timestamp signing_secret.

(** A clock reading: a binary64 number of seconds between 2^9 and 2^52
    (from 00:08:32 on 1 January 1970, for 142 million years). *)
Definition clock_reading (now : Q) : Prop :=
  is_binary64 now /\ (pow2 9 <= now <= pow2 52)%Q.

(** A timestamp of 401 digits: the number 10^400. *)
Definition huge_timestamp : str := "1"%char :: repeat "0"%char 400.

(** Sample responses. *)
Definition fetched_open_pr : Response :=
  {| status_code := 200;
     json := Returns (PDict [("state" : str, PStr "open");
                             ("merged" : str, PBool false);
                             ("mergeable" : str, PNone)]) |}.


Definition sample_settings (user_ids : str) : Settings :=
  {| slack_bot_token := "xoxb-test";
     slack_signing_secret := "test_signing_secret";
     github_token := "ghp_test";
     authorized_slack_user_ids := user_ids |}.

(** ** The message text on every code point

    [has_merge_intent] again, for a [str] of arbitrary code points: the
    tables of the interpreter's Unicode database (version 14.0, as in
    CPython 3.11) written out in full, and the part of the matcher that
    [_MERGE_KEYWORDS] uses. *)

Module Unicode.

(** [str.isspace] on one character; the class [\s] of [re]. *)
Definition Py_UNICODE_ISSPACE (x : Z) : bool :=
  between 9 13 x || between 28 32 x || (x =? 133) || (x =? 160) || (x =? 5760)
  || between 8192 8202 x || between 8232 8233 x || (x =? 8239) || (x =? 8287)
  || (x =? 12288).

(** The code points on which [str.isalnum] holds, as ranges. *)
Definition alnum_ranges : list (Z * Z) := [
  (48, 57); (65, 90); (97, 122); (170, 170); (178, 179); (181, 181); (185, 186); (188, 190);
  (192, 214); (216, 246); (248, 705); (710, 721); (736, 740); (748, 748); (750, 750);
  (880, 884); (886, 887); (890, 893); (895, 895); (902, 902); (904, 906); (908, 908);
  (910, 929); (931, 1013); (1015, 1153); (1162, 1327); (1329, 1366); (1369, 1369); (1376, 1416);
  (1488, 1514); (1519, 1522); (1568, 1610); (1632, 1641); (1646, 1647); (1649, 1747);
  (1749, 1749); (1765, 1766); (1774, 1788); (1791, 1791); (1808, 1808); (1810, 1839);
  (1869, 1957); (1969, 1969); (1984, 2026); (2036, 2037); (2042, 2042); (2048, 2069);
  (2074, 2074); (2084, 2084); (2088, 2088); (2112, 2136); (2144, 2154); (2160, 2183);
  (2185, 2190); (2208, 2249); (2308, 2361); (2365, 2365); (2384, 2384); (2392, 2401);
  (2406, 2415); (2417, 2432); (2437, 2444); (2447, 2448); (2451, 2472); (2474, 2480);
  (2482, 2482); (2486, 2489); (2493, 2493); (2510, 2510); (2524, 2525); (2527, 2529);
  (2534, 2545); (2548, 2553); (2556, 2556); (2565, 2570); (2575, 2576); (2579, 2600);
  (2602, 2608); (2610, 2611); (2613, 2614); (2616, 2617); (2649, 2652); (2654, 2654);
  (2662, 2671); (2674, 2676); (2693, 2701); (2703, 2705); (2707, 2728); (2730, 2736);
  (2738, 2739); (2741, 2745); (2749, 2749); (2768, 2768); (2784, 2785); (2790, 2799);
  (2809, 2809); (2821, 2828); (2831, 2832); (2835, 2856); (2858, 2864); (2866, 2867);
  (2869, 2873); (2877, 2877); (2908, 2909); (2911, 2913); (2918, 2927); (2929, 2935);
  (2947, 2947); (2949, 2954); (2958, 2960); (2962, 2965); (2969, 2970); (2972, 2972);
  (2974, 2975); (2979, 2980); (2984, 2986); (2990, 3001); (3024, 3024); (3046, 3058);
  (3077, 3084); (3086, 3088); (3090, 3112); (3114, 3129); (3133, 3133); (3160, 3162);
  (3165, 3165); (3168, 3169); (3174, 3183); (3192, 3198); (3200, 3200); (3205, 3212);
  (3214, 3216); (3218, 3240); (3242, 3251); (3253, 3257); (3261, 3261); (3293, 3294);
  (3296, 3297); (3302, 3311); (3313, 3314); (3332, 3340); (3342, 3344); (3346, 3386);
  (3389, 3389); (3406, 3406); (3412, 3414); (3416, 3425); (3430, 3448); (3450, 3455);
  (3461, 3478); (3482, 3505); (3507, 3515); (3517, 3517); (3520, 3526); (3558, 3567);
  (3585, 3632); (3634, 3635); (3648, 3654); (3664, 3673); (3713, 3714); (3716, 3716);
  (3718, 3722); (3724, 3747); (3749, 3749); (3751, 3760); (3762, 3763); (3773, 3773);
  (3776, 3780); (3782, 3782); (3792, 3801); (3804, 3807); (3840, 3840); (3872, 3891);
  (3904, 3911); (3913, 3948); (3976, 3980); (4096, 4138); (4159, 4169); (4176, 4181);
  (4186, 4189); (4193, 4193); (4197, 4198); (4206, 4208); (4213, 4225); (4238, 4238);
  (4240, 4249); (4256, 4293); (4295, 4295); (4301, 4301); (4304, 4346); (4348, 4680);
  (4682, 4685); (4688, 4694); (4696, 4696); (4698, 4701); (4704, 4744); (4746, 4749);
  (4752, 4784); (4786, 4789); (4792, 4798); (4800, 4800); (4802, 4805); (4808, 4822);
  (4824, 4880); (4882, 4885); (4888, 4954); (4969, 4988); (4992, 5007); (5024, 5109);
  (5112, 5117); (5121, 5740); (5743, 5759); (5761, 5786); (5792, 5866); (5870, 5880);
  (5888, 5905); (5919, 5937); (5952, 5969); (5984, 5996); (5998, 6000); (6016, 6067);
  (6103, 6103); (6108, 6108); (6112, 6121); (6128, 6137); (6160, 6169); (6176, 6264);
  (6272, 6276); (6279, 6312); (6314, 6314); (6320, 6389); (6400, 6430); (6470, 6509);
  (6512, 6516); (6528, 6571); (6576, 6601); (6608, 6618); (6656, 6678); (6688, 6740);
  (6784, 6793); (6800, 6809); (6823, 6823); (6917, 6963); (6981, 6988); (6992, 7001);
  (7043, 7072); (7086, 7141); (7168, 7203); (7232, 7241); (7245, 7293); (7296, 7304);
  (7312, 7354); (7357, 7359); (7401, 7404); (7406, 7411); (7413, 7414); (7418, 7418);
  (7424, 7615); (7680, 7957); (7960, 7965); (7968, 8005); (8008, 8013); (8016, 8023);
  (8025, 8025); (8027, 8027); (8029, 8029); (8031, 8061); (8064, 8116); (8118, 8124);
  (8126, 8126); (8130, 8132); (8134, 8140); (8144, 8147); (8150, 8155); (8160, 8172);
  (8178, 8180); (8182, 8188); (8304, 8305); (8308, 8313); (8319, 8329); (8336, 8348);
  (8450, 8450); (8455, 8455); (8458, 8467); (8469, 8469); (8473, 8477); (8484, 8484);
  (8486, 8486); (8488, 8488); (8490, 8493); (8495, 8505); (8508, 8511); (8517, 8521);
  (8526, 8526); (8528, 8585); (9312, 9371); (9450, 9471); (10102, 10131); (11264, 11492);
  (11499, 11502); (11506, 11507); (11517, 11517); (11520, 11557); (11559, 11559);
  (11565, 11565); (11568, 11623); (11631, 11631); (11648, 11670); (11680, 11686);
  (11688, 11694); (11696, 11702); (11704, 11710); (11712, 11718); (11720, 11726);
  (11728, 11734); (11736, 11742); (11823, 11823); (12293, 12295); (12321, 12329);
  (12337, 12341); (12344, 12348); (12353, 12438); (12445, 12447); (12449, 12538);
  (12540, 12543); (12549, 12591); (12593, 12686); (12690, 12693); (12704, 12735);
  (12784, 12799); (12832, 12841); (12872, 12879); (12881, 12895); (12928, 12937);
  (12977, 12991); (13312, 19903); (19968, 42124); (42192, 42237); (42240, 42508);
  (42512, 42539); (42560, 42606); (42623, 42653); (42656, 42735); (42775, 42783);
  (42786, 42888); (42891, 42954); (42960, 42961); (42963, 42963); (42965, 42969);
  (42994, 43009); (43011, 43013); (43015, 43018); (43020, 43042); (43056, 43061);
  (43072, 43123); (43138, 43187); (43216, 43225); (43250, 43255); (43259, 43259);
  (43261, 43262); (43264, 43301); (43312, 43334); (43360, 43388); (43396, 43442);
  (43471, 43481); (43488, 43492); (43494, 43518); (43520, 43560); (43584, 43586);
  (43588, 43595); (43600, 43609); (43616, 43638); (43642, 43642); (43646, 43695);
  (43697, 43697); (43701, 43702); (43705, 43709); (43712, 43712); (43714, 43714);
  (43739, 43741); (43744, 43754); (43762, 43764); (43777, 43782); (43785, 43790);
  (43793, 43798); (43808, 43814); (43816, 43822); (43824, 43866); (43868, 43881);
  (43888, 44002); (44016, 44025); (44032, 55203); (55216, 55238); (55243, 55291);
  (63744, 64109); (64112, 64217); (64256, 64262); (64275, 64279); (64285, 64285);
  (64287, 64296); (64298, 64310); (64312, 64316); (64318, 64318); (64320, 64321);
  (64323, 64324); (64326, 64433); (64467, 64829); (64848, 64911); (64914, 64967);
  (65008, 65019); (65136, 65140); (65142, 65276); (65296, 65305); (65313, 65338);
  (65345, 65370); (65382, 65470); (65474, 65479); (65482, 65487); (65490, 65495);
  (65498, 65500); (65536, 65547); (65549, 65574); (65576, 65594); (65596, 65597);
  (65599, 65613); (65616, 65629); (65664, 65786); (65799, 65843); (65856, 65912);
  (65930, 65931); (66176, 66204); (66208, 66256); (66273, 66299); (66304, 66339);
  (66349, 66378); (66384, 66421); (66432, 66461); (66464, 66499); (66504, 66511);
  (66513, 66517); (66560, 66717); (66720, 66729); (66736, 66771); (66776, 66811);
  (66816, 66855); (66864, 66915); (66928, 66938); (66940, 66954); (66956, 66962);
  (66964, 66965); (66967, 66977); (66979, 66993); (66995, 67001); (67003, 67004);
  (67072, 67382); (67392, 67413); (67424, 67431); (67456, 67461); (67463, 67504);
  (67506, 67514); (67584, 67589); (67592, 67592); (67594, 67637); (67639, 67640);
  (67644, 67644); (67647, 67669); (67672, 67702); (67705, 67742); (67751, 67759);
  (67808, 67826); (67828, 67829); (67835, 67867); (67872, 67897); (67968, 68023);
  (68028, 68047); (68050, 68096); (68112, 68115); (68117, 68119); (68121, 68149);
  (68160, 68168); (68192, 68222); (68224, 68255); (68288, 68295); (68297, 68324);
  (68331, 68335); (68352, 68405); (68416, 68437); (68440, 68466); (68472, 68497);
  (68521, 68527); (68608, 68680); (68736, 68786); (68800, 68850); (68858, 68899);
  (68912, 68921); (69216, 69246); (69248, 69289); (69296, 69297); (69376, 69415);
  (69424, 69445); (69457, 69460); (69488, 69505); (69552, 69579); (69600, 69622);
  (69635, 69687); (69714, 69743); (69745, 69746); (69749, 69749); (69763, 69807);
  (69840, 69864); (69872, 69881); (69891, 69926); (69942, 69951); (69956, 69956);
  (69959, 69959); (69968, 70002); (70006, 70006); (70019, 70066); (70081, 70084);
  (70096, 70106); (70108, 70108); (70113, 70132); (70144, 70161); (70163, 70187);
  (70272, 70278); (70280, 70280); (70282, 70285); (70287, 70301); (70303, 70312);
  (70320, 70366); (70384, 70393); (70405, 70412); (70415, 70416); (70419, 70440);
  (70442, 70448); (70450, 70451); (70453, 70457); (70461, 70461); (70480, 70480);
  (70493, 70497); (70656, 70708); (70727, 70730); (70736, 70745); (70751, 70753);
  (70784, 70831); (70852, 70853); (70855, 70855); (70864, 70873); (71040, 71086);
  (71128, 71131); (71168, 71215); (71236, 71236); (71248, 71257); (71296, 71338);
  (71352, 71352); (71360, 71369); (71424, 71450); (71472, 71483); (71488, 71494);
  (71680, 71723); (71840, 71922); (71935, 71942); (71945, 71945); (71948, 71955);
  (71957, 71958); (71960, 71983); (71999, 71999); (72001, 72001); (72016, 72025);
  (72096, 72103); (72106, 72144); (72161, 72161); (72163, 72163); (72192, 72192);
  (72203, 72242); (72250, 72250); (72272, 72272); (72284, 72329); (72349, 72349);
  (72368, 72440); (72704, 72712); (72714, 72750); (72768, 72768); (72784, 72812);
  (72818, 72847); (72960, 72966); (72968, 72969); (72971, 73008); (73030, 73030);
  (73040, 73049); (73056, 73061); (73063, 73064); (73066, 73097); (73112, 73112);
  (73120, 73129); (73440, 73458); (73648, 73648); (73664, 73684); (73728, 74649);
  (74752, 74862); (74880, 75075); (77712, 77808); (77824, 78894); (82944, 83526);
  (92160, 92728); (92736, 92766); (92768, 92777); (92784, 92862); (92864, 92873);
  (92880, 92909); (92928, 92975); (92992, 92995); (93008, 93017); (93019, 93025);
  (93027, 93047); (93053, 93071); (93760, 93846); (93952, 94026); (94032, 94032);
  (94099, 94111); (94176, 94177); (94179, 94179); (94208, 100343); (100352, 101589);
  (101632, 101640); (110576, 110579); (110581, 110587); (110589, 110590); (110592, 110882);
  (110928, 110930); (110948, 110951); (110960, 111355); (113664, 113770); (113776, 113788);
  (113792, 113800); (113808, 113817); (119520, 119539); (119648, 119672); (119808, 119892);
  (119894, 119964); (119966, 119967); (119970, 119970); (119973, 119974); (119977, 119980);
  (119982, 119993); (119995, 119995); (119997, 120003); (120005, 120069); (120071, 120074);
  (120077, 120084); (120086, 120092); (120094, 120121); (120123, 120126); (120128, 120132);
  (120134, 120134); (120138, 120144); (120146, 120485); (120488, 120512); (120514, 120538);
  (120540, 120570); (120572, 120596); (120598, 120628); (120630, 120654); (120656, 120686);
  (120688, 120712); (120714, 120744); (120746, 120770); (120772, 120779); (120782, 120831);
  (122624, 122654); (123136, 123180); (123191, 123197); (123200, 123209); (123214, 123214);
  (123536, 123565); (123584, 123627); (123632, 123641); (124896, 124902); (124904, 124907);
  (124909, 124910); (124912, 124926); (124928, 125124); (125127, 125135); (125184, 125251);
  (125259, 125259); (125264, 125273); (126065, 126123); (126125, 126127); (126129, 126132);
  (126209, 126253); (126255, 126269); (126464, 126467); (126469, 126495); (126497, 126498);
  (126500, 126500); (126503, 126503); (126505, 126514); (126516, 126519); (126521, 126521);
  (126523, 126523); (126530, 126530); (126535, 126535); (126537, 126537); (126539, 126539);
  (126541, 126543); (126545, 126546); (126548, 126548); (126551, 126551); (126553, 126553);
  (126555, 126555); (126557, 126557); (126559, 126559); (126561, 126562); (126564, 126564);
  (126567, 126570); (126572, 126578); (126580, 126583); (126585, 126588); (126590, 126590);
  (126592, 126601); (126603, 126619); (126625, 126627); (126629, 126633); (126635, 126651);
  (127232, 127244); (130032, 130041); (131072, 173791); (173824, 177976); (177984, 178205);
  (178208, 183969); (183984, 191456); (194560, 195101); (196608, 201546) ].

Definition Py_UNICODE_ISALNUM (x : Z) : bool :=
  existsb (fun r => between (fst r) (snd r) x) alnum_ranges.

(** The class [\w] of [re]: alphanumeric or underscore. *)
Definition is_word (x : Z) : bool := Py_UNICODE_ISALNUM x || (x =? 95).

(** The simple lower-case mapping, as runs [(first, last, step, offset)]:
    every [step]-th code point from [first] to [last] lowers to itself
    plus [offset]; any other code point lowers to itself. *)
Definition tolower_runs : list (Z * Z * Z * Z) := [
  (65, 90, 1, 32); (192, 214, 1, 32); (216, 222, 1, 32); (256, 302, 2, 1);
  (304, 304, 1, (-199)); (306, 310, 2, 1); (313, 327, 2, 1); (330, 374, 2, 1);
  (376, 376, 1, (-121)); (377, 381, 2, 1); (385, 385, 1, 210); (386, 388, 2, 1);
  (390, 390, 1, 206); (391, 391, 1, 1); (393, 394, 1, 205); (395, 395, 1, 1); (398, 398, 1, 79);
  (399, 399, 1, 202); (400, 400, 1, 203); (401, 401, 1, 1); (403, 403, 1, 205);
  (404, 404, 1, 207); (406, 406, 1, 211); (407, 407, 1, 209); (408, 408, 1, 1);
  (412, 412, 1, 211); (413, 413, 1, 213); (415, 415, 1, 214); (416, 420, 2, 1);
  (422, 422, 1, 218); (423, 423, 1, 1); (425, 425, 1, 218); (428, 428, 1, 1);
  (430, 430, 1, 218); (431, 431, 1, 1); (433, 434, 1, 217); (435, 437, 2, 1);
  (439, 439, 1, 219); (440, 440, 1, 1); (444, 444, 1, 1); (452, 452, 1, 2); (453, 453, 1, 1);
  (455, 455, 1, 2); (456, 456, 1, 1); (458, 458, 1, 2); (459, 475, 2, 1); (478, 494, 2, 1);
  (497, 497, 1, 2); (498, 500, 2, 1); (502, 502, 1, (-97)); (503, 503, 1, (-56));
  (504, 542, 2, 1); (544, 544, 1, (-130)); (546, 562, 2, 1); (570, 570, 1, 10795);
  (571, 571, 1, 1); (573, 573, 1, (-163)); (574, 574, 1, 10792); (577, 577, 1, 1);
  (579, 579, 1, (-195)); (580, 580, 1, 69); (581, 581, 1, 71); (582, 590, 2, 1);
  (880, 882, 2, 1); (886, 886, 1, 1); (895, 895, 1, 116); (902, 902, 1, 38); (904, 906, 1, 37);
  (908, 908, 1, 64); (910, 911, 1, 63); (913, 929, 1, 32); (931, 939, 1, 32); (975, 975, 1, 8);
  (984, 1006, 2, 1); (1012, 1012, 1, (-60)); (1015, 1015, 1, 1); (1017, 1017, 1, (-7));
  (1018, 1018, 1, 1); (1021, 1023, 1, (-130)); (1024, 1039, 1, 80); (1040, 1071, 1, 32);
  (1120, 1152, 2, 1); (1162, 1214, 2, 1); (1216, 1216, 1, 15); (1217, 1229, 2, 1);
  (1232, 1326, 2, 1); (1329, 1366, 1, 48); (4256, 4293, 1, 7264); (4295, 4295, 1, 7264);
  (4301, 4301, 1, 7264); (5024, 5103, 1, 38864); (5104, 5109, 1, 8); (7312, 7354, 1, (-3008));
  (7357, 7359, 1, (-3008)); (7680, 7828, 2, 1); (7838, 7838, 1, (-7615)); (7840, 7934, 2, 1);
  (7944, 7951, 1, (-8)); (7960, 7965, 1, (-8)); (7976, 7983, 1, (-8)); (7992, 7999, 1, (-8));
  (8008, 8013, 1, (-8)); (8025, 8031, 2, (-8)); (8040, 8047, 1, (-8)); (8072, 8079, 1, (-8));
  (8088, 8095, 1, (-8)); (8104, 8111, 1, (-8)); (8120, 8121, 1, (-8)); (8122, 8123, 1, (-74));
  (8124, 8124, 1, (-9)); (8136, 8139, 1, (-86)); (8140, 8140, 1, (-9)); (8152, 8153, 1, (-8));
  (8154, 8155, 1, (-100)); (8168, 8169, 1, (-8)); (8170, 8171, 1, (-112));
  (8172, 8172, 1, (-7)); (8184, 8185, 1, (-128)); (8186, 8187, 1, (-126));
  (8188, 8188, 1, (-9)); (8486, 8486, 1, (-7517)); (8490, 8490, 1, (-8383));
  (8491, 8491, 1, (-8262)); (8498, 8498, 1, 28); (8544, 8559, 1, 16); (8579, 8579, 1, 1);
  (9398, 9423, 1, 26); (11264, 11311, 1, 48); (11360, 11360, 1, 1); (11362, 11362, 1, (-10743));
  (11363, 11363, 1, (-3814)); (11364, 11364, 1, (-10727)); (11367, 11371, 2, 1);
  (11373, 11373, 1, (-10780)); (11374, 11374, 1, (-10749)); (11375, 11375, 1, (-10783));
  (11376, 11376, 1, (-10782)); (11378, 11378, 1, 1); (11381, 11381, 1, 1);
  (11390, 11391, 1, (-10815)); (11392, 11490, 2, 1); (11499, 11501, 2, 1); (11506, 11506, 1, 1);
  (42560, 42604, 2, 1); (42624, 42650, 2, 1); (42786, 42798, 2, 1); (42802, 42862, 2, 1);
  (42873, 42875, 2, 1); (42877, 42877, 1, (-35332)); (42878, 42886, 2, 1); (42891, 42891, 1, 1);
  (42893, 42893, 1, (-42280)); (42896, 42898, 2, 1); (42902, 42920, 2, 1);
  (42922, 42922, 1, (-42308)); (42923, 42923, 1, (-42319)); (42924, 42924, 1, (-42315));
  (42925, 42925, 1, (-42305)); (42926, 42926, 1, (-42308)); (42928, 42928, 1, (-42258));
  (42929, 42929, 1, (-42282)); (42930, 42930, 1, (-42261)); (42931, 42931, 1, 928);
  (42932, 42946, 2, 1); (42948, 42948, 1, (-48)); (42949, 42949, 1, (-42307));
  (42950, 42950, 1, (-35384)); (42951, 42953, 2, 1); (42960, 42960, 1, 1); (42966, 42968, 2, 1);
  (42997, 42997, 1, 1); (65313, 65338, 1, 32); (66560, 66599, 1, 40); (66736, 66771, 1, 40);
  (66928, 66938, 1, 39); (66940, 66954, 1, 39); (66956, 66962, 1, 39); (66964, 66965, 1, 39);
  (68736, 68786, 1, 64); (71840, 71871, 1, 32); (93760, 93791, 1, 32); (125184, 125217, 1, 34) ].

Definition in_run (x : Z) (r : Z * Z * Z * Z) : bool :=
  let '(first, last, step, _) := r in
  between first last x && ((x - first) mod step =? 0).

(** [_sre.unicode_tolower] *)
Definition unicode_tolower (x : Z) : Z :=
  match find (in_run x) tolower_runs with
  | Some (_, _, _, offset) => x + offset
  | None => x
  end.

Definition lower (s : ustr) : ustr := map unicode_tolower s.

(** [re._casefix._EXTRA_CASES]: the other code points a lower-case letter
    matches under IGNORECASE, besides those that lower to it. *)
Definition _EXTRA_CASES : list (Z * list Z) := [
  (105, [305]); (115, [383]); (181, [956]); (305, [105]); (383, [115]); (837, [953; 8126]);
  (912, [8147]); (944, [8163]); (946, [976]); (949, [1013]); (952, [977]); (953, [837; 8126]);
  (954, [1008]); (956, [181]); (960, [982]); (961, [1009]); (962, [963]); (963, [962]);
  (966, [981]); (976, [946]); (977, [952]); (981, [966]); (982, [960]); (1008, [954]);
  (1009, [961]); (1013, [949]); (1074, [7296]); (1076, [7297]); (1086, [7298]); (1089, [7299]);
  (1090, [7300; 7301]); (1098, [7302]); (1123, [7303]); (7296, [1074]); (7297, [1076]);
  (7298, [1086]); (7299, [1089]); (7300, [1090; 7301]); (7301, [1090; 7300]); (7302, [1098]);
  (7303, [1123]); (7304, [42571]); (7777, [7835]); (7835, [7777]); (8126, [837; 953]);
  (8147, [912]); (8163, [944]); (42571, [7304]); (64261, [64262]); (64262, [64261])
 ].

Definition extra_cases (lo : Z) : list Z :=
  match find (fun p => fst p =? lo) _EXTRA_CASES with
  | Some (_, others) => others
  | None => []
  end.

(** The fragment of [re] that [_MERGE_KEYWORDS] uses: one character of a
    set, [\b], and a greedy [cls+] that backs off one character at a
    time.  A match is reported by the text left after it. *)
Inductive atom :=
| One (set : Z -> bool)
| WordB
| Rep1 (cls : Z -> bool).

Abbreviation regex := (list (list atom)).

(** [LITERAL_UNI_IGNORE lo]: the subject character, lowered, is [lo]. *)
Definition LITERAL_UNI_IGNORE (lo : Z) : Z -> bool :=
  fun x => unicode_tolower x =? lo.

(** [IN_UNI_IGNORE] on a set of literals: the subject character, lowered,
    is one of them. *)
Definition IN_UNI_IGNORE (set : list Z) : Z -> bool :=
  fun x => existsb (Z.eqb (unicode_tolower x)) set.

(** A letter of a pattern compiled under [re.IGNORECASE]: the set of the
    characters it matches, with its extra cases when it has some. *)
Definition letter_set (c : Z) : Z -> bool :=
  let lo := unicode_tolower c in
  match extra_cases lo with
  | [] => LITERAL_UNI_IGNORE lo
  | others => IN_UNI_IGNORE (lo :: others)
  end.

Definition literal_ignorecase (c : Z) : atom := One (letter_set c).

Definition lits_i (s : ustr) : list atom := map literal_ignorecase s.

Definition at_boundary (prev : option Z) (s : ustr) : bool :=
  xorb (match prev with Some c => is_word c | None => false end)
       (match s with c :: _ => is_word c | [] => false end).

Fixpoint rep_more (cls : Z -> bool) (k : Z -> ustr -> option ustr)
  (last : Z) (s : ustr) : option ustr :=
  match s with
  | x :: s' =>
      if cls x then
        match rep_more cls k x s' with
        | Some rest => Some rest
        | None => k last s
        end
      else k last s
  | [] => k last s
  end.

Fixpoint match_seq (atoms : list atom) (prev : option Z) (s : ustr)
  {struct atoms} : option ustr :=
  match atoms with
  | [] => Some s
  | a :: atoms' =>
      match a with
      | One set =>
          match s with
          | x :: s' => if set x then match_seq atoms' (Some x) s' else None
          | [] => None
          end
      | WordB => if at_boundary prev s then match_seq atoms' prev s else None
      | Rep1 cls =>
          match s with
          | x :: s' =>
              if cls x
              then rep_more cls (fun last s'' => match_seq atoms' (Some last) s'') x s'
              else None
          | [] => None
          end
      end
  end.

Fixpoint first_alt (re : regex) (prev : option Z) (s : ustr) : option ustr :=
  match re with
  | [] => None
  | alt :: re' =>
      match match_seq alt prev s with
      | Some rest => Some rest
      | None => first_alt re' prev s
      end
  end.

Fixpoint search_from (re : regex) (prev : option Z) (s : ustr) : option ustr :=
  match first_alt re prev s with
  | Some rest => Some rest
  | None =>
      match s with
      | [] => None
      | x :: s' => search_from re (Some x) s'
      end
  end.

Definition search (re : regex) (text : ustr) : option ustr := search_from re None text.

(** [\bmerge\b|can\s+u|please\s+merge], with [re.IGNORECASE] *)
Definition _MERGE_KEYWORDS : regex :=
  [ ([WordB] ++ lits_i (wide "merge") ++ [WordB])%list;
    (lits_i (wide "can") ++ [Rep1 Py_UNICODE_ISSPACE] ++ lits_i (wide "u"))%list;
    (lits_i (wide "please") ++ [Rep1 Py_UNICODE_ISSPACE] ++ lits_i (wide "merge"))%list ].

Definition has_merge_intent (text : ustr) : bool :=
  match search _MERGE_KEYWORDS text with
  | Some _ => true
  | None => false
  end.

(** *** The meaning of a sequence of atoms *)

Definition after (prev : option Z) (m : ustr) : option Z :=
  fold_left (fun _ x => Some x) m prev.

Fixpoint seq_matches (atoms : list atom) (prev : option Z) (s : ustr) : Prop :=
  match atoms with
  | [] => True
  | One set :: atoms' =>
      exists x s', s = x :: s' /\ set x = true /\ seq_matches atoms' (Some x) s'
  | WordB :: atoms' =>
      at_boundary prev s = true /\ seq_matches atoms' prev s
  | Rep1 cls :: atoms' =>
      exists x w s',
        s = (x :: w ++ s')%list /\ cls x = true /\ forallb cls w = true
        /\ seq_matches atoms' (after (Some x) w) s'
  end.

(** *** The specification's words *)

(** Letters compared without regard to case. *)
Definition eq_ignore_case (a b : ustr) : Prop := lower a = lower b.

(** The same, the long s (U+017F) counting as an s. *)
Definition long_s_as_s (x : Z) : Z := if x =? 383 then 115 else x.

Definition eq_ignore_case_long_s (a b : ustr) : Prop :=
  lower (map long_s_as_s a) = lower b.

Definition ends_outside_word (pre : ustr) : Prop :=
  forall pre' c, pre = (pre' ++ [c])%list -> is_word c = false.

Definition starts_outside_word (post : ustr) : Prop :=
  forall c post', post = c :: post' -> is_word c = false.

(** The text holds [w] as a word of its own, [same] being how letters are
    compared. *)
Definition has_standalone_word (same : ustr -> ustr -> Prop) (w text : ustr) : Prop :=
  exists pre m post,
    text = (pre ++ m ++ post)%list /\ same m w
    /\ ends_outside_word pre /\ starts_outside_word post.

(** The text holds the phrase [w1 w2]: the two words in order, white space
    between them. *)
Definition has_phrase (same : ustr -> ustr -> Prop) (w1 w2 text : ustr) : Prop :=
  exists pre m1 ws m2 post,
    text = (pre ++ m1 ++ ws ++ m2 ++ post)%list
    /\ same m1 w1 /\ ws <> []
    /\ forallb Py_UNICODE_ISSPACE ws = true /\ same m2 w2.

Definition expresses_merge_intent (same : ustr -> ustr -> Prop) (text : ustr) : Prop :=
  has_standalone_word same (wide "merge") text
  \/ has_phrase same (wide "can") (wide "u") text
  \/ has_phrase same (wide "please") (wide "merge") text.

(** "plea", U+017F, "e merged": "please merged" written with a long s. *)
Definition long_s_text : ustr := (wide "plea" ++ [383] ++ wide "e merged")%list.

(** A word of the pattern, by the set each of its letters matches, and
    the texts that spell it. *)
Definition word (letter : Z -> Z -> bool) (w : ustr) : list atom :=
  map (fun c => One (letter c)) w.

Definition spelt (letter : Z -> Z -> bool) (w t : ustr) : Prop :=
  Forall2 (fun set x => set x = true) (map letter w) t.

Definition keywords (letter : Z -> Z -> bool) : regex :=
  [ ([WordB] ++ word letter (wide "merge") ++ [WordB])%list;
    (word letter (wide "can") ++ [Rep1 Py_UNICODE_ISSPACE] ++ word letter (wide "u"))%list;
    (word letter (wide "please") ++ [Rep1 Py_UNICODE_ISSPACE]
       ++ word letter (wide "merge"))%list ].

(** A letter compared by lower case alone. *)
Definition lowered_letter (c : Z) : Z -> bool := LITERAL_UNI_IGNORE (unicode_tolower c).

(** The code points other than [t] that lower to [t]. *)
Definition lowering_to (t : Z) : list Z :=
  flat_map (fun r : Z * Z * Z * Z =>
              let '(_, _, _, offset) := r in
              if in_run (t - offset) r then [t - offset] else [])
           tolower_runs.

End Unicode.

(** ** src/slack_handler.py: handling a message event

    The handler talks to two services.  What it does is a list of
    effects, in order: requests sent to the code host and messages posted
    to the chat.  A post can fail; the client then raises.  The call to
    the logger is left out. *)

(** A dictionary: [d.get(key)], [null] when the key is missing. *)
Definition dict_get (d : list (str * pyval)) (key : str) : pyval :=
  match assoc key d with
  | Some v => v
  | None => PNone
  end.

(** [a or b] *)
Definition py_or (a b : pyval) : pyval := if truthy a then a else b.

Record Post := {
  post_token : str;
  post_channel : str;
  post_thread_ts : str;
  post_text : ustr
}.

Inductive effect :=
| Github (r : Request)
| Slack (p : Post).

Inductive task_error :=
| CodeError (e : exn)
| SlackApiError.

Inductive completion (A : Type) :=
| Done (a : A)
| Aborted (e : task_error).
Arguments Done {A} a.
Arguments Aborted {A} e.

(** The two services: the answers of the code host, and whether the chat
    accepts a post. *)
Record World := {
  github : Network;
  slack_accepts : Post -> bool
}.

Definition Task (A : Type) : Type :=
  World -> list effect -> completion A * list effect.

Definition task_ret {A} (a : A) : Task A := fun _ trace => (Done a, trace).

Definition task_bind {A B} (c : Task A) (k : A -> Task B) : Task B :=
  fun w trace =>
    match c w trace with
    | (Done a, trace') => k a w trace'
    | (Aborted e, trace') => (Aborted e, trace')
    end.

Notation "'await!' x ':=' c 'in' k" := (task_bind c (fun x => k))
  (at level 10, x pattern, c at level 100, k at level 200).

(** A computation that may raise, with no effect. *)
Definition task_of_result {A} (r : result A) : Task A :=
  fun _ trace =>
    match r with
    | Returns a => (Done a, trace)
    | Raises e => (Aborted (CodeError e), trace)
    end.

(** A conversation with the code host, its requests added to the trace. *)
Definition task_of_http {A} (c : Http A) : Task A :=
  fun w trace =>
    let '(r, sent) := c (github w) [] in
    (match r with
     | Returns a => Done a
     | Raises e => Aborted (CodeError e)
     end, (trace ++ map Github sent)%list).

(** [slack_client.chat_postMessage(channel=..., thread_ts=..., text=...)] *)
Definition chat_postMessage (p : Post) : Task unit :=
  fun w trace =>
    (if slack_accepts w p then Done tt else Aborted SlackApiError,
     (trace ++ [Slack p])%list).

Definition check_mark : Z := 10003.   (* U+2713 *)
Definition ballot_x : Z := 10007.     (* U+2717 *)

Definition denial_text : ustr := wide "Sorry, you're not authorized to trigger merges.".

(** The values the handler reads from the event. *)
Definition event_is_from_bot (event : list (str * pyval)) : bool :=
  truthy (dict_get event "bot_id") || eq_str (dict_get event "subtype") "bot_message".

Definition event_text (event : list (str * pyval)) : str :=
  py_str (py_or (dict_get event "text") (PStr "")).

Definition event_channel (event : list (str * pyval)) : str :=
  py_str (py_or (dict_get event "channel") (PStr "")).

Definition event_thread_ts (event : list (str * pyval)) : str :=
  py_str (py_or (py_or (dict_get event "thread_ts") (dict_get event "ts")) (PStr "")).

Definition event_user (event : list (str * pyval)) : str :=
  py_str (py_or (dict_get event "user") (PStr "")).

Definition handle_message_event (event : list (str * pyval)) (settings : Settings)
  : Task unit :=
  if event_is_from_bot event then task_ret tt
  else
    let text := event_text event in
    let channel := event_channel event in
    let thread_ts := event_thread_ts event in
    let user_id := event_user event in
    await! pr := task_of_result (extract_pr text) in
    match pr with
    | None => task_ret tt
    | Some pr =>
        if negb (has_merge_intent text) then task_ret tt
        else if negb (is_authorized user_id settings) then
          chat_postMessage {| post_token := slack_bot_token settings;
                              post_channel := channel;
                              post_thread_ts := thread_ts;
                              post_text := denial_text |}
        else
          await! result :=
            task_of_http (merge_pull_request (owner pr) (repo pr) (pull_number pr)
                            (github_token settings)) in
          let icon :=
            match status result with
            | SUCCESS => check_mark
            | _ => ballot_x
            end in
          chat_postMessage {| post_token := slack_bot_token settings;
                              post_channel := channel;
                              post_thread_ts := thread_ts;
                              post_text := (icon :: wide " " ++ message result)%list |}
    end.

(** Runs a task in a world, from an empty trace. *)
Definition perform {A} (c : Task A) (w : World) : completion A * list effect :=
  c w [].

(** ** src/main.py: the endpoint *)

(** What reaches the endpoint: the raw body, what parsing it as JSON
    gives, and the two headers (empty when absent). *)
Record HttpRequest := {
  raw_body : bytes;
  request_json : result pyval;
  x_slack_request_timestamp : str;
  x_slack_signature : str
}.

(** What the endpoint answers: a JSON response, or an [HTTPException]
    that the framework turns into a response with that status. *)
Inductive reply :=
| JSONResponse (content : pyval)
| HTTPException (status : Z) (detail : str).

(** A float is not finite when its [repr] is one of these. *)
Definition float_isfinite (f : pyfloat) : bool :=
  negb (bool_decide (float_repr f = ("nan" : str))
        || bool_decide (float_repr f = ("inf" : str))
        || bool_decide (float_repr f = ("-inf" : str))).

(** [json.dumps(content, allow_nan=False)] raises [ValueError] on a float
    that is not finite, and on an [int] of more than 4300 digits. *)
Fixpoint json_renderable (v : pyval) : bool :=
  match v with
  | PFloat f => float_isfinite f
  | PInt n => Z.abs n <? 10 ^ Z.of_nat int_max_str_digits
  | PList l => forallb json_renderable l
  | PDict d => forallb (fun kv => json_renderable (snd kv)) d
  | _ => true
  end.

(** [JSONResponse(content)]: the constructor renders the content. *)
Definition json_response (content : pyval) : result reply :=
  if json_renderable content then Returns (JSONResponse content)
  else Raises ValueError.

(** [background_tasks.add_task(handle_message_event, event, settings)]:
    the events queued for the handler. *)
Abbreviation queue := (list (list (str * pyval))).

Definition slack_events (now : Q) (settings : Settings) (request : HttpRequest)
  : result reply * queue :=
  match request_json request with
  | Raises _ => (Returns (HTTPException 400 "Invalid JSON body."), [])
  | Returns payload =>
      match py_get payload "type" PNone with
      | Raises e => (Raises e, [])
      | Returns type =>
          if eq_str type "url_verification" then
            (let? challenge := py_get payload "challenge" PNone in
             json_response (PDict [("challenge" : str, challenge)]), [])
          else
            match verify_slack_signature now (raw_body request)
                    (x_slack_request_timestamp request) (x_slack_signature request)
                    (slack_signing_secret settings) with
            | Raises e => (Raises e, [])
            | Returns false =>
                (Returns (HTTPException 401 "Invalid Slack signature."), [])
            | Returns true =>
                let queued :=
                  if eq_str type "event_callback" then
                    match py_get payload "event" PNone with
                    | Returns (PDict event) =>
                        if eq_str (dict_get event "type") "message" then [event] else []
                    | _ => []
                    end
                  else [] in
                (json_response (PDict [("ok" : str, PBool true)]), queued)
            end
      end
  end.

(** The framework runs the queued tasks once the response is made, one
    after the other, stopping at the first that raises. *)
Fixpoint run_queue (settings : Settings) (q : queue) : Task unit :=
  match q with
  | [] => task_ret tt
  | event :: q' =>
      await! _ := handle_message_event event settings in
      run_queue settings q'
  end.

Definition serve (now : Q) (settings : Settings) (request : HttpRequest) (w : World)
  : result reply * completion unit * list effect :=
  let '(answer, queued) := slack_events now settings request in
  let '(done, trace) := perform (run_queue settings queued) w in
  (answer, done, trace).

(** The requests to the code host among the effects. *)
Definition github_requests (trace : list effect) : list Request :=
  flat_map (fun e => match e with Github r => [r] | Slack _ => [] end) trace.

Definition slack_posts (trace : list effect) : list Post :=
  flat_map (fun e => match e with Slack p => [p] | Github _ => [] end) trace.

(** A sample message event. *)
Definition sample_event (user text : str) : list (str * pyval) :=
  [ ("type" : str, PStr "message"); ("user" : str, PStr user);
    ("channel" : str, PStr "C123"); ("ts" : str, PStr "1700000000.000100");
    ("text" : str, PStr text) ].

(** The message names the pull request: it reads "PR #" and the number. *)
Definition names_pull_request (pull_number : Z) (msg : ustr) : Prop :=
  exists pre post,
    msg = (pre ++ wide ("PR #" ++ str_of_int pull_number) ++ post)%list.

(** A post of the handler: with the bot's token, to the channel of the
    event, in the thread of the message. *)
Definition reply_post (event : list (str * pyval)) (settings : Settings) (text : ustr)
  : Post :=
  {| post_token := slack_bot_token settings;
     post_channel := event_channel event;
     post_thread_ts := event_thread_ts event;
     post_text := text |}.

(** The report of an outcome: a check mark for SUCCESS, a ballot cross
    otherwise, a space, the message. *)
Definition report_text (r : MergeResult) : ustr :=
  ((match status r with SUCCESS => check_mark | _ => ballot_x end)
     :: wide " " ++ message r)%list.

(** The attempt the handler makes for a parsed pull request. *)
Definition attempt_for (pr : ParsedPR) (settings : Settings) : Http MergeResult :=
  merge_pull_request (owner pr) (repo pr) (pull_number pr) (github_token settings).

Definition no_leading_space (s : str) : Prop :=
  match s with
  | c :: _ => Py_UNICODE_ISSPACE c = false
  | [] => True
  end.

(** Sample worlds: one in which the pull request is open and the merge
    call succeeds, one in which the code host cannot be reached. *)
Definition sample_world : World :=
  {| github := fun r =>
       match req_method r with
       | GET => Returns fetched_open_pr
       | PUT => Returns {| status_code := 200; json := Returns (PDict []) |}
       end;
     slack_accepts := fun _ => true |}.

Definition unreachable_world : World :=
  {| github := fun _ => Raises (TransportError ConnectTimeout);
     slack_accepts := fun _ => true |}.

Definition sample_text : str := "please merge https://github.com/headout/backend/pull/42".

Definition sample_pr : ParsedPR :=
  {| owner := "headout"; repo := "backend"; pull_number := 42;
     url := "https://github.com/headout/backend/pull/42" |}.

(** The check the endpoint makes of a request. *)
Definition request_verified (now : Q) (settings : Settings) (request : HttpRequest)
  : result bool :=
  verify_slack_signature now (raw_body request) (x_slack_request_timestamp request)
    (x_slack_signature request) (slack_signing_secret settings).

(** The payload is an event callback that carries this message event. *)
Definition carries_message (request : HttpRequest) (event : list (str * pyval)) : Prop :=
  exists d,
    request_json request = Returns (PDict d)
    /\ eq_str (dict_get d "type") "event_callback" = true
    /\ dict_get d "event" = PDict event
    /\ eq_str (dict_get event "type") "message" = true.

Definition ok_response : reply := JSONResponse (PDict [("ok" : str, PBool true)]).

(** A sample request carrying [sample_event] of an authorized user, with
    the signature it is sent with. *)
Definition sample_payload : pyval :=
  PDict [("type" : str, PStr "event_callback");
         ("event" : str, PDict (sample_event "U111" sample_text))].

Definition sample_body : string :=
  let q := String (ascii_of_nat 34) EmptyString in
  ("{" ++ q ++
     "type" ++ q ++
     ":" ++ q ++
     "event_callback" ++ q ++
     "," ++ q ++
     "event" ++ q ++
     ":{" ++ q ++
     "type" ++ q ++
     ":" ++ q ++
     "message" ++ q ++
     "," ++ q ++
     "user" ++ q ++
     ":" ++ q ++
     "U111" ++ q ++
     "," ++ q ++
     "channel" ++ q ++
     ":" ++ q ++
     "C123" ++ q ++
     "," ++ q ++
     "ts" ++ q ++
     ":" ++ q ++
     "1700000000.000100" ++ q ++
     "," ++ q ++
     "text" ++ q ++
     ":" ++ q ++
     "please merge https://github.com/headout/backend/pull/42" ++ q ++
     "}}")%string.

Definition sample_request (signature : str) : HttpRequest :=
  {| raw_body := list_byte_of_string sample_body;
     request_json := Returns sample_payload;
     x_slack_request_timestamp := "1700000000";
     x_slack_signature := signature |}.

Definition sample_signature : str :=
  "v0=840fb69d488a8f63ace183d3aafcee8eec180ed683637bc7d3376a1d21cf6141".

Definition sample_config : Settings := sample_settings "U111,U222".

(** * Properties *)

(** ** Authorization *)

(** C7. With an empty authorized set [is_authorized] answers false for
    every sender, the empty identity included; with a non-empty set it
    answers whether the sender is a member. *)
Theorem is_authorized_spec (slack_user_id : str) (settings : Settings) :
  (authorized_user_ids settings = ∅ -> is_authorized slack_user_id settings = false)
  /\ (authorized_user_ids settings <> ∅ ->
      is_authorized slack_user_id settings
      = bool_decide (slack_user_id ∈ authorized_user_ids settings)).
Proof.
  unfold is_authorized, set_is_empty. split; intros H.
  - now rewrite bool_decide_eq_true_2.
  - now rewrite bool_decide_eq_false_2.
Qed.

(** The repository's tests of the allow-list. *)
Example test_authorized_user : is_authorized "U111" (sample_settings "U111,U222") = true.
Proof. vm_compute. reflexivity. Qed.

Example test_unauthorized_user : is_authorized "U999" (sample_settings " U111 , U222,") = false.
Proof. vm_compute. reflexivity. Qed.

Example test_empty_allowlist_denies_all : is_authorized "U111" (sample_settings "") = false.
Proof. vm_compute. reflexivity. Qed.

Example empty_allowlist_empty_identity : is_authorized "" (sample_settings " , ") = false.
Proof. vm_compute. reflexivity. Qed.
(** ** The matcher finds a match exactly when there is one *)

Lemma after_cons prev x m : after prev (x :: m) = after (Some x) m.
Proof. reflexivity. Qed.

Lemma after_app prev m1 m2 : after prev (m1 ++ m2)%list = after (after prev m1) m2.
Proof. unfold after. apply fold_left_app. Qed.

Lemma after_snoc prev m c : after prev (m ++ [c])%list = Some c.
Proof. rewrite after_app. reflexivity. Qed.

Section Repetition.
Variable cls : ascii -> bool.
Variable k : ascii -> str -> option matched.

Lemma rep_more_sound last s w r :
  rep_more cls k last s = Some (w, r) ->
  exists s' l', s = (w ++ s')%list /\ forallb cls w = true
             /\ after (Some last) w = Some l' /\ k l' s' = Some r.
Proof.
  revert last w r. induction s as [|x s IH]; intros last w r; simpl.
  - destruct (k last []) eqn:Hk; intros [= <- <-]. exists [], last. auto.
  - destruct (cls x) eqn:Hx.
    + destruct (rep_more cls k x s) as [[w' r']|] eqn:Hm.
      * intros [= <- <-]. destruct (IH _ _ _ Hm) as (s' & l' & -> & Hw & Ha & Hk).
        exists s', l'. simpl. rewrite Hx, Hw. auto.
      * destruct (k last (x :: s)) eqn:Hk; intros [= <- <-].
        exists (x :: s), last. auto.
    + destruct (k last (x :: s)) eqn:Hk; intros [= <- <-].
      exists (x :: s), last. auto.
Qed.

Lemma rep_more_complete w : forall last s' l',
  forallb cls w = true ->
  after (Some last) w = Some l' ->
  k l' s' <> None ->
  rep_more cls k last (w ++ s')%list <> None.
Proof.
  induction w as [|y w IH]; intros last s' l' Hw Ha Hk; simpl in *.
  - injection Ha as <-. destruct s' as [|x s'']; simpl.
    + destruct (k last []); congruence.
    + destruct (cls x); [destruct (rep_more cls k x s'') as [[? ?]|]|];
        try congruence; destruct (k last (x :: s'')); congruence.
  - apply andb_true_iff in Hw as [Hy Hw]. rewrite Hy.
    specialize (IH y s' l' Hw Ha Hk).
    destruct (rep_more cls k y (w ++ s')%list) as [[? ?]|]; congruence.
Qed.
End Repetition.

Lemma after_some x w : exists c, after (Some x) w = Some c.
Proof.
  revert x. induction w as [|y w IH]; intros x; simpl; eauto.
Qed.

Lemma match_seq_sound atoms : forall prev s r,
  match_seq atoms prev s = Some r -> seq_matches atoms prev s r.
Proof.
  induction atoms as [|a atoms IH]; intros prev s r; simpl.
  - intros [= <-]. reflexivity.
  - destruct a as [c|lo| |capture cls].
    + destruct s as [|x s']; [discriminate|].
      destruct (Ascii.eqb x c) eqn:Hx; [|discriminate].
      apply Ascii.eqb_eq in Hx as ->.
      destruct (match_seq atoms (Some c) s') as [[[m gs] rest]|] eqn:Hm; [|discriminate].
      intros [= <-]. exists s', m, gs, rest. repeat split; auto.
    + destruct s as [|x s']; [discriminate|].
      destruct (Ascii.eqb (unicode_tolower x) lo) eqn:Hx; [|discriminate].
      apply Ascii.eqb_eq in Hx.
      destruct (match_seq atoms (Some x) s') as [[[m gs] rest]|] eqn:Hm; [|discriminate].
      intros [= <-]. exists x, s', m, gs, rest. repeat split; auto.
    + destruct (at_boundary prev s) eqn:Hb; [|discriminate]. auto.
    + unfold rep1. destruct s as [|x s']; [discriminate|].
      destruct (cls x) eqn:Hx; [|discriminate].
      destruct (rep_more cls _ x s') as [[w [[m gs] rest]]|] eqn:Hm; [|discriminate].
      simpl. intros [= <-].
      apply rep_more_sound in Hm as (s'' & l' & -> & Hw & Ha & Hk).
      exists x, w, s'', m, gs, rest. rewrite Ha. cbv beta in Hk. repeat split; auto.
Qed.

Lemma match_seq_complete atoms : forall prev s r,
  seq_matches atoms prev s r -> match_seq atoms prev s <> None.
Proof.
  induction atoms as [|a atoms IH]; intros prev s r; simpl.
  - discriminate.
  - destruct a as [c|lo| |capture cls].
    + intros (s' & m & gs & rest & -> & Hm & _).
      rewrite Ascii.eqb_refl. apply IH in Hm.
      destruct (match_seq atoms (Some c) s') as [[[? ?] ?]|]; [discriminate|congruence].
    + intros (x & s' & m & gs & rest & -> & Hx & Hm & _).
      apply Ascii.eqb_eq in Hx. rewrite Hx. apply IH in Hm.
      destruct (match_seq atoms (Some x) s') as [[[? ?] ?]|]; [discriminate|congruence].
    + intros [-> Hm]. eauto.
    + intros (x & w & s' & m & gs & rest & -> & Hx & Hw & Hm & _).
      unfold rep1. rewrite Hx.
      destruct (after_some x w) as [l' Ha]. rewrite Ha in Hm. apply IH in Hm.
      pose proof (rep_more_complete cls
        (fun last s'0 => match_seq atoms (Some last) s'0) w x s' l' Hw Ha Hm) as Hc.
      destruct (rep_more cls _ x (w ++ s')%list) as [[? [[? ?] ?]]|]; [discriminate|congruence].
Qed.

Lemma seq_matches_text atoms : forall prev s m gs rest,
  seq_matches atoms prev s (m, gs, rest) -> s = (m ++ rest)%list.
Proof.
  induction atoms as [|a atoms IH]; intros prev s m gs rest; simpl.
  - intros [= -> _ ->]. reflexivity.
  - destruct a as [c|lo| |capture cls].
    + intros (s' & m' & gs' & rest' & -> & Hm & [= -> _ ->]).
      simpl. f_equal. eauto.
    + intros (x & s' & m' & gs' & rest' & -> & _ & Hm & [= -> _ ->]).
      simpl. f_equal. eauto.
    + intros [_ Hm]. eauto.
    + intros (x & w & s' & m' & gs' & rest' & -> & _ & _ & Hm & [= -> _ ->]).
      simpl. f_equal. rewrite <- app_assoc. f_equal. eauto.
Qed.

Lemma first_alt_found re prev s r :
  first_alt re prev s = Some r -> exists alt, In alt re /\ match_seq alt prev s = Some r.
Proof.
  induction re as [|alt re IH]; simpl; [discriminate|].
  destruct (match_seq alt prev s) eqn:Hm.
  - intros [= <-]. eauto.
  - intros H. destruct (IH H) as (alt' & Hin & Hm'). eauto.
Qed.

Lemma first_alt_finds re prev s alt :
  In alt re -> match_seq alt prev s <> None -> first_alt re prev s <> None.
Proof.
  induction re as [|alt' re IH]; simpl; [tauto|].
  intros [-> | Hin] Hm.
  - destruct (match_seq alt prev s); congruence.
  - destruct (match_seq alt' prev s); [discriminate | auto].
Qed.

(** A search reports the leftmost position at which the pattern matches. *)
Lemma search_from_found re s : forall prev pre r,
  search_from re prev s = Some (pre, r) ->
  exists s', s = (pre ++ s')%list
    /\ first_alt re (after prev pre) s' = Some r
    /\ forall p1 p2, pre = (p1 ++ p2)%list -> p2 <> [] ->
         first_alt re (after prev p1) (p2 ++ s')%list = None.
Proof.
  induction s as [|x s IH]; intros prev pre r; simpl.
  - destruct (first_alt re prev []) eqn:Hf; intros [= <- <-].
    exists []. repeat split; auto.
    intros p1 p2 Hp. symmetry in Hp. apply app_eq_nil in Hp as [_ ->]. congruence.
  - destruct (first_alt re prev (x :: s)) eqn:Hf.
    + intros [= <- <-]. exists (x :: s). repeat split; auto.
      intros p1 p2 Hp. symmetry in Hp. apply app_eq_nil in Hp as [_ ->]. congruence.
    + destruct (search_from re (Some x) s) as [[pre' r']|] eqn:Hs; intros [= <- <-].
      destruct (IH _ _ _ Hs) as (s' & -> & Hr & Hleft).
      exists s'. repeat split; auto.
      intros p1 p2 Hp Hne. destruct p1 as [|y p1]; simpl in *.
      * subst p2. exact Hf.
      * injection Hp as <- ->. apply Hleft; auto.
Qed.

Lemma search_from_finds re pre : forall prev s',
  first_alt re (after prev pre) s' <> None ->
  search_from re prev (pre ++ s')%list <> None.
Proof.
  induction pre as [|x pre IH]; intros prev s' Hf; simpl in *.
  - destruct s' as [|y s'']; simpl; destruct (first_alt re prev _); congruence.
  - destruct (first_alt re prev (x :: pre ++ s')%list); [discriminate|].
    specialize (IH (Some x) s' Hf).
    destruct (search_from re (Some x) (pre ++ s')%list) as [[? ?]|]; congruence.
Qed.

(** A search succeeds exactly when some alternative matches somewhere. *)
Lemma search_matches re text :
  search re text <> None <->
  exists pre s' alt r,
    text = (pre ++ s')%list /\ In alt re /\ seq_matches alt (after None pre) s' r.
Proof.
  unfold search. split.
  - destruct (search_from re None text) as [[pre r]|] eqn:Hs; [intros _|congruence].
    apply search_from_found in Hs as (s' & -> & Hf & _).
    apply first_alt_found in Hf as (alt & Hin & Hm).
    exists pre, s', alt, r. auto using match_seq_sound.
  - intros (pre & s' & alt & r & -> & Hin & Hm).
    apply search_from_finds. eapply first_alt_finds; eauto using match_seq_complete.
Qed.

(** ** Literals *)

Lemma seq_matches_lits w : forall atoms prev s r,
  seq_matches (lits w ++ atoms)%list prev s r <->
  exists s' m gs rest,
    s = (w ++ s')%list /\ seq_matches atoms (after prev w) s' (m, gs, rest)
    /\ r = ((w ++ m)%list, gs, rest).
Proof.
  induction w as [|c w IH]; intros atoms prev s r; simpl.
  - split.
    + intros H. destruct r as [[m gs] rest]. exists s, m, gs, rest. auto.
    + intros (s' & m & gs & rest & -> & H & ->). exact H.
  - split.
    + intros (s' & m & gs & rest & -> & H & ->).
      apply IH in H as (s'' & m' & gs' & rest' & -> & H & [= -> -> ->]).
      exists s'', m', gs', rest'. auto.
    + intros (s' & m & gs & rest & -> & H & ->).
      exists (w ++ s')%list, (w ++ m)%list, gs, rest. repeat split; auto.
      apply IH. exists s', m, gs, rest. auto.
Qed.

Lemma seq_matches_lits_i w : forall atoms prev s r,
  seq_matches (lits_i w ++ atoms)%list prev s r <->
  exists t s' m gs rest,
    s = (t ++ s')%list /\ lower t = lower w
    /\ seq_matches atoms (after prev t) s' (m, gs, rest)
    /\ r = ((t ++ m)%list, gs, rest).
Proof.
  induction w as [|c w IH]; intros atoms prev s r; simpl.
  - split.
    + intros H. destruct r as [[m gs] rest]. exists [], s, m, gs, rest. auto.
    + intros (t & s' & m & gs & rest & -> & Ht & H & ->).
      destruct t; [exact H | discriminate].
  - split.
    + intros (x & s' & m & gs & rest & -> & Hx & H & ->).
      apply IH in H as (t & s'' & m' & gs' & rest' & -> & Ht & H & [= -> -> ->]).
      exists (x :: t), s'', m', gs', rest'. simpl. rewrite Hx, Ht. auto.
    + intros (t & s' & m & gs & rest & -> & Ht & H & ->).
      destruct t as [|x t]; [discriminate|]. simpl in Ht. injection Ht as Hx Ht.
      exists x, (t ++ s')%list, (t ++ m)%list, gs, rest. repeat split; auto.
      apply IH. exists t, s', m, gs, rest. auto.
Qed.

(** ** Word characters and case *)

Lemma is_word_tolower x : is_word (unicode_tolower x) = is_word x.
Proof. destruct x as [[] [] [] [] [] [] [] []]; reflexivity. Qed.

Lemma after_none_snoc pre :
  match after None pre with
  | None => pre = []
  | Some c => exists pre', pre = (pre' ++ [c])%list
  end.
Proof.
  destruct pre as [|x pre] using rev_ind; [reflexivity|].
  rewrite after_snoc. eauto.
Qed.

Lemma ends_outside_word_after pre :
  ends_outside_word pre <->
  match after None pre with Some c => is_word c = false | None => True end.
Proof.
  unfold ends_outside_word. pose proof (after_none_snoc pre) as H.
  destruct (after None pre) as [c|].
  - destruct H as [pre' ->]. split.
    + intros Hw. eapply Hw. reflexivity.
    + intros Hc pre'' c' Heq. apply app_inj_tail in Heq as [_ <-]. exact Hc.
  - subst pre. split; [auto|]. intros _ pre' c Heq.
    symmetry in Heq. apply app_eq_nil in Heq as [_ [=]].
Qed.

Lemma starts_outside_word_head post :
  starts_outside_word post <->
  match post with c :: _ => is_word c = false | [] => True end.
Proof.
  unfold starts_outside_word. destruct post as [|c post]; split; auto.
  - intros _ c post' [=].
  - intros H. eapply H. reflexivity.
  - intros H c' post' [= <- <-]. exact H.
Qed.

Lemma seq_matches_lits_i_end w prev s r :
  seq_matches (lits_i w) prev s r <->
  exists t rest, s = (t ++ rest)%list /\ lower t = lower w /\ r = (t, [], rest).
Proof.
  rewrite <- (app_nil_r (lits_i w)), seq_matches_lits_i. simpl. split.
  - intros (t & s' & m & gs & rest & -> & Ht & [= -> -> ->] & ->).
    exists t, s'. rewrite app_nil_r. auto.
  - intros (t & rest & -> & Ht & ->).
    exists t, rest, [], [], rest. rewrite app_nil_r. auto.
Qed.

(** [\bw\b] under IGNORECASE *)
Lemma seq_matches_word w prev s r :
  seq_matches ([WordB] ++ lits_i w ++ [WordB])%list prev s r <->
  exists t rest,
    s = (t ++ rest)%list /\ lower t = lower w
    /\ at_boundary prev s = true /\ at_boundary (after prev t) rest = true
    /\ r = (t, [], rest).
Proof.
  simpl. rewrite seq_matches_lits_i. simpl. split.
  - intros (Hb & t & s' & m & gs & rest & -> & Ht & (Hb' & [= -> -> ->]) & ->).
    exists t, s'. rewrite app_nil_r. auto.
  - intros (t & rest & -> & Ht & Hb & Hb' & ->). split; [exact Hb|].
    exists t, rest, [], [], rest. rewrite app_nil_r. auto.
Qed.

(** [w1\s+w2] under IGNORECASE *)
Lemma seq_matches_phrase w1 w2 prev s r :
  seq_matches (lits_i w1 ++ [Rep1 false Py_UNICODE_ISSPACE] ++ lits_i w2)%list prev s r <->
  exists t1 ws t2 rest,
    s = (t1 ++ ws ++ t2 ++ rest)%list /\ lower t1 = lower w1
    /\ ws <> [] /\ forallb Py_UNICODE_ISSPACE ws = true
    /\ lower t2 = lower w2 /\ r = ((t1 ++ ws ++ t2)%list, [], rest).
Proof.
  rewrite seq_matches_lits_i. simpl. split.
  - intros (t1 & s' & m & gs & rest & -> & Ht1
            & (x & w & s'' & m' & gs' & rest' & -> & Hx & Hw & Hm & [= -> -> ->]) & ->).
    apply seq_matches_lits_i_end in Hm as (t2 & rest & -> & Ht2 & [= -> -> ->]).
    exists t1, (x :: w), t2, rest. simpl. rewrite Hx, Hw.
    repeat split; auto; try discriminate.
  - intros (t1 & ws & t2 & rest & -> & Ht1 & Hne & Hws & Ht2 & ->).
    destruct ws as [|x w]; [congruence|]. simpl in Hws.
    apply andb_true_iff in Hws as [Hx Hw].
    exists t1, (x :: w ++ t2 ++ rest)%list, (x :: w ++ t2)%list, [], rest.
    repeat split; auto.
    exists x, w, (t2 ++ rest)%list, t2, [], rest. repeat split; auto.
    apply seq_matches_lits_i_end. eauto.
Qed.

(** The first and last letters of [merge], in either case, are word
    characters. *)
Lemma lower_merge t :
  lower t = lower "merge" ->
  exists x t' y, t = x :: t' /\ t = (removelast t ++ [y])%list
                 /\ is_word x = true /\ is_word y = true.
Proof.
  intros H.
  destruct t as [|x1 [|x2 [|x3 [|x4 [|x5 [|x6 t]]]]]]; try discriminate H.
  injection H as H1 _ _ _ H5.
  exists x1, [x2; x3; x4; x5], x5. repeat split.
  - rewrite <- is_word_tolower, H1. reflexivity.
  - rewrite <- is_word_tolower, H5. reflexivity.
Qed.

Lemma at_boundary_before_word prev x s :
  is_word x = true ->
  at_boundary prev (x :: s) = true <->
  match prev with Some c => is_word c = false | None => True end.
Proof.
  intros Hx. unfold at_boundary. rewrite Hx.
  destruct prev as [c|]; [destruct (is_word c)|]; simpl; split; auto; discriminate.
Qed.

Lemma at_boundary_after_word y s :
  is_word y = true ->
  at_boundary (Some y) s = true <->
  match s with c :: _ => is_word c = false | [] => True end.
Proof.
  intros Hy. unfold at_boundary. rewrite Hy.
  destruct s as [|c s]; [|destruct (is_word c)]; simpl; split; auto; discriminate.
Qed.

Lemma has_merge_intent_true text :
  has_merge_intent text = true <->
  exists pre s' alt r,
    text = (pre ++ s')%list /\ In alt _MERGE_KEYWORDS
    /\ seq_matches alt (after None pre) s' r.
Proof.
  rewrite <- search_matches. unfold has_merge_intent.
  destruct (search _MERGE_KEYWORDS text); split; congruence.
Qed.

Lemma has_merge_intent_iff text :
  has_merge_intent text = true <-> expresses_merge_intent text.
Proof.
  rewrite has_merge_intent_true. unfold expresses_merge_intent. split.
  - intros (pre & s' & alt & r & -> & Hin & Hm).
    destruct Hin as [<- | [<- | [<- | []]]].
    + left. apply seq_matches_word in Hm as (t & rest & -> & Ht & Hb & Hb' & _).
      destruct (lower_merge t Ht) as (x & t' & y & Hx & Hy & Hwx & Hwy).
      exists pre, t, rest. repeat split; auto.
      * apply ends_outside_word_after. rewrite Hx in Hb. simpl in Hb.
        now apply (at_boundary_before_word _ x (t' ++ rest)%list Hwx).
      * apply starts_outside_word_head. rewrite Hy, after_snoc in Hb'.
        now apply at_boundary_after_word in Hb'.
    + right; left.
      apply seq_matches_phrase in Hm as (t1 & ws & t2 & rest & -> & H1 & Hne & Hws & H2 & _).
      exists pre, t1, ws, t2, rest. auto.
    + right; right.
      apply seq_matches_phrase in Hm as (t1 & ws & t2 & rest & -> & H1 & Hne & Hws & H2 & _).
      exists pre, t1, ws, t2, rest. auto.
  - intros [(pre & t & post & -> & Ht & Hpre & Hpost) | [H | H]].
    + exists pre, (t ++ post)%list, ([WordB] ++ lits_i "merge" ++ [WordB])%list, (t, [], post).
      split; [reflexivity|]. split; [simpl; auto|].
      apply seq_matches_word. exists t, post.
      destruct (lower_merge t Ht) as (x & t' & y & Hx & Hy & Hwx & Hwy).
      repeat split; auto.
      * rewrite Hx. simpl. apply (at_boundary_before_word _ x (t' ++ post)%list Hwx).
        now apply ends_outside_word_after.
      * rewrite Hy, after_snoc. apply at_boundary_after_word; auto.
        now apply starts_outside_word_head.
    + destruct H as (pre & t1 & ws & t2 & post & -> & H1 & Hne & Hws & H2).
      exists pre, (t1 ++ ws ++ t2 ++ post)%list,
        (lits_i "can" ++ [Rep1 false Py_UNICODE_ISSPACE] ++ lits_i "u")%list,
        ((t1 ++ ws ++ t2)%list, [], post).
      split; [reflexivity|]. split; [simpl; auto|].
      apply seq_matches_phrase. exists t1, ws, t2, post. repeat split; auto.
    + destruct H as (pre & t1 & ws & t2 & post & -> & H1 & Hne & Hws & H2).
      exists pre, (t1 ++ ws ++ t2 ++ post)%list,
        (lits_i "please" ++ [Rep1 false Py_UNICODE_ISSPACE] ++ lits_i "merge")%list,
        ((t1 ++ ws ++ t2)%list, [], post).
      split; [reflexivity|]. split; [simpl; auto|].
      apply seq_matches_phrase. exists t1, ws, t2, post. repeat split; auto.
Qed.

(** On texts of code points up to U+00FF, the two examples of the
    specification. *)
Example has_merge_intent_examples :
  has_merge_intent "MERGE it now" = true /\ has_merge_intent "submerged" = false.
Proof. split; reflexivity. Qed.

(** C10. The phrase patterns carry no word boundary: a text in which "can",
    then white space, then "u" occur, even inside longer words, has merge
    intent. *)
Theorem has_merge_intent_can_u (pre ws post : str) :
  ws <> [] -> forallb Py_UNICODE_ISSPACE ws = true ->
  has_merge_intent (pre ++ "can" ++ ws ++ "u" ++ post)%list = true.
Proof.
  intros Hne Hws. apply has_merge_intent_iff. right; left.
  exists pre, ("can" : str), ws, ("u" : str), post. repeat split; auto.
Qed.

Lemma has_merge_intent_can_u_witness :
  has_merge_intent "american university" = true.
Proof.
  apply (has_merge_intent_can_u "ameri" " " "niversity"); [discriminate | reflexivity].
Defined.

(** ** Merge intent on every code point *)

Module UnicodeFacts.
Import Unicode.

Lemma after_app_u prev m1 m2 : after prev (m1 ++ m2)%list = after (after prev m1) m2.
Proof. unfold after. apply fold_left_app. Qed.

Lemma after_snoc_u prev m c : after prev (m ++ [c])%list = Some c.
Proof. rewrite after_app_u. reflexivity. Qed.

Lemma after_some_u x w : exists c, after (Some x) w = Some c.
Proof. revert x. induction w as [|y w IH]; intros x; simpl; eauto. Qed.

Lemma rep_more_sound_u cls k s : forall last rest,
  rep_more cls k last s = Some rest ->
  exists w s' l', s = (w ++ s')%list /\ forallb cls w = true
                  /\ after (Some last) w = Some l' /\ k l' s' = Some rest.
Proof.
  induction s as [|x s IH]; intros last rest; simpl.
  - intros Hk. exists [], [], last. auto.
  - destruct (cls x) eqn:Hx.
    + destruct (rep_more cls k x s) as [rest'|] eqn:Hm.
      * intros [= <-]. destruct (IH _ _ Hm) as (w & s' & l' & -> & Hw & Ha & Hk).
        exists (x :: w), s', l'. simpl. rewrite Hx, Hw. auto.
      * intros Hk. exists [], (x :: s), last. auto.
    + intros Hk. exists [], (x :: s), last. auto.
Qed.

Lemma rep_more_complete_u cls k w : forall last s' l',
  forallb cls w = true ->
  after (Some last) w = Some l' ->
  k l' s' <> None ->
  rep_more cls k last (w ++ s')%list <> None.
Proof.
  induction w as [|y w IH]; intros last s' l' Hw Ha Hk; simpl in *.
  - injection Ha as <-. destruct s' as [|x s'']; simpl; [exact Hk|].
    destruct (cls x); [destruct (rep_more cls k x s'')|]; congruence.
  - apply andb_true_iff in Hw as [Hy Hw]. rewrite Hy.
    specialize (IH y s' l' Hw Ha Hk).
    destruct (rep_more cls k y (w ++ s')%list); congruence.
Qed.

(** The matcher finds a match exactly when there is one. *)
Lemma match_seq_iff atoms : forall prev s,
  match_seq atoms prev s <> None <-> seq_matches atoms prev s.
Proof.
  induction atoms as [|a atoms IH]; intros prev s; simpl.
  - split; [auto | discriminate].
  - destruct a as [set| |cls].
    + destruct s as [|x s'].
      * split; [congruence|]. intros (x & s' & [=] & _).
      * destruct (set x) eqn:Hx.
        -- rewrite IH. split; [eauto|]. intros (x' & s'' & [= <- <-] & _ & H). exact H.
        -- split; [congruence|]. intros (x' & s'' & [= <- <-] & Hx' & _). congruence.
    + destruct (at_boundary prev s).
      * rewrite IH. tauto.
      * split; [congruence|]. intros [[=] _].
    + destruct s as [|x s'].
      * split; [congruence|]. intros (x & w & s' & [=] & _).
      * destruct (cls x) eqn:Hx.
        -- split.
           ++ intros H.
              destruct (rep_more cls _ x s') as [rest|] eqn:Hm; [|congruence].
              apply rep_more_sound_u in Hm as (w & s'' & l' & -> & Hw & Ha & Hk).
              exists x, w, s''. rewrite Ha. repeat split; auto.
              apply IH. cbv beta in Hk. congruence.
           ++ intros (x' & w & s'' & [= <- ->] & _ & Hw & H).
              destruct (after_some_u x w) as [l' Ha]. rewrite Ha in H.
              apply IH in H.
              exact (rep_more_complete_u cls
                       (fun last s0 => match_seq atoms (Some last) s0) w x s'' l' Hw Ha H).
        -- split; [congruence|].
           intros (x' & w & s'' & [= <- ->] & Hx' & _). congruence.
Qed.

Lemma first_alt_iff re prev s :
  first_alt re prev s <> None <-> exists alt, In alt re /\ seq_matches alt prev s.
Proof.
  induction re as [|alt re IH]; simpl.
  - split; [congruence|]. intros (alt & [] & _).
  - destruct (match_seq alt prev s) as [rest|] eqn:Hm.
    + split; [|discriminate]. intros _. exists alt. split; [auto|].
      apply match_seq_iff. congruence.
    + rewrite IH. split.
      * intros (alt' & Hin & H). eauto.
      * intros (alt' & [<- | Hin] & H); [|eauto].
        apply match_seq_iff in H. congruence.
Qed.

Lemma search_from_iff re s : forall prev,
  search_from re prev s <> None <->
  exists pre s', s = (pre ++ s')%list /\ first_alt re (after prev pre) s' <> None.
Proof.
  induction s as [|x s IH]; intros prev; simpl.
  - destruct (first_alt re prev []) eqn:Hf.
    + split; [|discriminate]. intros _. exists [], []. split; [reflexivity|].
      simpl. congruence.
    + split; [congruence|]. intros (pre & s' & Heq & H).
      symmetry in Heq. apply app_eq_nil in Heq as [-> ->]. simpl in H. congruence.
  - destruct (first_alt re prev (x :: s)) eqn:Hf.
    + split; [|discriminate]. intros _. exists [], (x :: s). split; [reflexivity|].
      simpl. congruence.
    + rewrite IH. split.
      * intros (pre & s' & -> & H). exists (x :: pre), s'. auto.
      * intros (pre & s' & Heq & H). destruct pre as [|y pre]; simpl in *.
        -- subst s'. congruence.
        -- injection Heq as <- ->. eauto.
Qed.

(** A search succeeds exactly when some alternative matches somewhere. *)
Lemma search_iff re text :
  search re text <> None <->
  exists pre s' alt,
    text = (pre ++ s')%list /\ In alt re /\ seq_matches alt (after None pre) s'.
Proof.
  unfold search. rewrite search_from_iff. split.
  - intros (pre & s' & -> & H). apply first_alt_iff in H as (alt & Hin & H).
    exists pre, s', alt. auto.
  - intros (pre & s' & alt & -> & Hin & H). exists pre, s'. split; [reflexivity|].
    apply first_alt_iff. eauto.
Qed.

(** A run of single characters. *)
Lemma seq_matches_letters (sets : list (Z -> bool)) : forall atoms prev s,
  seq_matches (map One sets ++ atoms)%list prev s <->
  exists t s',
    s = (t ++ s')%list /\ Forall2 (fun set x => set x = true) sets t
    /\ seq_matches atoms (after prev t) s'.
Proof.
  induction sets as [|set sets IH]; intros atoms prev s; simpl.
  - split.
    + intros H. exists [], s. auto.
    + intros (t & s' & -> & Ht & H). inversion Ht. subst. exact H.
  - split.
    + intros (x & s' & -> & Hx & H).
      apply IH in H as (t & s'' & -> & Ht & H).
      exists (x :: t), s''. auto.
    + intros (t & s' & -> & Ht & H). inversion Ht as [|set' x sets' t' Hx Ht']. subst.
      exists x, (t' ++ s')%list. repeat split; auto.
      apply IH. eauto.
Qed.

Section Keywords.
Variable letter : Z -> Z -> bool.
Variable same : ustr -> ustr -> Prop.

Hypothesis same_spelt : forall w t,
  In w [wide "merge"; wide "can"; wide "u"; wide "please"] -> (spelt letter w t <-> same t w).
Hypothesis letter_m_word : forall x, letter 109 x = true -> is_word x = true.
Hypothesis letter_e_word : forall x, letter 101 x = true -> is_word x = true.

Lemma word_map w : word letter w = map One (map letter w).
Proof. unfold word. rewrite map_map. reflexivity. Qed.

Lemma seq_matches_word_u w prev s :
  seq_matches ([WordB] ++ word letter w ++ [WordB])%list prev s <->
  exists t rest,
    s = (t ++ rest)%list /\ spelt letter w t
    /\ at_boundary prev s = true /\ at_boundary (after prev t) rest = true.
Proof.
  cbn [app seq_matches]. rewrite word_map, seq_matches_letters. cbn [seq_matches]. split.
  - intros (Hb & t & s' & -> & Ht & Hb' & _). exists t, s'. auto.
  - intros (t & rest & -> & Ht & Hb & Hb'). split; [exact Hb|]. exists t, rest. auto.
Qed.

Lemma seq_matches_phrase_u w1 w2 prev s :
  seq_matches (word letter w1 ++ [Rep1 Py_UNICODE_ISSPACE] ++ word letter w2)%list prev s <->
  exists t1 ws t2 rest,
    s = (t1 ++ ws ++ t2 ++ rest)%list /\ spelt letter w1 t1
    /\ ws <> [] /\ forallb Py_UNICODE_ISSPACE ws = true /\ spelt letter w2 t2.
Proof.
  rewrite word_map, seq_matches_letters. cbn [app seq_matches]. split.
  - intros (t1 & s' & -> & Ht1 & x & w & s'' & -> & Hx & Hw & Hm).
    rewrite <- (app_nil_r (word letter w2)), word_map in Hm.
    apply seq_matches_letters in Hm as (t2 & rest & -> & Ht2 & _).
    exists t1, (x :: w), t2, rest. simpl. rewrite Hx, Hw.
    repeat split; auto; try discriminate.
  - intros (t1 & ws & t2 & rest & -> & Ht1 & Hne & Hws & Ht2).
    destruct ws as [|x w]; [congruence|]. simpl in Hws.
    apply andb_true_iff in Hws as [Hx Hw].
    exists t1, (x :: w ++ t2 ++ rest)%list. repeat split; auto.
    exists x, w, (t2 ++ rest)%list. repeat split; auto.
    rewrite <- (app_nil_r (word letter w2)), word_map. apply seq_matches_letters.
    exists t2, rest. simpl. auto.
Qed.

(** The first and last letters of a spelling of "merge" are word
    characters. *)
Lemma spelt_merge t :
  spelt letter (wide "merge") t ->
  exists x t' y, t = x :: t' /\ t = (removelast t ++ [y])%list
                 /\ is_word x = true /\ is_word y = true.
Proof.
  intros H. unfold spelt in H. cbn [wide map list_ascii_of_string] in H.
  inversion H as [|s1 x1 l1 r1 H1 T1]; subst.
  inversion T1 as [|s2 x2 l2 r2 H2 T2]; subst.
  inversion T2 as [|s3 x3 l3 r3 H3 T3]; subst.
  inversion T3 as [|s4 x4 l4 r4 H4 T4]; subst.
  inversion T4 as [|s5 x5 l5 r5 H5 T5]; subst.
  inversion T5; subst.
  exists x1, [x2; x3; x4; x5], x5. repeat split.
  - apply letter_m_word. exact H1.
  - apply letter_e_word. exact H5.
Qed.

Lemma at_boundary_before_word_u prev x s :
  is_word x = true ->
  at_boundary prev (x :: s) = true <->
  match prev with Some c => is_word c = false | None => True end.
Proof.
  intros Hx. unfold at_boundary. rewrite Hx.
  destruct prev as [c|]; [destruct (is_word c)|]; simpl; split; auto; discriminate.
Qed.

Lemma at_boundary_after_word_u y s :
  is_word y = true ->
  at_boundary (Some y) s = true <->
  match s with c :: _ => is_word c = false | [] => True end.
Proof.
  intros Hy. unfold at_boundary. rewrite Hy.
  destruct s as [|c s]; [|destruct (is_word c)]; simpl; split; auto; discriminate.
Qed.

Lemma after_none_snoc_u pre :
  match after None pre with
  | None => pre = []
  | Some c => exists pre', pre = (pre' ++ [c])%list
  end.
Proof.
  destruct pre as [|x pre] using rev_ind; [reflexivity|].
  rewrite after_snoc_u. eauto.
Qed.

Lemma ends_outside_word_after_u pre :
  ends_outside_word pre <->
  match after None pre with Some c => is_word c = false | None => True end.
Proof.
  unfold ends_outside_word. pose proof (after_none_snoc_u pre) as H.
  destruct (after None pre) as [c|].
  - destruct H as [pre' ->]. split.
    + intros Hw. eapply Hw. reflexivity.
    + intros Hc pre'' c' Heq. apply app_inj_tail in Heq as [_ <-]. exact Hc.
  - subst pre. split; [auto|]. intros _ pre' c Heq.
    symmetry in Heq. apply app_eq_nil in Heq as [_ [=]].
Qed.

Lemma starts_outside_word_head_u post :
  starts_outside_word post <->
  match post with c :: _ => is_word c = false | [] => True end.
Proof.
  unfold starts_outside_word. destruct post as [|c post]; split; auto.
  - intros _ c post' [=].
  - intros H. eapply H. reflexivity.
  - intros H c' post' [= <- <-]. exact H.
Qed.

(** The search for the pattern, by what the text holds. *)
Lemma search_keywords text :
  search (keywords letter) text <> None <-> expresses_merge_intent same text.
Proof.
  rewrite search_iff. unfold expresses_merge_intent, keywords.
  split.
  - intros (pre & s' & alt & -> & Hin & Hm).
    destruct Hin as [<- | [<- | [<- | []]]].
    + left. apply seq_matches_word_u in Hm as (t & rest & -> & Ht & Hb & Hb').
      destruct (spelt_merge t Ht) as (x & t' & y & Hx & Hy & Hwx & Hwy).
      exists pre, t, rest. split; [reflexivity|].
      split; [apply same_spelt; [simpl; auto|exact Ht]|]. split.
      * apply ends_outside_word_after_u. rewrite Hx in Hb. simpl in Hb.
        now apply (at_boundary_before_word_u _ x (t' ++ rest)%list Hwx).
      * apply starts_outside_word_head_u. rewrite Hy, after_snoc_u in Hb'.
        now apply at_boundary_after_word_u in Hb'.
    + right; left.
      apply seq_matches_phrase_u in Hm as (t1 & ws & t2 & rest & -> & H1 & Hne & Hws & H2).
      exists pre, t1, ws, t2, rest. repeat split; auto; apply same_spelt; simpl; auto.
    + right; right.
      apply seq_matches_phrase_u in Hm as (t1 & ws & t2 & rest & -> & H1 & Hne & Hws & H2).
      exists pre, t1, ws, t2, rest. repeat split; auto; apply same_spelt; simpl; auto.
  - intros [(pre & t & post & -> & Ht & Hpre & Hpost) | [H | H]].
    + apply same_spelt in Ht; [|simpl; auto].
      exists pre, (t ++ post)%list, ([WordB] ++ word letter (wide "merge") ++ [WordB])%list.
      split; [reflexivity|]. split; [simpl; auto|].
      apply seq_matches_word_u. exists t, post.
      destruct (spelt_merge t Ht) as (x & t' & y & Hx & Hy & Hwx & Hwy).
      repeat split; auto.
      * rewrite Hx. simpl. apply (at_boundary_before_word_u _ x (t' ++ post)%list Hwx).
        now apply ends_outside_word_after_u.
      * rewrite Hy, after_snoc_u. apply at_boundary_after_word_u; auto.
        now apply starts_outside_word_head_u.
    + destruct H as (pre & t1 & ws & t2 & post & -> & H1 & Hne & Hws & H2).
      apply same_spelt in H1; [|simpl; auto]. apply same_spelt in H2; [|simpl; auto].
      exists pre, (t1 ++ ws ++ t2 ++ post)%list,
        (word letter (wide "can") ++ [Rep1 Py_UNICODE_ISSPACE] ++ word letter (wide "u"))%list.
      split; [reflexivity|]. split; [simpl; auto|].
      apply seq_matches_phrase_u. exists t1, ws, t2, post. repeat split; auto.
    + destruct H as (pre & t1 & ws & t2 & post & -> & H1 & Hne & Hws & H2).
      apply same_spelt in H1; [|simpl; auto]. apply same_spelt in H2; [|simpl; auto].
      exists pre, (t1 ++ ws ++ t2 ++ post)%list,
        (word letter (wide "please") ++ [Rep1 Py_UNICODE_ISSPACE] ++ word letter (wide "merge"))%list.
      split; [reflexivity|]. split; [simpl; auto|].
      apply seq_matches_phrase_u. exists t1, ws, t2, post. repeat split; auto.
Qed.
End Keywords.

(** What lowers to a code point is found in the table. *)
Lemma unicode_tolower_source x t :
  unicode_tolower x = t -> x = t \/ In x (lowering_to t).
Proof.
  unfold unicode_tolower.
  destruct (find (in_run x) tolower_runs) as [[[[first last] step] offset]|] eqn:Hf.
  - apply find_some in Hf as [Hin Hrun]. intros <-. right.
    unfold lowering_to. apply in_flat_map. exists (first, last, step, offset).
    split; [exact Hin|]. replace (x + offset - offset) with x by lia.
    rewrite Hrun. left. reflexivity.
  - intros <-. left. reflexivity.
Qed.

Lemma letter_set_word (c : Z) x :
  In c [109; 101] -> unicode_tolower x = c -> is_word x = true.
Proof.
  intros Hc Hx. apply unicode_tolower_source in Hx.
  destruct Hc as [<- | [<- | []]];
    (destruct Hx as [-> | Hx]; [vm_compute; reflexivity|]);
    vm_compute in Hx; destruct Hx as [<- | []]; vm_compute; reflexivity.
Qed.

Lemma spelt_map (letter : Z -> Z -> bool) (f g : Z -> Z) w : forall t,
  (forall c x, In c w -> (letter c x = true <-> f x = g c)) ->
  Forall2 (fun set x => set x = true) (map letter w) t <-> map f t = map g w.
Proof.
  induction w as [|c w IH]; intros t H; simpl.
  - split.
    + intros Ht. inversion Ht. reflexivity.
    + destruct t; [constructor | discriminate].
  - split.
    + intros Ht. inversion Ht as [|set x sets t' Hx Ht']. subst. simpl. f_equal.
      * apply H; [left; reflexivity | exact Hx].
      * apply IH; [|exact Ht']. intros c' x' Hc'. apply H. right. exact Hc'.
    + destruct t as [|x t]; [discriminate|]. simpl. intros [= Hx Ht]. constructor.
      * apply H; [left; reflexivity | exact Hx].
      * apply IH; [|exact Ht]. intros c' x' Hc'. apply H. right. exact Hc'.
Qed.

(** The letters of the pattern. *)
Lemma pattern_letters w c :
  In w [wide "merge"; wide "can"; wide "u"; wide "please"] -> In c w ->
  In c [109; 101; 114; 103; 99; 97; 110; 117; 112; 108; 115].
Proof.
  intros Hw Hc. destruct Hw as [<- | [<- | [<- | [<- | []]]]]; simpl in Hc |- *; tauto.
Qed.

(** Under IGNORECASE a letter of the pattern matches what lowers to it,
    and the letter s the long s besides. *)
Lemma letter_set_spec c x :
  In c [109; 101; 114; 103; 99; 97; 110; 117; 112; 108; 115] ->
  letter_set c x = true <-> unicode_tolower (long_s_as_s x) = unicode_tolower c.
Proof.
  intros Hc.
  assert (Hs : unicode_tolower x = 383 -> x = 383).
  { intros H. apply unicode_tolower_source in H as [H | H]; [exact H|].
    vm_compute in H. contradiction. }
  assert (H115 : unicode_tolower 115 = 115) by (vm_compute; reflexivity).
  assert (H383 : unicode_tolower 383 = 383) by (vm_compute; reflexivity).
  unfold long_s_as_s. destruct (Z.eqb_spec x 383) as [-> | Hx].
  - rewrite H115.
    repeat (destruct Hc as [<- | Hc]; [vm_compute; split; congruence|]).
    destruct Hc.
  - repeat (destruct Hc as [<- | Hc];
            [match goal with
             | |- letter_set ?c x = true <-> _ =>
                 first
                   [ change (letter_set c x) with (unicode_tolower x =? c);
                     change (unicode_tolower c) with c;
                     apply Z.eqb_eq
                   | change (letter_set c x)
                       with ((unicode_tolower x =? 115) || ((unicode_tolower x =? 383) || false));
                     change (unicode_tolower c) with c;
                     rewrite !orb_true_iff, !Z.eqb_eq; split;
                     [intros [H | [H | [=]]]; [exact H | exfalso; auto] | auto] ]
             end|]).
    destruct Hc.
Qed.

Lemma same_spelt_long_s w t :
  In w [wide "merge"; wide "can"; wide "u"; wide "please"] ->
  Forall2 (fun set x => set x = true) (map letter_set w) t
  <-> eq_ignore_case_long_s t w.
Proof.
  intros Hw. unfold eq_ignore_case_long_s, lower. rewrite map_map.
  apply spelt_map. intros c x Hc. apply letter_set_spec. eapply pattern_letters; eauto.
Qed.

Lemma same_spelt_lowered w t :
  Forall2 (fun set x => set x = true) (map lowered_letter w) t <-> eq_ignore_case t w.
Proof.
  unfold eq_ignore_case, lower. apply spelt_map. intros c x _.
  unfold lowered_letter, LITERAL_UNI_IGNORE. apply Z.eqb_eq.
Qed.

Lemma letter_set_m_e (c : Z) x : In c [109; 101] -> letter_set c x = true -> is_word x = true.
Proof.
  intros Hc H. apply (letter_set_word c x Hc).
  destruct Hc as [<- | [<- | []]]; apply Z.eqb_eq; exact H.
Qed.

Lemma has_merge_intent_search text :
  has_merge_intent text = true <-> search (keywords letter_set) text <> None.
Proof.
  unfold has_merge_intent. change _MERGE_KEYWORDS with (keywords letter_set).
  destruct (search (keywords letter_set) text); split; congruence.
Qed.

(** The matcher on every code point, against the specification's words
    with the long s taken as an s. *)
Lemma merge_intent_unicode_iff text :
  has_merge_intent text = true <-> expresses_merge_intent eq_ignore_case_long_s text.
Proof.
  rewrite has_merge_intent_search. apply search_keywords.
  - intros w t Hw. now apply same_spelt_long_s.
  - intros x. apply letter_set_m_e. simpl. auto.
  - intros x. apply letter_set_m_e. simpl. auto.
Qed.

(** Letters compared by lower case alone: what the pattern would match
    without the extra cases. *)
Lemma search_lowered_iff text :
  search (keywords lowered_letter) text <> None <-> expresses_merge_intent eq_ignore_case text.
Proof.
  apply search_keywords.
  - intros w t _. apply same_spelt_lowered.
  - intros x H. apply (letter_set_word 109 x); [simpl; auto|]. apply Z.eqb_eq. exact H.
  - intros x H. apply (letter_set_word 101 x); [simpl; auto|]. apply Z.eqb_eq. exact H.
Qed.

End UnicodeFacts.

(** C6, as the code has it.  On a text of any code points
    [has_merge_intent] answers true exactly when the text holds the word
    "merge" standing alone (in any mix of cases, no word character on
    either side) or one of the phrases "can u" and "please merge" (their
    words in any mix of cases, white space between them), the long s
    (U+017F) counting as an s; so "MERGE it now" gives true and
    "submerged" gives false. *)
Theorem has_merge_intent_spec :
  (forall text : ustr,
     Unicode.has_merge_intent text = true
     <-> Unicode.expresses_merge_intent Unicode.eq_ignore_case_long_s text)
  /\ Unicode.has_merge_intent (wide "MERGE it now") = true
  /\ Unicode.has_merge_intent (wide "submerged") = false.
Proof.
  split; [exact UnicodeFacts.merge_intent_unicode_iff|].
  split; vm_compute; reflexivity.
Qed.

(** C6 as stated fails on "please merged" written with a long s: the
    pattern matches it, and it holds neither the word nor a phrase when
    letters are compared without regard to case. *)
Lemma has_merge_intent_long_s :
  Unicode.has_merge_intent Unicode.long_s_text = true
  /\ ~ Unicode.expresses_merge_intent Unicode.eq_ignore_case Unicode.long_s_text.
Proof.
  split; [vm_compute; reflexivity|].
  intros H. apply UnicodeFacts.search_lowered_iff in H. apply H.
  vm_compute. reflexivity.
Qed.

(** Beyond U+00FF: white space and word characters are those of the whole
    table (an em space separates, a CJK letter or an Arabic-Indic digit
    after "merge" makes it part of a longer word), and the Kelvin sign,
    which lowers to k, matches no letter of the pattern. *)
Example has_merge_intent_beyond_latin1 :
  Unicode.has_merge_intent (wide "can" ++ [8195] ++ wide "u")%list = true
  /\ Unicode.has_merge_intent (wide "merge" ++ [20013])%list = false
  /\ Unicode.has_merge_intent (wide "merge" ++ [1632])%list = false
  /\ Unicode.has_merge_intent (wide "merge" ++ [8212])%list = true
  /\ Unicode.has_merge_intent ([8490] ++ wide "an u")%list = false.
Proof. vm_compute. auto. Qed.

(** ** The two models of the message text agree

    On a text of code points up to U+00FF the matcher on [list ascii] and
    the matcher on every code point give the same answer. *)

Lemma code_tolower c : Unicode.unicode_tolower (code c) = code (unicode_tolower c).
Proof. destruct c as [[] [] [] [] [] [] [] []]; vm_compute; reflexivity. Qed.

Lemma code_is_word c : Unicode.is_word (code c) = is_word c.
Proof. destruct c as [[] [] [] [] [] [] [] []]; vm_compute; reflexivity. Qed.

Lemma code_isspace c : Unicode.Py_UNICODE_ISSPACE (code c) = Py_UNICODE_ISSPACE c.
Proof. destruct c as [[] [] [] [] [] [] [] []]; vm_compute; reflexivity. Qed.

Lemma code_long_s c : Unicode.long_s_as_s (code c) = code c.
Proof. destruct c as [[] [] [] [] [] [] [] []]; vm_compute; reflexivity. Qed.

Lemma code_injective a b : code a = code b -> a = b.
Proof.
  unfold code. intros H. apply N2Z.inj in H.
  rewrite <- (ascii_N_embedding a), <- (ascii_N_embedding b), H. reflexivity.
Qed.

Lemma wide_injective a : forall b, wide a = wide b -> a = b.
Proof.
  induction a as [|x a IH]; intros [|y b]; simpl; try discriminate; [reflexivity|].
  intros [= Hx H]. f_equal; [now apply code_injective | now apply IH].
Qed.

Lemma wide_split s : forall a b,
  wide s = (a ++ b)%list -> exists a' b', s = (a' ++ b')%list /\ a = wide a' /\ b = wide b'.
Proof.
  unfold wide. intros a b H. apply map_eq_app in H as (a' & b' & -> & <- & <-). eauto.
Qed.

Lemma wide_lower s : Unicode.lower (wide s) = wide (lower s).
Proof.
  unfold Unicode.lower, wide, lower. rewrite !map_map.
  apply map_ext. intros c. apply code_tolower.
Qed.

Lemma wide_eq_ignore_case m (w : str) :
  Unicode.eq_ignore_case_long_s (wide m) (wide w) <-> eq_ignore_case m w.
Proof.
  unfold Unicode.eq_ignore_case_long_s, eq_ignore_case.
  assert (E : map Unicode.long_s_as_s (wide m) = wide m).
  { unfold wide. rewrite map_map. apply map_ext. intros c. apply code_long_s. }
  rewrite E, !wide_lower. split; [apply wide_injective | congruence].
Qed.

Lemma wide_ends_outside_word pre :
  Unicode.ends_outside_word (wide pre) <-> ends_outside_word pre.
Proof.
  unfold Unicode.ends_outside_word, ends_outside_word. split.
  - intros H pre' c ->. rewrite <- code_is_word. apply (H (wide pre')).
    unfold wide. rewrite map_app. reflexivity.
  - intros H pre' c Heq. apply wide_split in Heq as (a & b & -> & -> & Hb).
    destruct b as [|y [|z b]]; try discriminate Hb. injection Hb as ->.
    rewrite code_is_word. eapply H. reflexivity.
Qed.

Lemma wide_starts_outside_word post :
  Unicode.starts_outside_word (wide post) <-> starts_outside_word post.
Proof.
  unfold Unicode.starts_outside_word, starts_outside_word. split.
  - intros H c post' ->. rewrite <- code_is_word. eapply H. reflexivity.
  - intros H c post' Heq. destruct post as [|y post]; [discriminate|].
    injection Heq as <- <-. rewrite code_is_word. eapply H. reflexivity.
Qed.

Lemma wide_forallb_isspace ws :
  forallb Unicode.Py_UNICODE_ISSPACE (wide ws) = forallb Py_UNICODE_ISSPACE ws.
Proof.
  induction ws as [|c ws IH]; [reflexivity|]. simpl. rewrite code_isspace, IH. reflexivity.
Qed.

Lemma wide_has_standalone_word (w text : str) :
  Unicode.has_standalone_word Unicode.eq_ignore_case_long_s (wide w) (wide text)
  <-> has_standalone_word w text.
Proof.
  unfold Unicode.has_standalone_word, has_standalone_word. split.
  - intros (pre & m & post & Heq & Hm & Hpre & Hpost).
    apply wide_split in Heq as (pre' & rest & -> & -> & Hrest). symmetry in Hrest.
    apply wide_split in Hrest as (m' & post' & -> & -> & ->).
    exists pre', m', post'. split; [reflexivity|].
    split; [now apply wide_eq_ignore_case|].
    split; [now apply wide_ends_outside_word | now apply wide_starts_outside_word].
  - intros (pre & m & post & -> & Hm & Hpre & Hpost).
    exists (wide pre), (wide m), (wide post). unfold wide at 1. rewrite !map_app.
    split; [reflexivity|]. split; [now apply wide_eq_ignore_case|].
    split; [now apply wide_ends_outside_word | now apply wide_starts_outside_word].
Qed.

Lemma wide_has_phrase (w1 w2 text : str) :
  Unicode.has_phrase Unicode.eq_ignore_case_long_s (wide w1) (wide w2) (wide text)
  <-> has_phrase w1 w2 text.
Proof.
  unfold Unicode.has_phrase, has_phrase. split.
  - intros (pre & m1 & ws & m2 & post & Heq & H1 & Hne & Hws & H2).
    apply wide_split in Heq as (pre' & r1 & -> & -> & Hr1). symmetry in Hr1.
    apply wide_split in Hr1 as (m1' & r2 & -> & -> & Hr2). symmetry in Hr2.
    apply wide_split in Hr2 as (ws' & r3 & -> & -> & Hr3). symmetry in Hr3.
    apply wide_split in Hr3 as (m2' & post' & -> & -> & ->).
    exists pre', m1', ws', m2', post'. split; [reflexivity|].
    split; [now apply wide_eq_ignore_case|].
    split; [intros ->; now apply Hne|].
    split; [now rewrite <- wide_forallb_isspace|]. now apply wide_eq_ignore_case.
  - intros (pre & m1 & ws & m2 & post & -> & H1 & Hne & Hws & H2).
    exists (wide pre), (wide m1), (wide ws), (wide m2), (wide post).
    unfold wide at 1. rewrite !map_app.
    split; [reflexivity|]. split; [now apply wide_eq_ignore_case|].
    split; [destruct ws; [congruence|discriminate]|].
    split; [now rewrite wide_forallb_isspace|]. now apply wide_eq_ignore_case.
Qed.

Lemma has_merge_intent_wide (text : str) :
  Unicode.has_merge_intent (wide text) = has_merge_intent text.
Proof.
  apply Bool.eq_true_iff_eq.
  rewrite UnicodeFacts.merge_intent_unicode_iff, has_merge_intent_iff.
  unfold Unicode.expresses_merge_intent, expresses_merge_intent.
  rewrite wide_has_standalone_word, !wide_has_phrase. reflexivity.
Qed.

(** ** The pull-request pattern *)

Lemma seq_matches_rep1 capture cls atoms prev s r :
  seq_matches (Rep1 capture cls :: atoms) prev s r <->
  exists w s' m gs rest,
    w <> [] /\ forallb cls w = true /\ s = (w ++ s')%list
    /\ seq_matches atoms (after prev w) s' (m, gs, rest)
    /\ r = ((w ++ m)%list, if capture then w :: gs else gs, rest).
Proof.
  simpl. split.
  - intros (x & w & s' & m & gs & rest & -> & Hx & Hw & Hm & ->).
    exists (x :: w), s', m, gs, rest. simpl. rewrite Hx, Hw.
    repeat split; auto; discriminate.
  - intros (w & s' & m & gs & rest & Hne & Hw & -> & Hm & ->).
    destruct w as [|x w]; [congruence|]. simpl in Hw.
    apply andb_true_iff in Hw as [Hx Hw].
    exists x, w, s', m, gs, rest. repeat split; auto.
Qed.

Lemma seq_matches_pr prev s r :
  seq_matches pr_alternative prev s r <->
  exists u o rp d rest,
    s = (u ++ rest)%list /\ is_pr_url u o rp d /\ r = (u, [o; rp; d], rest).
Proof.
  unfold pr_alternative, is_pr_url. split.
  - intros H.
    apply seq_matches_lits in H as (s1 & m1 & gs1 & rest1 & -> & H & ->).
    apply seq_matches_rep1 in H as (o & s2 & m2 & gs2 & rest2 & Ho & Ho' & -> & H & [= -> -> ->]).
    apply seq_matches_lits in H as (s3 & m3 & gs3 & rest3 & -> & H & [= -> -> ->]).
    apply seq_matches_rep1 in H as (rp & s4 & m4 & gs4 & rest4 & Hr & Hr' & -> & H & [= -> -> ->]).
    apply seq_matches_lits in H as (s5 & m5 & gs5 & rest5 & -> & H & [= -> -> ->]).
    apply seq_matches_rep1 in H as (d & s6 & m6 & gs6 & rest6 & Hd & Hd' & -> & H & [= -> -> ->]).
    simpl in H. injection H as -> -> ->.
    exists ("https://github.com/" ++ o ++ "/" ++ rp ++ "/pull/" ++ d)%list, o, rp, d, s6.
    rewrite !app_nil_r. repeat split; auto.
    now rewrite <- !app_assoc.
  - intros (u & o & rp & d & rest & -> & (-> & Ho & Ho' & Hr & Hr' & Hd & Hd') & ->).
    apply seq_matches_lits.
    exists (o ++ "/" ++ rp ++ "/pull/" ++ d ++ rest)%list,
           (o ++ "/" ++ rp ++ "/pull/" ++ d)%list, [o; rp; d], rest.
    split; [now rewrite <- !app_assoc|]. split; [|reflexivity].
    apply seq_matches_rep1.
    exists o, ("/" ++ rp ++ "/pull/" ++ d ++ rest)%list,
           ("/" ++ rp ++ "/pull/" ++ d)%list, [rp; d], rest.
    repeat split; auto.
    apply seq_matches_lits.
    exists (rp ++ "/pull/" ++ d ++ rest)%list, (rp ++ "/pull/" ++ d)%list, [rp; d], rest.
    repeat split; auto.
    apply seq_matches_rep1.
    exists rp, ("/pull/" ++ d ++ rest)%list, ("/pull/" ++ d)%list, [d], rest.
    repeat split; auto.
    apply seq_matches_lits.
    exists (d ++ rest)%list, d, [d], rest.
    repeat split; auto.
    apply seq_matches_rep1.
    exists d, rest, [], [], rest. rewrite app_nil_r. repeat split; auto.
Qed.

(** ** [int] on a string of digits *)

Lemma decimal_digit_range c :
  Py_UNICODE_ISDECIMAL c = true -> 0 <= Py_UNICODE_TODECIMAL c <= 9.
Proof.
  unfold Py_UNICODE_ISDECIMAL, Py_UNICODE_TODECIMAL, between. lia.
Qed.

Lemma scan_digits_all d : forall acc n need,
  forallb Py_UNICODE_ISDECIMAL d = true ->
  d <> [] \/ need = false ->
  scan_digits acc n need d
  = Some (fold_left (fun a c => 10 * a + Py_UNICODE_TODECIMAL c) d acc,
          (n + length d)%nat, []).
Proof.
  induction d as [|c d IH]; intros acc n need Hd Hne; simpl in *.
  - destruct Hne as [? | ->]; [congruence|]. now rewrite Nat.add_0_r.
  - apply andb_true_iff in Hd as [Hc Hd]. rewrite Hc.
    rewrite IH; auto. do 3 f_equal. lia.
Qed.

Lemma fold_decimal_nonneg d : forall acc,
  forallb Py_UNICODE_ISDECIMAL d = true -> 0 <= acc ->
  0 <= fold_left (fun a c => 10 * a + Py_UNICODE_TODECIMAL c) d acc.
Proof.
  induction d as [|c d IH]; intros acc Hd Hacc; simpl in *; [exact Hacc|].
  apply andb_true_iff in Hd as [Hc Hd]. apply IH; auto.
  pose proof (decimal_digit_range c Hc). lia.
Qed.

Lemma decimal_value_nonneg d :
  forallb Py_UNICODE_ISDECIMAL d = true -> 0 <= decimal_value d.
Proof. intros H. apply fold_decimal_nonneg; [exact H | lia]. Qed.

Lemma decimal_not_space c :
  Py_UNICODE_ISDECIMAL c = true -> int_space c = false.
Proof.
  unfold Py_UNICODE_ISDECIMAL, int_space, between. lia.
Qed.

Lemma py_int_digits d :
  d <> [] -> forallb Py_UNICODE_ISDECIMAL d = true ->
  py_int d = if (int_max_str_digits <? length d)%nat then Raises ValueError
             else Returns (decimal_value d).
Proof.
  intros Hne Hd. destruct d as [|c d]; [congruence|].
  pose proof (scan_digits_all (c :: d) 0 0%nat true Hd (or_introl Hne)) as Hs.
  unfold py_int, decimal_value.
  simpl in Hd. apply andb_true_iff in Hd as [Hc _].
  assert (Hskip : skip_space (c :: d) = c :: d).
  { simpl. now rewrite (decimal_not_space c Hc). }
  rewrite Hskip. clear Hskip.
  destruct c as [[] [] [] [] [] [] [] []]; try discriminate Hc;
    cbv beta iota; rewrite Hs; reflexivity.
Qed.

(** ** The last repetition of a pattern takes all it can *)

Lemma rep_more_greedy_end cls s : forall last w m gs rest,
  rep_more cls (fun _ s' => Some ([], [], s')) last s = Some (w, (m, gs, rest)) ->
  stops_before cls rest.
Proof.
  induction s as [|x s IH]; intros last w m gs rest; simpl.
  - intros [= _ _ _ <-]. exact I.
  - destruct (cls x) eqn:Hx.
    + destruct (rep_more cls _ x s) as [[w' [[m' gs'] rest']]|] eqn:Hm.
      * intros [= _ _ _ <-]. eapply IH, Hm.
      * exfalso. revert Hm.
        apply (rep_more_complete cls _ [] x s x); [reflexivity..|discriminate].
    + intros [= _ _ _ <-]. exact Hx.
Qed.

Lemma match_seq_greedy_last capture cls atoms : forall prev s m gs rest,
  match_seq (atoms ++ [Rep1 capture cls])%list prev s = Some (m, gs, rest) ->
  stops_before cls rest.
Proof.
  induction atoms as [|a atoms IH]; intros prev s m gs rest; simpl.
  - unfold rep1. destruct s as [|x s]; [discriminate|].
    destruct (cls x); [|discriminate].
    destruct (rep_more cls _ x s) as [[w [[m' gs'] rest']]|] eqn:Hm; [|discriminate].
    simpl. intros [= _ _ <-]. eapply rep_more_greedy_end, Hm.
  - destruct a as [c|lo| |capture' cls'].
    + destruct s as [|x s]; [discriminate|]. destruct (Ascii.eqb x c); [|discriminate].
      destruct (match_seq _ (Some x) s) as [[[m' gs'] rest']|] eqn:Hm; [|discriminate].
      simpl. intros [= _ _ <-]. eapply IH, Hm.
    + destruct s as [|x s]; [discriminate|].
      destruct (Ascii.eqb (unicode_tolower x) lo); [|discriminate].
      destruct (match_seq _ (Some x) s) as [[[m' gs'] rest']|] eqn:Hm; [|discriminate].
      simpl. intros [= _ _ <-]. eapply IH, Hm.
    + destruct (at_boundary prev s); [|discriminate]. apply IH.
    + unfold rep1. destruct s as [|x s]; [discriminate|].
      destruct (cls' x); [|discriminate].
      destruct (rep_more cls' _ x s) as [[w [[m' gs'] rest']]|] eqn:Hm; [|discriminate].
      simpl. intros [= _ _ <-].
      apply rep_more_sound in Hm as (s' & l' & _ & _ & _ & Hk). eapply IH, Hk.
Qed.

(** ** [extract_pr] *)

Lemma search_pr_none text :
  search _PR_URL_PATTERN text = None <-> ~ has_pr_url text.
Proof.
  split.
  - intros Hs (pre & u & post & o & r & d & -> & Hu).
    apply (proj2 (search_matches _PR_URL_PATTERN (pre ++ u ++ post)%list)); [|exact Hs].
    exists pre, (u ++ post)%list, pr_alternative, (u, [o; r; d], post).
    split; [reflexivity|]. split; [left; reflexivity|].
    apply seq_matches_pr. exists u, o, r, d, post. auto.
  - intros Hno. destruct (search _PR_URL_PATTERN text) eqn:Hs; [|reflexivity].
    exfalso. apply Hno.
    assert (H : search _PR_URL_PATTERN text <> None) by congruence.
    apply search_matches in H as (pre & s' & alt & r & -> & [<- | []] & Hm).
    apply seq_matches_pr in Hm as (u & o & rp & d & rest & -> & Hu & _).
    exists pre, u, rest, o, rp, d. auto.
Qed.

Lemma search_pr_some text pre r :
  search _PR_URL_PATTERN text = Some (pre, r) ->
  exists u o rp d post,
    r = (u, [o; rp; d], post) /\ text = (pre ++ u ++ post)%list
    /\ is_pr_url u o rp d
    /\ stops_before Py_UNICODE_ISDECIMAL post
    /\ forall pre' u' post' o' r' d',
         text = (pre' ++ u' ++ post')%list -> is_pr_url u' o' r' d' ->
         (length pre <= length pre')%nat.
Proof.
  unfold search. intros Hs. change _PR_URL_PATTERN with [pr_alternative] in Hs.
  apply search_from_found in Hs as (s' & -> & Hf & Hleft).
  cbn [first_alt] in Hf.
  destruct (match_seq pr_alternative (after None pre) s') as [r0|] eqn:Hm; [|discriminate].
  injection Hf as ->.
  pose proof (match_seq_sound _ _ _ _ Hm) as Hsem.
  apply seq_matches_pr in Hsem as (u & o & rp & d & post & -> & Hu & ->).
  exists u, o, rp, d, post.
  split; [reflexivity|]. split; [reflexivity|]. split; [exact Hu|]. split.
  - eapply (match_seq_greedy_last true Py_UNICODE_ISDECIMAL
              (lits "https://github.com/" ++ [Rep1 true name_char]
               ++ lits "/" ++ [Rep1 true name_char] ++ lits "/pull/")%list).
    exact Hm.
  - intros pre' u' post' o' r' d' Heq Hu'.
    destruct (Nat.le_gt_cases (length pre) (length pre')) as [|Hlt]; [assumption|].
    exfalso. apply app_eq_app in Heq as [l [[-> Hl] | [-> Hl]]].
    + assert (Hl' : l <> []) by (intros ->; rewrite app_nil_r in Hlt; lia).
      specialize (Hleft pre' l eq_refl Hl'). cbn [first_alt] in Hleft.
      destruct (match_seq pr_alternative (after None pre') (l ++ u ++ post)%list) eqn:Hm';
        [discriminate|].
      eapply (match_seq_complete pr_alternative); [|exact Hm'].
      apply seq_matches_pr. exists u', o', r', d', post'. rewrite <- Hl. auto.
    + rewrite length_app in Hlt. lia.
Qed.

Lemma extract_pr_found text pre u o rp d post :
  search _PR_URL_PATTERN text = Some (pre, (u, [o; rp; d], post)) ->
  d <> [] -> forallb Py_UNICODE_ISDECIMAL d = true ->
  extract_pr text =
  if (int_max_str_digits <? length d)%nat then Raises ValueError
  else Returns (Some {| owner := o; repo := rp;
                        pull_number := decimal_value d; url := u |}).
Proof.
  intros Hs Hne Hd. unfold extract_pr. rewrite Hs, (py_int_digits d Hne Hd).
  destruct (int_max_str_digits <? length d)%nat; reflexivity.
Qed.

(** Where a run of a class ends is determined by the text. *)
Lemma run_unique (cls : ascii -> bool) (a : str) : forall a' s s',
  (a ++ s)%list = (a' ++ s')%list ->
  forallb cls a = true -> forallb cls a' = true ->
  stops_before cls s -> stops_before cls s' ->
  a = a' /\ s = s'.
Proof.
  induction a as [|x a IH]; intros [|x' a'] s s' Heq Ha Ha' Hs Hs'; simpl in *.
  - auto.
  - subst s. simpl in Hs. apply andb_true_iff in Ha' as [Hx _]. congruence.
  - subst s'. simpl in Hs'. apply andb_true_iff in Ha as [Hx _]. congruence.
  - injection Heq as <- Heq.
    apply andb_true_iff in Ha as [_ Ha]. apply andb_true_iff in Ha' as [_ Ha'].
    destruct (IH a' s s' Heq Ha Ha' Hs Hs') as [-> ->]. auto.
Qed.

(** A text reads as a pull-request URL from its start in one way only. *)
Lemma is_pr_url_unique u o r d post u' o' r' d' post' :
  is_pr_url u o r d -> is_pr_url u' o' r' d' ->
  (u ++ post)%list = (u' ++ post')%list ->
  stops_before Py_UNICODE_ISDECIMAL post -> stops_before Py_UNICODE_ISDECIMAL post' ->
  u = u' /\ o = o' /\ r = r' /\ d = d' /\ post = post'.
Proof.
  intros (-> & Ho & Ho' & Hr & Hr' & Hd & Hd') (-> & Ho2 & Ho2' & Hr2 & Hr2' & Hd2 & Hd2')
         Heq Hp Hp'.
  rewrite <- !app_assoc in Heq. apply app_inv_head in Heq.
  apply (run_unique name_char) in Heq as [<- Heq]; [|assumption..|exact eq_refl|exact eq_refl].
  apply (app_inv_head "/") in Heq.
  apply (run_unique name_char) in Heq as [<- Heq]; [|assumption..|exact eq_refl|exact eq_refl].
  apply (app_inv_head "/pull/") in Heq.
  apply (run_unique Py_UNICODE_ISDECIMAL) in Heq as [<- <-]; auto.
Qed.

(** The first pull-request URL of a text is read in one way only. *)
Lemma first_pr_url_unique text pre u post o r d pre' u' post' o' r' d' :
  first_pr_url text pre u post o r d -> first_pr_url text pre' u' post' o' r' d' ->
  pre = pre' /\ u = u' /\ o = o' /\ r = r' /\ d = d' /\ post = post'.
Proof.
  intros (Ht & Hu & Hs & Hl) (Ht' & Hu' & Hs' & Hl').
  pose proof (Hl _ _ _ _ _ _ Ht' Hu') as H1.
  pose proof (Hl' _ _ _ _ _ _ Ht Hu) as H2.
  assert (Hlen : length pre = length pre') by lia.
  rewrite Ht in Ht'.
  apply app_eq_app in Ht' as [l [[-> Hx] | [-> Hx]]];
    rewrite length_app in Hlen; (destruct l; [|simpl in Hlen; lia]);
    rewrite app_nil_r; simpl in Hx.
  - symmetry in Hx.
    destruct (is_pr_url_unique _ _ _ _ _ _ _ _ _ _ Hu Hu' Hx Hs Hs') as (-> & -> & -> & -> & ->).
    auto 6.
  - destruct (is_pr_url_unique _ _ _ _ _ _ _ _ _ _ Hu Hu' Hx Hs Hs') as (-> & -> & -> & -> & ->).
    auto 6.
Qed.

(** What [extract_pr] does with the first pull-request URL of a text. *)
Lemma extract_pr_first text pre u post o r d :
  first_pr_url text pre u post o r d ->
  extract_pr text =
  if (int_max_str_digits <? length d)%nat then Raises ValueError
  else Returns (Some {| owner := o; repo := r; pull_number := decimal_value d; url := u |}).
Proof.
  intros Hfirst.
  destruct (search _PR_URL_PATTERN text) as [[pre0 m]|] eqn:Hs.
  - destruct (search_pr_some text pre0 m Hs)
      as (u0 & o0 & r0 & d0 & post0 & -> & Htext & Hu0 & Hstop & Hleft).
    assert (Hfirst0 : first_pr_url text pre0 u0 post0 o0 r0 d0)
      by (split; [exact Htext|]; split; [exact Hu0|]; split; [exact Hstop|exact Hleft]).
    destruct (first_pr_url_unique _ _ _ _ _ _ _ _ _ _ _ _ _ Hfirst Hfirst0)
      as (<- & <- & <- & <- & <- & <-).
    destruct Hu0 as (_ & _ & _ & _ & _ & Hd & Hd').
    apply (extract_pr_found text pre u o r d post Hs Hd Hd').
  - exfalso. apply search_pr_none in Hs. apply Hs.
    destruct Hfirst as (Ht & Hu & _). exists pre, u, post, o, r, d. auto.
Qed.

(** C5, as the code has it.  [extract_pr] returns none exactly when the
    text holds no pull-request URL.  A result it returns has its owner,
    repository, number and URL from the leftmost URL in the text, the
    digits taken as far as they go: owner and repository are made of the
    characters of the pattern's class, the URL is the matched part of the
    text, and the number is the value of the digits, which is zero or
    more (it is zero for [pull/0]).  What it does is decided by the first
    URL alone, whatever follows it: with at most 4300 digits the result is
    read from that URL, with more [int] raises [ValueError]; and it raises
    in that case only. *)
Theorem extract_pr_spec (text : str) :
  (extract_pr text = Returns None <-> ~ has_pr_url text)
  /\ (forall pr, extract_pr text = Returns (Some pr) ->
        ParsedPR_invariant false text pr
        /\ exists pre post d,
             text = (pre ++ url pr ++ post)%list
             /\ is_pr_url (url pr) (owner pr) (repo pr) d
             /\ pull_number pr = decimal_value d
             /\ stops_before Py_UNICODE_ISDECIMAL post
             /\ forall pre' u' post' o' r' d',
                  text = (pre' ++ u' ++ post')%list -> is_pr_url u' o' r' d' ->
                  (length pre <= length pre')%nat)
  /\ (forall pre u post o r d,
        first_pr_url text pre u post o r d ->
        extract_pr text =
        if (int_max_str_digits <? length d)%nat then Raises ValueError
        else Returns (Some {| owner := o; repo := r;
                              pull_number := decimal_value d; url := u |}))
  /\ (forall e, extract_pr text = Raises e ->
        e = ValueError
        /\ exists pre u post o r d,
             first_pr_url text pre u post o r d
             /\ (int_max_str_digits < length d)%nat).
Proof.
  split; [|split; [|split; [apply extract_pr_first|]]].
  - destruct (search _PR_URL_PATTERN text) as [[pre r]|] eqn:Hs.
    + destruct (search_pr_some text pre r Hs)
        as (u & o & rp & d & post & -> & Htext & Hu & Hstop & Hleft).
      pose proof Hu as (Hurl & Ho & Ho' & Hr & Hr' & Hd & Hd').
      rewrite (extract_pr_found text pre u o rp d post Hs Hd Hd').
      assert (Hhas : has_pr_url text) by (exists pre, u, post, o, rp, d; auto).
      destruct (int_max_str_digits <? length d)%nat; split; (discriminate || tauto).
    + unfold extract_pr. rewrite Hs.
      split; [intros _; now apply search_pr_none | reflexivity].
  - destruct (search _PR_URL_PATTERN text) as [[pre r]|] eqn:Hs.
    + destruct (search_pr_some text pre r Hs)
        as (u & o & rp & d & post & -> & Htext & Hu & Hstop & Hleft).
      pose proof Hu as (Hurl & Ho & Ho' & Hr & Hr' & Hd & Hd').
      rewrite (extract_pr_found text pre u o rp d post Hs Hd Hd').
      destruct (int_max_str_digits <? length d)%nat; [discriminate|].
      intros pr [= <-]. simpl. split.
      * unfold ParsedPR_invariant. simpl.
        pose proof (decimal_value_nonneg d Hd'). eauto 6.
      * exists pre, post, d. auto 7.
    + unfold extract_pr. rewrite Hs. discriminate.
  - destruct (search _PR_URL_PATTERN text) as [[pre r]|] eqn:Hs.
    + destruct (search_pr_some text pre r Hs)
        as (u & o & rp & d & post & -> & Htext & Hu & Hstop & Hleft).
      pose proof Hu as (Hurl & Ho & Ho' & Hr & Hr' & Hd & Hd').
      rewrite (extract_pr_found text pre u o rp d post Hs Hd Hd').
      destruct (int_max_str_digits <? length d)%nat eqn:Hlim; [|discriminate].
      intros e [= <-]. split; [reflexivity|].
      exists pre, u, post, o, rp, d. apply Nat.ltb_lt in Hlim.
      split; [|exact Hlim].
      split; [exact Htext|]. split; [exact Hu|]. split; [exact Hstop|exact Hleft].
    + unfold extract_pr. rewrite Hs. discriminate.
Qed.

(** A later URL does not matter, even one on which [int] would raise. *)
Example extract_pr_first_of_two :
  extract_pr ("merge https://github.com/a/b/pull/1 https://github.com/a/b/pull/"
              ++ repeat "0"%char 4301)%list
  = Returns (Some {| owner := "a"; repo := "b"; pull_number := 1;
                     url := "https://github.com/a/b/pull/1" |}).
Proof. vm_compute. reflexivity. Qed.

(** C5 as stated fails for the number: [pull/0] is accepted and gives 0. *)
Lemma extract_pr_pull_zero :
  exists pr,
    extract_pr "https://github.com/a/b/pull/0" = Returns (Some pr)
    /\ ~ ParsedPR_invariant true "https://github.com/a/b/pull/0" pr.
Proof.
  eexists. split; [vm_compute; reflexivity|].
  intros (_ & _ & Hpos & _). simpl in Hpos. lia.
Qed.

(** ** Bytes and UTF-8 *)

Lemma byte_of_Z_of_byte b : byte_of_Z (Z_of_byte b) = b.
Proof. destruct b; reflexivity. Qed.

Lemma Z_of_byte_range b : 0 <= Z_of_byte b < 256.
Proof.
  unfold Z_of_byte. pose proof (Byte.to_N_bounded b). lia.
Qed.

Lemma continuation_some b x :
  continuation b = Some x -> Z_of_byte b = x + 128 /\ 0 <= x < 64.
Proof.
  unfold continuation, between. pose proof (Z_of_byte_range b) as R.
  destruct (_ && _) eqn:E; [|discriminate]. intros [= <-]. lia.
Qed.

Ltac euclid := Z.to_euclidean_division_equations; lia.
Ltac bytes_eq :=
  f_equal; repeat (apply (f_equal2 cons); [euclid|]); reflexivity.

Lemma encode2 x0 x1 :
  194 <= x0 <= 223 -> 0 <= x1 < 64 ->
  utf8_encode_char ((x0 - 192) * 64 + x1) = Returns [x0; x1 + 128].
Proof.
  intros H0 H1. unfold utf8_encode_char.
  destruct (_ <? 0) eqn:E1; [lia|]. destruct (_ <? 128) eqn:E2; [lia|].
  destruct (_ <? 2048) eqn:E3; [|lia].
  bytes_eq.
Qed.

Lemma encode3 x0 x1 x2 :
  224 <= x0 <= 239 -> 0 <= x1 < 64 -> 0 <= x2 < 64 ->
  let c := (x0 - 224) * 4096 + x1 * 64 + x2 in
  (2048 <=? c) && negb (is_surrogate c) = true ->
  utf8_encode_char c = Returns [x0; x1 + 128; x2 + 128].
Proof.
  intros H0 H1 H2 c Hc. apply andb_true_iff in Hc as [Hlo Hs].
  apply negb_true_iff in Hs. unfold utf8_encode_char. rewrite Hs. subst c.
  destruct (_ <? 0) eqn:E1; [lia|]. destruct (_ <? 128) eqn:E2; [lia|].
  destruct (_ <? 2048) eqn:E3; [lia|]. destruct (_ <? 65536) eqn:E4; [|lia].
  bytes_eq.
Qed.

Lemma encode4 x0 x1 x2 x3 :
  240 <= x0 <= 244 -> 0 <= x1 < 64 -> 0 <= x2 < 64 -> 0 <= x3 < 64 ->
  let c := (x0 - 240) * 262144 + x1 * 4096 + x2 * 64 + x3 in
  between 65536 1114111 c = true ->
  utf8_encode_char c = Returns [x0; x1 + 128; x2 + 128; x3 + 128].
Proof.
  intros H0 H1 H2 H3 c Hc. unfold between in Hc. unfold utf8_encode_char. subst c.
  destruct (_ <? 0) eqn:E1; [lia|]. destruct (_ <? 128) eqn:E2; [lia|].
  destruct (_ <? 2048) eqn:E3; [lia|]. destruct (_ <? 65536) eqn:E4; [lia|].
  destruct (_ <=? 1114111) eqn:E5; [|lia].
  bytes_eq.
Qed.

(** Encoding gives back the bytes that were decoded. *)
Lemma utf8_encode_decode : forall n (b : bytes) (u : ustr),
  (length b <= n)%nat -> utf8_decode b = Returns u -> utf8_encode u = Returns b.
Proof.
  induction n as [|n IH]; intros b u Hlen.
  - destruct b; [|simpl in Hlen; lia]. intros [= <-]. reflexivity.
  - destruct b as [|b0 r0]; [intros [= <-]; reflexivity|].
    cbn [utf8_decode]. cbv zeta. pose proof (Z_of_byte_range b0) as R0.
    simpl in Hlen.
    destruct (Z_of_byte b0 <? 128) eqn:E1.
    { destruct (utf8_decode r0) as [t|] eqn:Ht; [|discriminate]. intros [= <-].
      cbn [rbind utf8_encode]. unfold utf8_encode_char.
      destruct (_ <? 0) eqn:E0; [lia|]. rewrite E1. cbn [rbind].
      rewrite (IH r0 t); [|lia|exact Ht]. cbn [rbind map app].
      now rewrite byte_of_Z_of_byte. }
    destruct (between 194 223 (Z_of_byte b0)) eqn:E2.
    { destruct r0 as [|b1 r1]; [discriminate|].
      destruct (continuation b1) as [x1|] eqn:C1; [|discriminate].
      destruct (utf8_decode r1) as [t|] eqn:Ht; [|discriminate]. intros [= <-].
      apply continuation_some in C1 as [B1 R1].
      cbn [rbind utf8_encode]. rewrite encode2 by (unfold between in *; lia). cbn [rbind].
      simpl in Hlen. rewrite (IH r1 t); [|lia|exact Ht]. cbn [rbind map app].
      now rewrite <- B1, !byte_of_Z_of_byte. }
    destruct (between 224 239 (Z_of_byte b0)) eqn:E3.
    { destruct r0 as [|b1 [|b2 r2]]; try discriminate.
      destruct (continuation b1) as [x1|] eqn:C1; [|discriminate].
      destruct (continuation b2) as [x2|] eqn:C2; [|discriminate].
      destruct (_ && negb _) eqn:Hc; [|discriminate].
      destruct (utf8_decode r2) as [t|] eqn:Ht; [|discriminate]. intros [= <-].
      apply continuation_some in C1 as [B1 R1].
      apply continuation_some in C2 as [B2 R2].
      cbn [rbind utf8_encode]. rewrite encode3 by (exact Hc || (unfold between in *; lia)). cbn [rbind].
      simpl in Hlen. rewrite (IH r2 t); [|lia|exact Ht]. cbn [rbind map app].
      now rewrite <- B1, <- B2, !byte_of_Z_of_byte. }
    destruct (between 240 244 (Z_of_byte b0)) eqn:E4; [|discriminate].
    destruct r0 as [|b1 [|b2 [|b3 r3]]]; try discriminate.
    destruct (continuation b1) as [x1|] eqn:C1; [|discriminate].
    destruct (continuation b2) as [x2|] eqn:C2; [|discriminate].
    destruct (continuation b3) as [x3|] eqn:C3; [|discriminate].
    destruct (between 65536 1114111 _) eqn:Hc; [|discriminate].
    destruct (utf8_decode r3) as [t|] eqn:Ht; [|discriminate]. intros [= <-].
    apply continuation_some in C1 as [B1 R1].
    apply continuation_some in C2 as [B2 R2].
    apply continuation_some in C3 as [B3 R3].
    cbn [rbind utf8_encode]. rewrite encode4 by (exact Hc || (unfold between in *; lia)). cbn [rbind].
    simpl in Hlen. rewrite (IH r3 t); [|lia|exact Ht]. cbn [rbind map app].
    now rewrite <- B1, <- B2, <- B3, !byte_of_Z_of_byte.
Qed.

Lemma utf8_encode_app (a b : ustr) :
  utf8_encode (a ++ b)%list =
  (let? x := utf8_encode a in let? y := utf8_encode b in Returns (x ++ y)%list).
Proof.
  induction a as [|c a IH]; simpl.
  - destruct (utf8_encode b); reflexivity.
  - destruct (utf8_encode_char c) as [bs|]; [|reflexivity]. cbn [rbind].
    rewrite IH. destruct (utf8_encode a) as [x|]; [|reflexivity]. cbn [rbind].
    destruct (utf8_encode b) as [y|]; [|reflexivity]. cbn [rbind].
    now rewrite app_assoc.
Qed.

(** ** Binary64 rounding *)

Lemma pow2_pos e : (0 < pow2 e)%Q.
Proof. apply Qpower_0_lt. reflexivity. Qed.

Lemma pow2_add a b : (pow2 (a + b) == pow2 a * pow2 b)%Q.
Proof. apply Qpower_plus. discriminate. Qed.

Lemma pow2_le a b : a <= b -> (pow2 a <= pow2 b)%Q.
Proof. intros H. apply Qpower_le_compat_l; [exact H|]. discriminate. Qed.

Lemma pow2_lt a b : a < b -> (pow2 a < pow2 b)%Q.
Proof. intros H. apply Qpower_lt_compat_l; [exact H|]. reflexivity. Qed.

Lemma pow2_lt_inv a b : (pow2 a < pow2 b)%Q -> a < b.
Proof. intros H. apply (Qpower_lt_compat_l_inv 2); [exact H|]. reflexivity. Qed.

Lemma pow2_inject e : 0 <= e -> (pow2 e == inject_Z (2 ^ e))%Q.
Proof. intros H. unfold pow2. rewrite Zpower_Qpower by exact H. reflexivity. Qed.

Lemma pow2_div a b : (pow2 a / pow2 b == pow2 (a - b))%Q.
Proof. symmetry. apply Qpower_minus. discriminate. Qed.

Lemma Qlog2_spec a : (0 < a)%Q -> (pow2 (Qlog2 a) <= a < pow2 (Qlog2 a + 1))%Q.
Proof.
  intros Ha. destruct a as [n d]. unfold Qlog2. cbn [Qnum Qden].
  assert (Hn : 0 < n) by (unfold Qlt in Ha; cbn in Ha; lia).
  set (ln := Z.log2 n). set (ld := Z.log2 (Z.pos d)).
  assert (Hln : 2 ^ ln <= n < 2 ^ (ln + 1)).
  { pose proof (Z.log2_spec n Hn). unfold ln. replace (Z.log2 n + 1) with (Z.succ (Z.log2 n)) by lia. lia. }
  assert (Hld : 2 ^ ld <= Z.pos d < 2 ^ (ld + 1)).
  { pose proof (Z.log2_spec (Z.pos d) ltac:(lia)). unfold ld.
    replace (Z.log2 (Z.pos d) + 1) with (Z.succ (Z.log2 (Z.pos d))) by lia. lia. }
  assert (H0n : 0 <= ln) by apply Z.log2_nonneg.
  assert (H0d : 0 <= ld) by apply Z.log2_nonneg.
  assert (Hq : (n # d == inject_Z n / inject_Z (Z.pos d))%Q) by apply Qmake_Qdiv.
  assert (Hdpos : (0 < inject_Z (Z.pos d))%Q) by (unfold Qlt; cbn; lia).
  assert (Hup : (n # d < pow2 (ln - ld + 1))%Q).
  { rewrite Hq. apply Qlt_shift_div_r; [exact Hdpos|].
    apply Qlt_le_trans with (pow2 (ln - ld + 1) * pow2 ld)%Q.
    - rewrite <- pow2_add. replace (ln - ld + 1 + ld) with (ln + 1) by lia.
      rewrite pow2_inject by lia. rewrite <- Zlt_Qlt. lia.
    - apply Qmult_le_l; [apply pow2_pos|]. rewrite pow2_inject by lia.
      rewrite <- Zle_Qle. lia. }
  assert (Hlow : (pow2 (ln - ld - 1) <= n # d)%Q).
  { rewrite Hq. apply Qle_shift_div_l; [exact Hdpos|].
    apply Qle_trans with (pow2 (ln - ld - 1) * pow2 (ld + 1))%Q.
    - apply Qmult_le_l; [apply pow2_pos|]. rewrite pow2_inject by lia.
      rewrite <- Zle_Qle. lia.
    - rewrite <- pow2_add. replace (ln - ld - 1 + (ld + 1)) with ln by lia.
      rewrite pow2_inject by lia. rewrite <- Zle_Qle. lia. }
  destruct (Qle_bool (pow2 (ln - ld)) (n # d)) eqn:E.
  - apply Qle_bool_iff in E. split; [exact E|exact Hup].
  - split; [exact Hlow|]. replace (ln - ld - 1 + 1) with (ln - ld) by lia.
    apply Qnot_le_lt. intros H. apply Qle_bool_iff in H. congruence.
Qed.

Lemma Qlog2_bounds a k : (0 < a)%Q -> (pow2 k <= a)%Q -> k <= Qlog2 a.
Proof.
  intros Ha Hk. destruct (Qlog2_spec a Ha) as [_ Hup].
  assert (H : (pow2 k < pow2 (Qlog2 a + 1))%Q) by (eapply Qle_lt_trans; eauto).
  apply pow2_lt_inv in H. lia.
Qed.

Lemma Qlog2_below a k : (0 < a)%Q -> (a < pow2 k)%Q -> Qlog2 a < k.
Proof.
  intros Ha Hk. destruct (Qlog2_spec a Ha) as [Hlow _].
  assert (H : (pow2 (Qlog2 a) < pow2 k)%Q) by (eapply Qle_lt_trans; eauto).
  now apply pow2_lt_inv in H.
Qed.

#[global] Instance round_half_even_comp : Proper (Qeq ==> eq) round_half_even.
Proof.
  intros x y H. unfold round_half_even. rewrite (Qfloor_comp x y H).
  assert (E : (x - inject_Z (Qfloor y) == y - inject_Z (Qfloor y))%Q) by (rewrite H; reflexivity).
  rewrite (Qcompare_comp _ _ E _ _ (Qeq_refl (1 # 2))). reflexivity.
Qed.

Lemma round_half_even_Z k : round_half_even (inject_Z k) = k.
Proof.
  unfold round_half_even. rewrite Qfloor_Z.
  assert (E : (inject_Z k - inject_Z k ?= 1 # 2)%Q = Lt).
  { apply (proj1 (Qlt_alt _ _)). lra. }
  rewrite E. reflexivity.
Qed.

Lemma round_half_even_ge x k : (inject_Z k <= x)%Q -> k <= round_half_even x.
Proof.
  intros H. assert (Hf : k <= Qfloor x).
  { rewrite <- (Qfloor_Z k). now apply Qfloor_resp_le. }
  unfold round_half_even. destruct (_ ?= _)%Q; [destruct (Z.even _)|..]; lia.
Qed.

Lemma round_half_even_le x k : (x <= inject_Z k)%Q -> round_half_even x <= k.
Proof.
  intros H. unfold round_half_even.
  pose proof (Qfloor_le x) as Hfl. pose proof (Qlt_floor x) as Hfu.
  destruct (Z.eq_dec (Qfloor x) k) as [->|Hne].
  - assert (E : (x - inject_Z k ?= 1 # 2)%Q = Lt) by (apply (proj1 (Qlt_alt _ _)); lra).
    rewrite E. reflexivity.
  - assert (Hf : Qfloor x < k).
    { assert (Qfloor x <= k); [|lia]. rewrite <- (Qfloor_Z k). now apply Qfloor_resp_le. }
    destruct (_ ?= _)%Q; [destruct (Z.even _)|..]; lia.
Qed.

Lemma last_bit_le_log2 a : -1074 <= Qlog2 a -> last_bit a <= Qlog2 a.
Proof. unfold last_bit. lia. Qed.

(** Rounding keeps a number that has at most 53 bits above 2^-1074. *)
Lemma round_positive_exact a j c :
  (0 < a)%Q -> (a == inject_Z j * pow2 c)%Q -> j < 2 ^ 53 -> -1074 <= c ->
  (round_positive a == a)%Q.
Proof.
  intros Ha Hj Hlt Hc. unfold round_positive.
  assert (Hjpos : 0 < j).
  { rewrite Hj in Ha. pose proof (pow2_pos c).
    destruct (Z_lt_le_dec 0 j) as [|Hle]; [assumption|].
    exfalso. assert ((inject_Z j <= 0)%Q) by (change 0%Q with (inject_Z 0); rewrite <- Zle_Qle; lia).
    assert ((inject_Z j * pow2 c <= 0)%Q); [|lra].
    rewrite <- (Qmult_0_l (pow2 c)). apply Qmult_le_compat_r; [assumption|lra]. }
  assert (He : last_bit a <= c).
  { assert (Hup : (a < pow2 (53 + c))%Q).
    { rewrite Hj, pow2_add. apply Qmult_lt_r; [apply pow2_pos|].
      rewrite pow2_inject by lia. rewrite <- Zlt_Qlt. exact Hlt. }
    pose proof (Qlog2_below a _ Ha Hup). unfold last_bit. lia. }
  set (e := last_bit a) in *.
  assert (Hy : (a / pow2 e == inject_Z (j * 2 ^ (c - e)))%Q).
  { rewrite Hj, inject_Z_mult, <- pow2_inject by lia.
    rewrite <- pow2_div. field. pose proof (pow2_pos e). lra. }
  rewrite Hy, round_half_even_Z, Hj, inject_Z_mult, <- pow2_inject by lia.
  rewrite <- Qmult_assoc, <- pow2_add. replace (c - e + e) with c by lia. reflexivity.
Qed.

(** Rounding does not cross a power of two. *)
Lemma round_positive_ge a k :
  (0 < a)%Q -> (pow2 k <= a)%Q -> -1074 <= k -> (pow2 k <= round_positive a)%Q.
Proof.
  intros Ha Hk Hmin. pose proof (Qlog2_bounds a k Ha Hk) as Hfl.
  destruct (Qlog2_spec a Ha) as [Hlow _].
  assert (He : last_bit a <= Qlog2 a) by (apply last_bit_le_log2; lia).
  unfold round_positive. set (e := last_bit a) in *. set (fl := Qlog2 a) in *.
  assert (Hy : (inject_Z (2 ^ (fl - e)) <= a / pow2 e)%Q).
  { rewrite <- pow2_inject by lia. rewrite <- pow2_div.
    apply Qmult_le_compat_r; [exact Hlow|]. apply Qinv_le_0_compat.
    pose proof (pow2_pos e). lra. }
  apply round_half_even_ge in Hy.
  apply Qle_trans with (pow2 fl); [now apply pow2_le|].
  replace fl with (fl - e + e) at 1 by lia. rewrite pow2_add.
  apply Qmult_le_compat_r; [|pose proof (pow2_pos e); lra].
  rewrite pow2_inject by lia. rewrite <- Zle_Qle. exact Hy.
Qed.

Lemma inject_Z_minus a b : (inject_Z (a - b) == inject_Z a - inject_Z b)%Q.
Proof. unfold Z.sub. rewrite inject_Z_plus, inject_Z_opp. reflexivity. Qed.

Lemma round_half_even_below x k :
  (x < inject_Z k + (1 # 2))%Q -> round_half_even x <= k.
Proof.
  intros H. unfold round_half_even.
  pose proof (Qfloor_le x) as Hfl. pose proof (Qlt_floor x) as Hfu.
  assert (Hf : Qfloor x <= k).
  { assert (Hlt : (inject_Z (Qfloor x) < inject_Z (k + 1))%Q).
    { rewrite inject_Z_plus. change (inject_Z 1) with 1%Q. lra. }
    rewrite <- Zlt_Qlt in Hlt. lia. }
  destruct (Z.eq_dec (Qfloor x) k) as [E|Hne].
  - rewrite E in *. assert (C : (x - inject_Z k ?= 1 # 2)%Q = Lt)
      by (apply (proj1 (Qlt_alt _ _)); lra).
    rewrite C. reflexivity.
  - destruct (_ ?= _)%Q; [destruct (Z.even _)|..]; lia.
Qed.

Lemma round_half_even_above x k :
  (inject_Z k - (1 # 2) <= x)%Q -> Z.even k = true -> k <= round_half_even x.
Proof.
  intros H Heven. unfold round_half_even.
  pose proof (Qfloor_le x) as Hfl. pose proof (Qlt_floor x) as Hfu.
  rewrite inject_Z_plus in Hfu. change (inject_Z 1) with 1%Q in Hfu.
  assert (Hf : k - 1 <= Qfloor x).
  { assert (Hlt : (inject_Z (k - 1) < inject_Z (Qfloor x + 1))%Q).
    { rewrite inject_Z_plus, inject_Z_minus. change (inject_Z 1) with 1%Q. lra. }
    rewrite <- Zlt_Qlt in Hlt. lia. }
  destruct (Z.eq_dec (Qfloor x) (k - 1)) as [E|Hne].
  - rewrite E in *. rewrite inject_Z_minus in *.
    change (inject_Z 1) with 1%Q in *.
    destruct (_ ?= _)%Q eqn:C.
    + replace (Z.even (k - 1)) with false; [lia|].
      replace (k - 1) with (Z.pred k) by lia. rewrite Z.even_pred.
      rewrite <- Z.negb_even, Heven. reflexivity.
    + apply (proj2 (Qlt_alt _ _)) in C. exfalso. lra.
    + lia.
  - destruct (_ ?= _)%Q; [destruct (Z.even (Qfloor x))|..]; lia.
Qed.

(** Below 2^1024 - 2^970 a number of at least 1 rounds below 2^1024, and
    from there on it does not. *)
Lemma round_positive_fits a :
  (1 <= a)%Q -> (a < inject_Z (2 ^ 1024 - 2 ^ 970))%Q -> (round_positive a < pow2 1024)%Q.
Proof.
  intros H1 Hlt. assert (Ha : (0 < a)%Q) by lra.
  assert (Hfl0 : 0 <= Qlog2 a) by (apply Qlog2_bounds; [exact Ha|exact H1]).
  assert (Hup : (a < pow2 1024)%Q).
  { eapply Qlt_le_trans; [exact Hlt|]. rewrite pow2_inject by lia.
    rewrite <- Zle_Qle. lia. }
  pose proof (Qlog2_below a 1024 Ha Hup) as Hfl.
  destruct (Qlog2_spec a Ha) as [_ Hspec].
  unfold round_positive, last_bit. set (fl := Qlog2 a) in *.
  pose proof (pow2_pos (Z.max (fl - 52) (-1074))) as Hp.
  destruct (Z.eq_dec fl 1023) as [E|Hne].
  - rewrite E. change (Z.max (1023 - 52) (-1074)) with 971.
    pose proof (pow2_pos 971) as Hp'.
    assert (Hy : round_half_even (a / pow2 971) <= 2 ^ 53 - 1).
    { apply round_half_even_below. apply Qlt_shift_div_r; [exact Hp'|].
      eapply Qlt_le_trans; [exact Hlt|]. rewrite pow2_inject by lia.
      apply Qle_bool_iff. vm_compute. reflexivity. }
    apply Qle_lt_trans with (inject_Z (2 ^ 53 - 1) * pow2 971)%Q.
    + apply Qmult_le_compat_r; [|lra]. rewrite <- Zle_Qle. exact Hy.
    + rewrite !pow2_inject by lia. rewrite <- inject_Z_mult, <- Zlt_Qlt.
      vm_compute. reflexivity.
  - set (e := Z.max (fl - 52) (-1074)) in *.
    assert (He : e <= fl) by (unfold e; lia).
    assert (Hy : round_half_even (a / pow2 e) <= 2 ^ (fl + 1 - e)).
    { apply round_half_even_le. rewrite <- pow2_inject by lia. rewrite <- pow2_div.
      apply Qmult_le_compat_r; [lra|]. apply Qinv_le_0_compat. lra. }
    apply Qle_lt_trans with (pow2 (fl + 1)).
    + assert (Heq : (pow2 (fl + 1) == pow2 (fl + 1 - e) * pow2 e)%Q).
      { rewrite <- pow2_add. replace (fl + 1 - e + e) with (fl + 1) by lia. reflexivity. }
      rewrite Heq. apply Qmult_le_compat_r; [|lra].
      rewrite (pow2_inject (fl + 1 - e)) by lia.
      rewrite <- Zle_Qle. exact Hy.
    + apply pow2_lt. lia.
Qed.

Lemma round_positive_overflows a :
  (inject_Z (2 ^ 1024 - 2 ^ 970) <= a)%Q -> (pow2 1024 <= round_positive a)%Q.
Proof.
  intros H.
  assert (Ha : (0 < a)%Q).
  { eapply Qlt_le_trans; [|exact H]. vm_compute. reflexivity. }
  destruct (Qlt_le_dec a (pow2 1024)) as [Hlt|Hge].
  - assert (Hlow : (pow2 1023 <= a)%Q).
    { eapply Qle_trans; [|exact H]. apply Qle_bool_iff. vm_compute. reflexivity. }
    assert (Hfl : Qlog2 a = 1023).
    { pose proof (Qlog2_bounds a 1023 Ha Hlow). pose proof (Qlog2_below a 1024 Ha Hlt). lia. }
    unfold round_positive, last_bit. rewrite Hfl.
    change (Z.max (1023 - 52) (-1074)) with 971.
    pose proof (pow2_pos 971) as Hp.
    assert (Hy : 2 ^ 53 <= round_half_even (a / pow2 971)).
    { apply round_half_even_above; [|reflexivity]. apply Qle_shift_div_l; [exact Hp|].
      eapply Qle_trans; [|exact H]. apply Qle_bool_iff. vm_compute. reflexivity. }
    apply Qle_trans with (inject_Z (2 ^ 53) * pow2 971)%Q.
    + apply Qle_bool_iff. vm_compute. reflexivity.
    + apply Qmult_le_compat_r; [|lra]. rewrite <- Zle_Qle. exact Hy.
  - apply round_positive_ge; [exact Ha|exact Hge|lia].
Qed.

Lemma round_positive_nonneg a : (0 < a)%Q -> (0 <= round_positive a)%Q.
Proof.
  intros Ha. unfold round_positive. pose proof (pow2_pos (last_bit a)) as Hp.
  apply Qmult_le_0_compat; [|lra].
  change 0%Q with (inject_Z 0). rewrite <- Zle_Qle. apply round_half_even_ge.
  change (inject_Z 0) with 0%Q. apply Qle_shift_div_l; [exact Hp|]. lra.
Qed.

Lemma round64_cases x :
  ((x == 0)%Q /\ round64 x = 0%Q)
  \/ ((0 < x)%Q /\ round64 x = round_positive x)
  \/ ((x < 0)%Q /\ round64 x = (- round_positive (- x))%Q).
Proof.
  unfold round64. destruct (x ?= 0)%Q eqn:C.
  - left. split; [now apply Qeq_alt|reflexivity].
  - right; right. split; [now apply Qlt_alt|reflexivity].
  - right; left. split; [now apply Qgt_alt in C|reflexivity].
Qed.

Lemma Qabs_nonneg_eq x : (0 <= x)%Q -> Qabs x = x.
Proof.
  destruct x as [[|p|p] d]; intros H; try reflexivity.
  unfold Qle in H. cbn in H. lia.
Qed.

Lemma Qabs_neg_eq x : (x <= 0)%Q -> Qabs x = (- x)%Q.
Proof.
  destruct x as [[|p|p] d]; intros H; try reflexivity.
  unfold Qle in H. cbn in H. lia.
Qed.

Lemma Qabs_round64 x :
  ((x == 0)%Q /\ Qabs (round64 x) == 0)%Q
  \/ (~ (x == 0)%Q /\ (0 < Qabs x)%Q /\ (Qabs (round64 x) == round_positive (Qabs x))%Q).
Proof.
  destruct (round64_cases x) as [[H ->]|[[H ->]|[H ->]]].
  - left. split; [exact H|reflexivity].
  - right. split; [lra|]. rewrite (Qabs_nonneg_eq x) by lra. split; [exact H|].
    rewrite Qabs_pos; [|now apply round_positive_nonneg]. reflexivity.
  - right. split; [lra|].
    assert (Hn : (0 < - x)%Q) by lra.
    rewrite (Qabs_neg_eq x) by lra. split; [exact Hn|].
    rewrite Qabs_opp. apply Qabs_pos. now apply round_positive_nonneg.
Qed.

Lemma Qle_bool_false a b : Qle_bool a b = false <-> (b < a)%Q.
Proof.
  split; intros H.
  - apply Qnot_le_lt. intros Hle. apply Qle_bool_iff in Hle. congruence.
  - destruct (Qle_bool a b) eqn:E; [|reflexivity].
    apply Qle_bool_iff in E. lra.
Qed.

Lemma Qle_bool_comp a b c : (a == b)%Q -> Qle_bool a c = Qle_bool b c.
Proof.
  intros H. destruct (Qle_bool b c) eqn:E.
  - apply Qle_bool_iff. apply Qle_bool_iff in E. lra.
  - apply Qle_bool_false. apply Qle_bool_false in E. lra.
Qed.

Lemma float_of_Q_finite x r : float_of_Q x = Fnum r -> r = round64 x.
Proof. unfold float_of_Q. destruct (Qle_bool _ _); congruence. Qed.

Lemma float_of_int_returns n t : float_of_int n = Returns t -> t = round64 (inject_Z n).
Proof.
  unfold float_of_int. destruct (float_of_Q (inject_Z n)) as [r|s] eqn:E; [|discriminate].
  intros [= <-]. now apply float_of_Q_finite.
Qed.

Lemma Qabs_inject n : Qabs (inject_Z n) = inject_Z (Z.abs n).
Proof. reflexivity. Qed.

(** The conversion raises exactly from 2^1024 - 2^970 on. *)
Lemma float_of_int_fits n :
  Z.abs n < 2 ^ 1024 - 2 ^ 970 -> float_of_int n = Returns (round64 (inject_Z n)).
Proof.
  intros H. unfold float_of_int, float_of_Q.
  replace (Qle_bool (pow2 1024) (Qabs (round64 (inject_Z n)))) with false; [reflexivity|].
  symmetry. apply Qle_bool_false.
  destruct (Qabs_round64 (inject_Z n)) as [[_ E]|(Hne & Hpos & E)]; rewrite E.
  - apply pow2_pos.
  - rewrite Qabs_inject in *. apply round_positive_fits.
    + change 1%Q with (inject_Z 1). rewrite <- Zle_Qle.
      change 0%Q with (inject_Z 0) in Hpos. rewrite <- Zlt_Qlt in Hpos. lia.
    + rewrite <- Zlt_Qlt. exact H.
Qed.

Lemma float_of_int_overflow n :
  2 ^ 1024 - 2 ^ 970 <= Z.abs n -> float_of_int n = Raises OverflowError.
Proof.
  intros H. unfold float_of_int, float_of_Q.
  replace (Qle_bool (pow2 1024) (Qabs (round64 (inject_Z n)))) with true; [reflexivity|].
  symmetry. apply Qle_bool_iff.
  destruct (Qabs_round64 (inject_Z n)) as [[E0 _]|(Hne & Hpos & E)].
  - exfalso. assert (n = 0); [|subst n; vm_compute in H; contradiction].
    unfold Qeq in E0. cbn in E0. lia.
  - rewrite E, Qabs_inject. apply round_positive_overflows.
    rewrite <- Zle_Qle. exact H.
Qed.

Lemma round64_exact x j c :
  (x == inject_Z j * pow2 c)%Q -> Z.abs j < 2 ^ 53 -> -1074 <= c -> (round64 x == x)%Q.
Proof.
  intros Hx Hj Hc. destruct (round64_cases x) as [[H ->]|[[H ->]|[H ->]]].
  - symmetry. exact H.
  - apply (round_positive_exact x j c); [exact H|exact Hx|lia|exact Hc].
  - assert (E : (round_positive (- x) == - x)%Q).
    { apply (round_positive_exact (- x) (- j) c); [lra| |lia|exact Hc].
      rewrite Hx, inject_Z_opp. ring. }
    rewrite E. ring.
Qed.

Lemma round64_ge x k :
  (pow2 k <= Qabs x)%Q -> -1074 <= k -> (pow2 k <= Qabs (round64 x))%Q.
Proof.
  intros Hx Hk. pose proof (pow2_pos k) as Hp.
  destruct (Qabs_round64 x) as [[E0 _]|(Hne & Hpos & E)].
  - exfalso. rewrite E0 in Hx. change (Qabs 0) with 0%Q in Hx. lra.
  - rewrite E. now apply round_positive_ge.
Qed.

(** A difference that has at most 53 bits is computed exactly. *)
Lemma float_of_Q_exact x j c :
  (x == inject_Z j * pow2 c)%Q -> Z.abs j < 2 ^ 53 -> -1074 <= c ->
  (Qabs x < pow2 1024)%Q ->
  exists r, float_of_Q x = Fnum r /\ (r == x)%Q.
Proof.
  intros Hx Hj Hc Hfit. pose proof (round64_exact x j c Hx Hj Hc) as E.
  exists (round64 x). split; [|exact E]. unfold float_of_Q.
  replace (Qle_bool (pow2 1024) (Qabs (round64 x))) with false; [reflexivity|].
  symmetry. apply Qle_bool_false. rewrite E. exact Hfit.
Qed.

(** A difference of at least 2^9 in magnitude is, rounded, more than 300. *)
Lemma float_of_Q_far x :
  (pow2 9 <= Qabs x)%Q -> float_gt (float_abs (float_of_Q x)) 300 = true.
Proof.
  intros Hx. pose proof (round64_ge x 9 Hx ltac:(lia)) as Hr. unfold float_of_Q.
  destruct (Qle_bool _ _); [reflexivity|]. cbn [float_abs float_gt].
  apply Bool.negb_true_iff, Qle_bool_false.
  eapply Qlt_le_trans; [|exact Hr]. vm_compute. reflexivity.
Qed.

Lemma clock_reading_dyadic now :
  clock_reading now ->
  exists m e, (now == inject_Z m * pow2 e)%Q /\ -43 <= e <= 0.
Proof.
  intros [[Hr _] [Hlow Hup]].
  assert (Hpos : (0 < now)%Q).
  { eapply Qlt_le_trans; [|exact Hlow]. apply pow2_pos. }
  destruct (round64_cases now) as [[H _]|[[_ E]|[H _]]]; [lra| |lra].
  rewrite E in Hr. unfold round_positive in Hr.
  exists (round_half_even (now / pow2 (last_bit now))), (last_bit now).
  split; [symmetry; exact Hr|].
  pose proof (Qlog2_bounds now 9 Hpos Hlow).
  assert (Hlt : (now < pow2 53)%Q).
  { eapply Qle_lt_trans; [exact Hup|]. apply pow2_lt. lia. }
  pose proof (Qlog2_below now 53 Hpos Hlt). unfold last_bit. lia.
Qed.

(** At a clock reading the window test of the code is the exact one. *)
Lemma window_exact now n t :
  clock_reading now -> float_of_int n = Returns t ->
  float_gt (float_abs (float_sub now t)) 300
  = negb (Qle_bool (Qabs (now - inject_Z n)) (inject_Z 300)).
Proof.
  intros Hclock Ht. apply float_of_int_returns in Ht. subst t.
  destruct (clock_reading_dyadic now Hclock) as (m & e & Hm & He).
  destruct Hclock as [_ [Hlow Hup]].
  assert (H9 : (pow2 9 == 512)%Q) by reflexivity.
  assert (H52 : (pow2 52 == 4503599627370496)%Q) by reflexivity.
  assert (H53 : (pow2 53 == 9007199254740992)%Q) by reflexivity.
  assert (Hfar : forall d, (pow2 9 <= Qabs d)%Q ->
            negb (Qle_bool (Qabs d) (inject_Z 300)) = true).
  { intros d Hd. apply Bool.negb_true_iff, Qle_bool_false.
    eapply Qlt_le_trans; [|exact Hd]. vm_compute. reflexivity. }
  unfold float_sub.
  destruct (Z_lt_le_dec (Z.abs n) (2 ^ 53)) as [Hsmall|Hbig].
  - assert (Et : (round64 (inject_Z n) == inject_Z n)%Q).
    { apply (round64_exact _ n 0); [|exact Hsmall|lia].
      change (pow2 0) with 1%Q. ring. }
    assert (Ed : (now - round64 (inject_Z n) == now - inject_Z n)%Q) by (rewrite Et; reflexivity).
    destruct (Qlt_le_dec (Qabs (now - inject_Z n)) (pow2 9)) as [Hnear|Hout].
    + set (j := m - n * 2 ^ (- e)).
      assert (Hj : (now - inject_Z n == inject_Z j * pow2 e)%Q).
      { unfold j. rewrite Hm, inject_Z_minus, inject_Z_mult, <- pow2_inject by lia.
        assert (Hr : ((inject_Z m - inject_Z n * pow2 (- e)) * pow2 e
                      == inject_Z m * pow2 e - inject_Z n * (pow2 (- e) * pow2 e))%Q) by ring.
        rewrite Hr, <- pow2_add. replace (- e + e) with 0 by lia.
        change (pow2 0) with 1%Q. ring. }
      assert (Hjb : Z.abs j < 2 ^ 53).
      { assert (Hq : (inject_Z (Z.abs j) < inject_Z (2 ^ (9 - e)))%Q).
        { rewrite <- pow2_inject by lia. rewrite <- Qabs_inject.
          assert (Hs : (Qabs (inject_Z j) * pow2 e < pow2 (9 - e) * pow2 e)%Q).
          { rewrite <- pow2_add. replace (9 - e + e) with 9 by lia.
            rewrite <- (Qabs_pos (pow2 e)) at 1 by (pose proof (pow2_pos e); lra).
            rewrite <- Qabs_Qmult, <- Hj. exact Hnear. }
          apply Qmult_lt_r in Hs; [exact Hs|apply pow2_pos]. }
        rewrite <- Zlt_Qlt in Hq.
        assert (2 ^ (9 - e) <= 2 ^ 52) by (apply Z.pow_le_mono_r; lia). lia. }
      destruct (float_of_Q_exact (now - round64 (inject_Z n)) j e) as (r & -> & Er).
      * rewrite Ed. exact Hj.
      * exact Hjb.
      * lia.
      * rewrite Ed. eapply Qlt_trans; [exact Hnear|]. apply pow2_lt. lia.
      * cbn [float_abs float_gt]. f_equal. apply Qle_bool_comp.
        rewrite Er, Ed. reflexivity.
    + rewrite float_of_Q_far by (rewrite Ed; exact Hout).
      symmetry. now apply Hfar.
  - assert (Ht : (pow2 53 <= Qabs (round64 (inject_Z n)))%Q).
    { apply round64_ge; [|lia]. rewrite Qabs_inject, pow2_inject by lia.
      rewrite <- Zle_Qle. exact Hbig. }
    assert (Hn : (pow2 53 <= Qabs (inject_Z n))%Q).
    { rewrite Qabs_inject, pow2_inject by lia. rewrite <- Zle_Qle. exact Hbig. }
    assert (Hdiff : forall t, (pow2 53 <= Qabs t)%Q -> (pow2 9 <= Qabs (now - t))%Q).
    { intros t. apply (Qabs_case t); intros Hsign Hmag.
      - rewrite Qabs_neg by lra. lra.
      - rewrite Qabs_pos by lra. lra. }
    rewrite float_of_Q_far by (now apply Hdiff).
    symmetry. apply Hfar. now apply Hdiff.
Qed.

(** ** The signature check *)

Lemma code_range c : 0 <= code c < 256.
Proof.
  unfold code. pose proof (N_ascii_bounded c). lia.
Qed.

Lemma code_inj c1 c2 : code c1 = code c2 -> c1 = c2.
Proof.
  unfold code. intros H. apply N2Z.inj in H.
  rewrite <- (ascii_N_embedding c1), <- (ascii_N_embedding c2). now f_equal.
Qed.

Lemma utf8_encode_wide s : utf8_encode (wide s) = Returns (utf8 s).
Proof.
  induction s as [|c s IH]; [reflexivity|].
  cbn [wide map utf8_encode utf8 flat_map]. fold (wide s). rewrite IH.
  pose proof (code_range c) as R. unfold utf8_encode_char, utf8_char.
  destruct (code c <? 0) eqn:E0; [lia|].
  destruct (code c <? 128) eqn:E1; [reflexivity|].
  destruct (code c <? 2048) eqn:E2; [reflexivity | lia].
Qed.

(** The base string of the code, encoded, is the concatenation the
    platform signs. *)
Lemma base_string_bytes body u timestamp :
  utf8_decode body = Returns u ->
  utf8_encode (wide "v0:" ++ wide timestamp ++ wide ":" ++ u)%list
  = Returns (utf8 "v0:" ++ utf8 timestamp ++ utf8 ":" ++ body)%list.
Proof.
  intros Hu. rewrite !utf8_encode_app, !utf8_encode_wide.
  rewrite (utf8_encode_decode (length body) body u (le_n _) Hu). reflexivity.
Qed.

Lemma fold_differences_zero l : forall acc,
  fold_left (fun acc lr => Z.lor acc (Z.lxor (code (fst lr)) (code (snd lr)))) l acc = 0
  <-> acc = 0 /\ Forall (fun lr : ascii * ascii => fst lr = snd lr) l.
Proof.
  induction l as [|[x y] l IH]; intros acc; simpl.
  - split; [auto | tauto].
  - rewrite IH, Z.lor_eq_0_iff, Z.lxor_eq_0_iff. split.
    + intros [[-> H] Hl]. apply code_inj in H. auto.
    + intros [-> Hl]. inversion Hl as [|? ? Hxy Hl']; subst. simpl in Hxy. subst. auto.
Qed.

Lemma combine_all_equal (a : str) : forall b,
  length a = length b ->
  Forall (fun lr : ascii * ascii => fst lr = snd lr) (combine a b) <-> a = b.
Proof.
  induction a as [|x a IH]; intros [|y b] Hlen; simpl in *; try discriminate.
  - split; auto.
  - injection Hlen as Hlen. split.
    + intros H. inversion H as [|? ? Hxy Hl]; subst. simpl in Hxy. subst.
      f_equal. now apply IH.
    + intros [= -> ->]. constructor; [reflexivity|]. now apply IH.
Qed.

(** The folded comparison is equality. *)
Lemma tscmp_eq a b : tscmp a b = true <-> a = b.
Proof.
  unfold tscmp. destruct (length a =? length b)%nat eqn:Hlen.
  - apply Nat.eqb_eq in Hlen. rewrite Z.eqb_eq, fold_differences_zero.
    rewrite combine_all_equal by exact Hlen. tauto.
  - apply Nat.eqb_neq in Hlen. rewrite Z.eqb_eq, fold_differences_zero. split.
    + intros [[=] _].
    + intros ->. congruence.
Qed.

Lemma hexdigest_ascii d : forallb is_ascii_char (hexdigest d) = true.
Proof.
  induction d as [|b d IH]; [reflexivity|].
  unfold hexdigest in *. cbn [flat_map]. rewrite forallb_app, IH, andb_true_r.
  destruct b; reflexivity.
Qed.

Lemma expected_signature_ascii body timestamp secret :
  forallb is_ascii_char (expected_signature body timestamp secret) = true.
Proof.
  unfold expected_signature. rewrite forallb_app, hexdigest_ascii. reflexivity.
Qed.

Lemma compare_digest_expected body timestamp secret signature :
  compare_digest (expected_signature body timestamp secret) signature = Returns true
  <-> signature = expected_signature body timestamp secret.
Proof.
  unfold compare_digest. rewrite expected_signature_ascii. cbn [andb]. split.
  - destruct (forallb is_ascii_char signature); [|discriminate].
    intros [= H]. apply tscmp_eq in H. congruence.
  - intros ->. rewrite expected_signature_ascii. f_equal. now apply tscmp_eq.
Qed.

Lemma py_int_raises s e : py_int s = Raises e -> e = ValueError.
Proof.
  unfold py_int.
  destruct (match skip_space s with
            | "+"%char :: r => (false, r)
            | "-"%char :: r => (true, r)
            | _ => (false, skip_space s)
            end) as [negative s2].
  destruct (scan_digits 0 0 true s2) as [[[v nd] rest]|]; [|congruence].
  destruct (skip_space rest); [|congruence].
  destruct (int_max_str_digits <? nd)%nat; congruence.
Qed.

(** The digest of "abc" (FIPS 180-4, B.1), and the repository's test of a
    valid signature, at a fixed clock. *)
Example sha256_abc :
  hexdigest (sha256 (list_byte_of_string "abc"))
  = "ba7816bf8f01cfea414140de5dae2223b00361a396177a9cb410ff61f20015ad".
Proof. vm_compute. reflexivity. Qed.

Example test_valid_signature :
  verify_slack_signature (inject_Z 1700000000)
    (list_byte_of_string "payload=test") "1700000000"
    "v0=4eefd218a887d498ad0ece1c7177e7e25fb5a75dbf1dc90725625a3b1fae3194"
    "test_signing_secret"
  = Returns true.
Proof. vm_compute. reflexivity. Qed.

Example test_replayed_request :
  verify_slack_signature (inject_Z 1700000400)
    (list_byte_of_string "payload=test") "1700000000"
    "v0=4eefd218a887d498ad0ece1c7177e7e25fb5a75dbf1dc90725625a3b1fae3194"
    "test_signing_secret"
  = Returns false.
Proof. vm_compute. reflexivity. Qed.

(** What the code does once the timestamp is read and fits a float, at a
    clock reading. *)
Lemma verify_after_timestamp now body u timestamp signature secret n :
  clock_reading now ->
  py_int timestamp = Returns n ->
  Z.abs n < 2 ^ 1024 - 2 ^ 970 ->
  utf8_decode body = Returns u ->
  verify_slack_signature now body timestamp signature secret =
  if Qle_bool (Qabs (now - inject_Z n)) (inject_Z 300)
  then compare_digest (expected_signature body timestamp secret) signature
  else Returns false.
Proof.
  intros Hclock Hn Hfit Hu. unfold verify_slack_signature. rewrite Hn.
  pose proof (float_of_int_fits n Hfit) as Ht. rewrite Ht. cbn [rbind].
  rewrite (window_exact now n _ Hclock Ht).
  destruct (Qle_bool _ _); cbn [negb]; [|reflexivity].
  rewrite Hu. cbn [rbind]. rewrite utf8_encode_wide. cbn [rbind].
  rewrite (base_string_bytes body u timestamp Hu). reflexivity.
Qed.

(** X1. Off the inputs on which it raises, the check is the one the
    specification gives: at a clock reading, for a body that is UTF-8 and
    a timestamp that, if an integer, fits a float, it returns true exactly
    for a request that is valid, and false for a timestamp that is no
    integer or lies outside the window. *)
Theorem verify_slack_signature_in_range now body u timestamp signature secret :
  clock_reading now ->
  utf8_decode body = Returns u ->
  (forall n, py_int timestamp = Returns n -> Z.abs n < 2 ^ 1024 - 2 ^ 970) ->
  (verify_slack_signature now body timestamp signature secret = Returns true
   <-> signature_valid now body timestamp signature secret)
  /\ (forall e, py_int timestamp = Raises e ->
      verify_slack_signature now body timestamp signature secret = Returns false)
  /\ (forall n, py_int timestamp = Returns n ->
      ~ (Qabs (now - inject_Z n) <= inject_Z 300)%Q ->
      verify_slack_signature now body timestamp signature secret = Returns false).
Proof.
  intros Hclock Hu Hfit. unfold signature_valid.
  destruct (py_int timestamp) as [n|e] eqn:Hn.
  - rewrite (verify_after_timestamp now body u timestamp signature secret n Hclock Hn
               (Hfit n eq_refl) Hu).
    destruct (Qle_bool _ _) eqn:Hw.
    + apply Qle_bool_iff in Hw. split; [|split].
      * rewrite compare_digest_expected. split; [eauto|].
        intros (n' & [= <-] & _ & H). exact H.
      * discriminate.
      * intros n' [= <-] Hout. contradiction.
    + split; [|split].
      * split; [discriminate|]. intros (n' & [= <-] & Hin & _).
        apply Qle_bool_iff in Hin. congruence.
      * discriminate.
      * reflexivity.
  - pose proof (py_int_raises _ _ Hn) as ->.
    unfold verify_slack_signature. rewrite Hn. cbn [is_ValueError].
    split; [|split].
    + split; [discriminate|]. intros (n' & [=] & _).
    + reflexivity.
    + discriminate.
Qed.

(** C2 at a failing input: on the timestamp 10^400, which lies more than
    300 seconds after any clock reading a float can hold, the check raises
    [OverflowError] instead of returning false. *)
Theorem verify_slack_signature_overflow now body signature secret :
  py_int huge_timestamp = Returns (10 ^ 400)
  /\ verify_slack_signature now body huge_timestamp signature secret
     = Raises OverflowError.
Proof.
  assert (H : py_int huge_timestamp = Returns (10 ^ 400)) by (vm_compute; reflexivity).
  split; [exact H|]. unfold verify_slack_signature. rewrite H.
  assert (Hf : float_of_int (10 ^ 400) = Raises OverflowError) by (vm_compute; reflexivity).
  rewrite Hf. reflexivity.
Qed.

(** It also raises, inside the window, on a body that is not UTF-8, even
    under the signature the platform computes for it. *)
Lemma verify_slack_signature_not_utf8 :
  verify_slack_signature (inject_Z 1700000000) [xff] "1700000000"
    (expected_signature [xff] "1700000000" "secret") "secret"
  = Raises UnicodeDecodeError.
Proof. vm_compute. reflexivity. Qed.

(** Binary64 rounding is part of the check: at a clock of 2^53 seconds the
    timestamp 2^53 + 301 is converted to 2^53 + 300, and a request 301
    seconds off is accepted. *)
Example verify_slack_signature_rounds :
  verify_slack_signature (inject_Z (2 ^ 53)) (list_byte_of_string "payload=test")
    "9007199254741293"
    (expected_signature (list_byte_of_string "payload=test") "9007199254741293" "secret")
    "secret"
  = Returns true.
Proof. vm_compute. reflexivity. Qed.

(** ** The merge attempt *)

Lemma get_pr_state_run owner repo n token (net : Network) response log :
  net (get_request owner repo n token) = Returns response ->
  (status_code response = 200 -> exists d, json response = Returns (PDict d)) ->
  exists res,
    _get_pr_state owner repo n (request_headers token) net log
    = (Returns res, (log ++ [get_request owner repo n token])%list)
    /\ match step1_rule truthy response with
       | Decided s => exists msg, res = Some {| status := s; message := msg |}
       | Proceed => res = None
       end.
Proof.
  intros Hnet Hbody.
  unfold _get_pr_state, http_bind, client_get, send.
  change {| req_method := GET; req_url := pr_url_of owner repo n;
            req_headers := request_headers token; req_json := None |}
    with (get_request owner repo n token).
  rewrite Hnet. unfold step1_rule, body_field.
  destruct (status_code response =? 404) eqn:H404; [eexists; split; [reflexivity | eauto]|].
  destruct (status_code response =? 200) eqn:H200; cbn [negb];
    [|eexists; split; [reflexivity | eauto]].
  apply Z.eqb_eq in H200. destruct (Hbody H200) as [d Hd]. rewrite Hd.
  unfold http_lift, py_get.
  destruct (assoc "merged" d) as [merged|];
    [destruct (truthy merged) eqn:Hm; [eexists; split; [reflexivity | eauto]|]
    | change (truthy PNone) with false; cbv iota ];
  ( destruct (assoc "state" d) as [state|];
    [destruct (eq_str state "closed") eqn:Hs; [eexists; split; [reflexivity | eauto]|]
    | change (eq_str PNone "closed") with false; cbv iota ];
    ( destruct (assoc "mergeable" d) as [mergeable|];
      [destruct (is_False mergeable) eqn:Hg; eexists; (split; [reflexivity | eauto])
      | eexists; split; [reflexivity | reflexivity] ] ) ).
Qed.




(** C1 at a failing input: when the fetch fails in transport, the attempt
    raises what [httpx] raised; no result is returned. *)
Theorem merge_pull_request_transport_error owner repo pull_number github_token
  (f : transport_failure) :
  run (merge_pull_request owner repo pull_number github_token)
      (fun _ => Raises (TransportError f))
  = (Raises (TransportError f), [get_request owner repo pull_number github_token]).
Proof. reflexivity. Qed.

(** The same when the merge call fails in transport, or the body of a 200
    to the fetch is not JSON, or not a JSON object. *)
Lemma merge_pull_request_put_error owner repo pull_number github_token
  (f : transport_failure) :
  fst (run (merge_pull_request owner repo pull_number github_token)
         (fun r => match req_method r with
                   | GET => Returns fetched_open_pr
                   | PUT => Raises (TransportError f)
                   end))
  = Raises (TransportError f).
Proof. reflexivity. Qed.

Lemma merge_pull_request_fetch_not_json owner repo pull_number github_token :
  fst (run (merge_pull_request owner repo pull_number github_token)
         (fun _ => Returns {| status_code := 200; json := Raises JSONDecodeError |}))
  = Raises JSONDecodeError.
Proof. reflexivity. Qed.

Lemma merge_pull_request_fetch_not_object owner repo pull_number github_token :
  fst (run (merge_pull_request owner repo pull_number github_token)
         (fun _ => Returns {| status_code := 200; json := Returns (PList []) |}))
  = Raises AttributeError.
Proof. reflexivity. Qed.

(** ** Classifying the response to the merge call *)



(** ** Substrings *)

Lemma starts_with_spec needle : forall s,
  starts_with needle s = true <-> exists post, s = (needle ++ post)%list.
Proof.
  induction needle as [|c needle IH]; intros s; simpl.
  - split; eauto.
  - destruct s as [|x s].
    + split; [discriminate | intros [post [=]]].
    + rewrite andb_true_iff, Ascii.eqb_eq, IH. split.
      * intros [-> [post ->]]. eauto.
      * intros [post [= -> ->]]. eauto.
Qed.

Lemma contains_spec needle : forall s,
  contains needle s = true <-> exists pre post, s = (pre ++ needle ++ post)%list.
Proof.
  induction s as [|x s IH].
  - simpl. rewrite orb_false_r, starts_with_spec. split.
    + intros [post ->]. exists [], post. reflexivity.
    + intros (pre & post & H). destruct pre; [eauto|discriminate].
  - cbn [contains]. rewrite orb_true_iff, starts_with_spec, IH. split.
    + intros [[post ->] | (pre & post & ->)].
      * exists [], post. reflexivity.
      * exists (x :: pre), post. reflexivity.
    + intros (pre & post & H). destruct pre as [|y pre]; simpl in H.
      * left. eauto.
      * injection H as <- ->. right. eauto.
Qed.

Lemma lower_app a b : lower (a ++ b)%list = (lower a ++ lower b)%list.
Proof. apply map_app. Qed.

(** Looking for a lower-case needle in the lower-cased text is looking for
    it in the text without regard to case. *)
Lemma contains_lower needle text :
  lower needle = needle ->
  contains needle (lower text) = true <-> contains_ignoring_case needle text.
Proof.
  intros Hn. rewrite contains_spec. unfold contains_ignoring_case, eq_ignore_case.
  rewrite Hn. split.
  - intros (pre & post & H). unfold lower in H.
    apply map_eq_app in H as (t1 & t23 & -> & <- & H).
    apply map_eq_app in H as (t2 & t3 & -> & <- & <-).
    exists t1, t2, t3. auto.
  - intros (pre & m & post & -> & <-).
    exists (lower pre), (lower post). now rewrite !lower_app.
Qed.

Lemma conflict_in_message (m : pyval) :
  contains "not mergeable" (lower (py_str m)) || contains "conflict" (lower (py_str m)) = true
  <-> contains_ignoring_case "not mergeable" (py_str m)
      \/ contains_ignoring_case "conflict" (py_str m).
Proof.
  rewrite orb_true_iff, !contains_lower by reflexivity. reflexivity.
Qed.

(** The table of Step 2 on a body that is an object or does not parse. *)
Lemma parse_merge_response_classified (response : Response) (pull_number : Z) :
  (status_code response <> 200 -> body_is_object_if_parsed response) ->
  exists r,
    _parse_merge_response response pull_number = Returns r
    /\ step2_classified truthy response pull_number r.
Proof.
  intros Hbody. unfold _parse_merge_response, step2_classified.
  destruct (status_code response =? 200) eqn:H200.
  { apply Z.eqb_eq in H200. eexists. split; [reflexivity|].
    cbn [status]. repeat split; intros; congruence. }
  apply Z.eqb_neq in H200. specialize (Hbody H200).
  assert (Hd : exists d,
    (match json response with Returns v => v | Raises _ => PDict [] end) = PDict d
    /\ message_field response = assoc "message" d).
  { unfold message_field. destruct (json response) as [v|e] eqn:Hj.
    - destruct (Hbody v Hj) as [d ->]. exists d. auto.
    - exists []. auto. }
  destruct Hd as (d & Hd & Hmsg). rewrite Hd. unfold py_get. cbn [rbind].
  assert (Hconf : forall m0,
            m0 = match assoc "message" d with Some x => x | None => PStr "" end ->
            contains "not mergeable" (lower (py_str m0))
              || contains "conflict" (lower (py_str m0)) = true
            <-> mentions_conflict response).
  { intros m0 ->. rewrite conflict_in_message. unfold mentions_conflict. rewrite Hmsg.
    destruct (assoc "message" d) as [v|].
    - split; [eauto|]. intros (v' & [= <-] & H). exact H.
    - split.
      + intros H. apply conflict_in_message in H. discriminate H.
      + intros (v' & [=] & _). }
  specialize (Hconf _ eq_refl).
  destruct (status_code response =? 405) eqn:H405.
  { apply Z.eqb_eq in H405.
    destruct (contains "not mergeable" _ || contains "conflict" _) eqn:Hc;
      (eexists; split; [reflexivity|]); cbn [status];
      repeat split; intros; try congruence.
    - exfalso. tauto.
    - exfalso. assert (false = true) by tauto. discriminate. }
  apply Z.eqb_neq in H405.
  destruct (status_code response =? 409) eqn:H409.
  { apply Z.eqb_eq in H409. eexists. split; [reflexivity|].
    cbn [status]. repeat split; intros; congruence. }
  apply Z.eqb_neq in H409.
  destruct (status_code response =? 404) eqn:H404.
  { apply Z.eqb_eq in H404. eexists. split; [reflexivity|].
    cbn [status]. repeat split; intros; congruence. }
  apply Z.eqb_neq in H404.
  eexists. split; [reflexivity|]. cbn [status message].
  repeat split; intros; try congruence.
  unfold step2_reason. rewrite Hmsg.
  destruct (assoc "message" d) as [v|]; [destruct (truthy v)|]; reflexivity.
Qed.




(** A body that is JSON but not an object makes the classification raise. *)
Lemma parse_merge_response_not_object (pull_number : Z) :
  _parse_merge_response {| status_code := 500; json := Returns (PList []) |} pull_number
  = Raises AttributeError.
Proof. reflexivity. Qed.

(** ** When the attempt returns

    With both calls answered, every 200 to the fetch carrying a JSON
    object and every body of the merge call that parses being an object,
    the attempt returns a result. *)
Lemma merge_pull_request_returns owner repo pull_number github_token
  (net : Network) (fetched merged : Response) :
  net (get_request owner repo pull_number github_token) = Returns fetched ->
  (status_code fetched = 200 -> exists d, json fetched = Returns (PDict d)) ->
  net (put_request owner repo pull_number github_token) = Returns merged ->
  (status_code merged <> 200 -> body_is_object_if_parsed merged) ->
  exists r,
    fst (run (merge_pull_request owner repo pull_number github_token) net) = Returns r.
Proof.
  intros Hget Hbody Hput Hbody'.
  destruct (get_pr_state_run owner repo pull_number github_token net fetched [] Hget Hbody)
    as (res & Hrun & _).
  unfold run, merge_pull_request, http_bind. rewrite Hrun.
  destruct res as [r|]; [exists r; reflexivity|].
  unfold client_put, send, http_lift.
  change {| req_method := PUT;
            req_url := (pr_url_of owner repo pull_number ++ "/merge")%list;
            req_headers := request_headers github_token;
            req_json := Some (PDict [("merge_method" : str, PStr "squash")]) |}
    with (put_request owner repo pull_number github_token).
  rewrite Hput. cbn [fst].
  destruct (parse_merge_response_classified merged pull_number Hbody') as (r & Hr & _).
  exists r. exact Hr.
Qed.

(** * Further properties *)

(** ** The merge attempt: what is sent, and when it reports success *)

Lemma get_pr_state_sends owner repo n token (net : Network) log :
  snd (_get_pr_state owner repo n (request_headers token) net log)
  = (log ++ [get_request owner repo n token])%list.
Proof.
  unfold _get_pr_state, http_bind, client_get, send.
  change {| req_method := GET; req_url := pr_url_of owner repo n;
            req_headers := request_headers token; req_json := None |}
    with (get_request owner repo n token).
  destruct (net (get_request owner repo n token)) as [response|e]; [|reflexivity].
  destruct (status_code response =? 404); [reflexivity|].
  destruct (negb (status_code response =? 200)); [reflexivity|].
  unfold http_lift.
  destruct (json response) as [data|e]; [|reflexivity].
  destruct (py_get data "merged" PNone) as [merged|e]; [|reflexivity].
  destruct (truthy merged); [reflexivity|].
  destruct (py_get data "state" PNone) as [state|e]; [|reflexivity].
  destruct (eq_str state "closed"); [reflexivity|].
  destruct (py_get data "mergeable" PNone) as [mergeable|e]; [|reflexivity].
  destruct (is_False mergeable); reflexivity.
Qed.

Lemma wide_app a b : wide (a ++ b)%list = (wide a ++ wide b)%list.
Proof. apply map_app. Qed.

Lemma names_wide n pre post :
  names_pull_request n (wide (pre ++ "PR #" ++ str_of_int n ++ post)%list).
Proof.
  exists (wide pre), (wide post). rewrite !wide_app. now rewrite <- !app_assoc.
Qed.

Lemma names_dash n post :
  names_pull_request n
    (wide "Cannot merge PR #" ++ wide (str_of_int n) ++ wide " " ++ [em_dash] ++ post)%list.
Proof.
  exists (wide "Cannot merge "), (wide " " ++ [em_dash] ++ post)%list.
  rewrite wide_app. reflexivity.
Qed.

(** An outcome of Step 1 is never SUCCESS, and its message names the pull
    request. *)
Lemma get_pr_state_outcome owner repo n headers (net : Network) log res :
  fst (_get_pr_state owner repo n headers net log) = Returns (Some res) ->
  status res <> SUCCESS /\ names_pull_request n (message res).
Proof.
  unfold _get_pr_state, http_bind, client_get, send.
  destruct (net _) as [response|e]; [|discriminate].
  destruct (status_code response =? 404).
  { intros [= <-]. split; [discriminate|]. apply (names_wide n []). }
  destruct (negb (status_code response =? 200)).
  { intros [= <-]. split; [discriminate|]. apply (names_wide n "Failed to fetch "). }
  unfold http_lift.
  destruct (json response) as [data|e]; [|discriminate].
  destruct (py_get data "merged" PNone) as [merged|e]; [|discriminate].
  destruct (truthy merged).
  { intros [= <-]. split; [discriminate|]. apply (names_wide n []). }
  destruct (py_get data "state" PNone) as [state|e]; [|discriminate].
  destruct (eq_str state "closed").
  { intros [= <-]. split; [discriminate|]. apply (names_wide n []). }
  destruct (py_get data "mergeable" PNone) as [mergeable|e]; [|discriminate].
  destruct (is_False mergeable); [|discriminate].
  intros [= <-]. split; [discriminate|]. apply names_dash.
Qed.

(** What the attempt does, by the result of Step 1. *)
Lemma merge_pull_request_run owner repo n token (net : Network) :
  run (merge_pull_request owner repo n token) net =
  match fst (_get_pr_state owner repo n (request_headers token) net []) with
  | Raises e => (Raises e, [get_request owner repo n token])
  | Returns (Some res) => (Returns res, [get_request owner repo n token])
  | Returns None =>
      (let? response := net (put_request owner repo n token) in
       _parse_merge_response response n,
       [get_request owner repo n token; put_request owner repo n token])
  end.
Proof.
  pose proof (get_pr_state_sends owner repo n token net []) as Hsent.
  unfold run, merge_pull_request, http_bind.
  destruct (_get_pr_state owner repo n (request_headers token) net []) as [r1 sent].
  cbn [fst snd] in *. subst sent.
  destruct r1 as [[res|]|e]; try reflexivity.
  unfold client_put, send, http_lift.
  change {| req_method := PUT;
            req_url := (pr_url_of owner repo n ++ "/merge")%list;
            req_headers := request_headers token;
            req_json := Some (PDict [("merge_method" : str, PStr "squash")]) |}
    with (put_request owner repo n token).
  destruct (net (put_request owner repo n token)); reflexivity.
Qed.

Lemma merge_pull_request_sent owner repo n token (net : Network) :
  snd (run (merge_pull_request owner repo n token) net)
  = [get_request owner repo n token]
  \/ snd (run (merge_pull_request owner repo n token) net)
     = [get_request owner repo n token; put_request owner repo n token].
Proof.
  rewrite merge_pull_request_run.
  destruct (fst _) as [[res|]|e]; auto.
Qed.


Lemma parse_merge_response_success response n r :
  _parse_merge_response response n = Returns r ->
  status r = SUCCESS -> status_code response = 200.
Proof.
  unfold _parse_merge_response.
  destruct (status_code response =? 200) eqn:H200; [intros _ _; now apply Z.eqb_eq|].
  destruct (py_get _ "message" (PStr "")) as [m|e]; [|discriminate]. cbn [rbind].
  destruct (status_code response =? 405).
  { destruct (_ || _); intros [= <-]; discriminate. }
  destruct (status_code response =? 409); [intros [= <-]; discriminate|].
  destruct (status_code response =? 404); [intros [= <-]; discriminate|].
  destruct (py_get _ "message" PNone) as [m'|e]; [|discriminate].
  intros [= <-]. discriminate.
Qed.

(** X3. The attempt reports SUCCESS only when the merge call was sent and
    answered with HTTP 200. *)
Theorem merge_pull_request_success owner repo pull_number github_token
  (net : Network) (r : MergeResult) :
  fst (run (merge_pull_request owner repo pull_number github_token) net) = Returns r ->
  status r = SUCCESS ->
  exists response,
    net (put_request owner repo pull_number github_token) = Returns response
    /\ status_code response = 200
    /\ snd (run (merge_pull_request owner repo pull_number github_token) net)
       = [get_request owner repo pull_number github_token;
          put_request owner repo pull_number github_token].
Proof.
  rewrite merge_pull_request_run.
  destruct (fst (_get_pr_state _ _ _ _ net [])) as [[res|]|e] eqn:H1; cbn [fst snd].
  - intros [= <-] Hs. exfalso.
    exact (proj1 (get_pr_state_outcome _ _ _ _ _ _ _ H1) Hs).
  - destruct (net (put_request owner repo pull_number github_token)) as [response|e];
      [|discriminate].
    cbn [rbind]. intros Hr Hs. exists response.
    split; [reflexivity|]. split; [|reflexivity].
    exact (parse_merge_response_success response pull_number r Hr Hs).
  - discriminate.
Qed.

Lemma merge_pull_request_success_witness :
  exists response,
    (fun _ => Returns fetched_open_pr : result Response)
      (put_request "headout" "backend" 42 "ghp_test") = Returns response
    /\ status_code response = 200.
Proof.
  destruct (merge_pull_request_success "headout" "backend" 42 "ghp_test"
              (fun _ => Returns fetched_open_pr)
              {| status := SUCCESS; message := wide "PR #42 merged successfully." |})
    as (response & H1 & H2 & _).
  - reflexivity.
  - reflexivity.
  - exists response. split; assumption.
Defined.

Lemma parse_merge_response_names response n r :
  _parse_merge_response response n = Returns r -> names_pull_request n (message r).
Proof.
  unfold _parse_merge_response.
  destruct (status_code response =? 200); [intros [= <-]; apply (names_wide n [])|].
  destruct (py_get _ "message" (PStr "")) as [m|e]; [|discriminate]. cbn [rbind].
  destruct (status_code response =? 405).
  { destruct (_ || _); intros [= <-]; apply names_dash. }
  destruct (status_code response =? 409); [intros [= <-]; apply names_dash|].
  destruct (status_code response =? 404); [intros [= <-]; apply (names_wide n [])|].
  destruct (py_get _ "message" PNone) as [m'|e]; [|discriminate].
  intros [= <-]. apply (names_wide n "Failed to merge ").
Qed.

(** X4. Every result the attempt returns has a message that names the pull
    request by its number; no message is empty. *)
Theorem merge_pull_request_message owner repo pull_number github_token
  (net : Network) (r : MergeResult) :
  fst (run (merge_pull_request owner repo pull_number github_token) net) = Returns r ->
  names_pull_request pull_number (message r) /\ message r <> [].
Proof.
  intros Hr.
  assert (Hn : names_pull_request pull_number (message r)).
  { rewrite merge_pull_request_run in Hr.
    destruct (fst (_get_pr_state _ _ _ _ net [])) as [[res|]|e] eqn:H1; cbn [fst] in Hr.
    - injection Hr as <-. exact (proj2 (get_pr_state_outcome _ _ _ _ _ _ _ H1)).
    - destruct (net (put_request owner repo pull_number github_token)) as [response|e];
        [|discriminate].
      exact (parse_merge_response_names response pull_number r Hr).
    - discriminate. }
  split; [exact Hn|]. destruct Hn as (pre & post & ->).
  destruct pre; discriminate.
Qed.

Lemma merge_pull_request_message_witness :
  names_pull_request 42 (wide "PR #42 merged successfully.").
Proof.
  apply (merge_pull_request_message "headout" "backend" 42 "ghp_test"
           (fun _ => Returns fetched_open_pr)
           {| status := SUCCESS; message := wide "PR #42 merged successfully." |}).
  reflexivity.
Defined.

(** ** The handler of message events *)

Lemma post_outcome (w : World) (p : Post) trace :
  chat_postMessage p w trace
  = (if slack_accepts w p then Done tt else Aborted SlackApiError, (trace ++ [Slack p])%list).
Proof. reflexivity. Qed.

(** What the handler does, case by case. *)
Lemma handle_message_event_run event settings (w : World) :
  perform (handle_message_event event settings) w =
  if event_is_from_bot event then (Done tt, [])
  else
    match extract_pr (event_text event) with
    | Raises e => (Aborted (CodeError e), [])
    | Returns None => (Done tt, [])
    | Returns (Some pr) =>
        if negb (has_merge_intent (event_text event)) then (Done tt, [])
        else if negb (is_authorized (event_user event) settings) then
          (if slack_accepts w (reply_post event settings denial_text)
           then Done tt else Aborted SlackApiError,
           [Slack (reply_post event settings denial_text)])
        else
          match run (attempt_for pr settings) (github w) with
          | (Returns r, sent) =>
              (if slack_accepts w (reply_post event settings (report_text r))
               then Done tt else Aborted SlackApiError,
               (map Github sent ++ [Slack (reply_post event settings (report_text r))])%list)
          | (Raises e, sent) => (Aborted (CodeError e), map Github sent)
          end
    end.
Proof.
  unfold perform, handle_message_event.
  destruct (event_is_from_bot event); [reflexivity|].
  unfold task_bind, task_of_result.
  destruct (extract_pr (event_text event)) as [[pr|]|e]; try reflexivity.
  destruct (negb (has_merge_intent (event_text event))); [reflexivity|].
  destruct (negb (is_authorized (event_user event) settings)); [reflexivity|].
  unfold task_of_http, run, attempt_for.
  destruct (merge_pull_request _ _ _ _ (github w) []) as [[r|e] sent]; reflexivity.
Qed.

(** X5. The handler has no effect at all, whatever the services answer, unless
    the message is not from a bot and its text holds a pull-request URL
    and merge intent. *)
Theorem handle_message_event_quiet event settings (w : World) :
  snd (perform (handle_message_event event settings) w) <> [] ->
  event_is_from_bot event = false
  /\ has_merge_intent (event_text event) = true
  /\ exists pr, extract_pr (event_text event) = Returns (Some pr).
Proof.
  rewrite handle_message_event_run.
  destruct (event_is_from_bot event); [intros H; now contradiction H|].
  destruct (extract_pr (event_text event)) as [[pr|]|e];
    try (intros H; now contradiction H).
  destruct (has_merge_intent (event_text event)); cbn [negb];
    [|intros H; now contradiction H].
  intros _. eauto.
Qed.

Lemma handle_message_event_quiet_witness :
  has_merge_intent (event_text (sample_event "U111" sample_text)) = true.
Proof.
  refine (proj1 (proj2 (handle_message_event_quiet (sample_event "U111" sample_text)
                          (sample_settings "U111,U222") sample_world _))).
  vm_compute. discriminate.
Defined.


Lemma github_requests_app t1 t2 :
  github_requests (t1 ++ t2)%list = (github_requests t1 ++ github_requests t2)%list.
Proof. apply flat_map_app. Qed.

Lemma slack_posts_app t1 t2 :
  slack_posts (t1 ++ t2)%list = (slack_posts t1 ++ slack_posts t2)%list.
Proof. apply flat_map_app. Qed.

Lemma github_requests_map sent : github_requests (map Github sent) = sent.
Proof. induction sent as [|r sent IH]; [reflexivity|]. simpl. now rewrite IH. Qed.

Lemma slack_posts_map sent : slack_posts (map Github sent) = [].
Proof. induction sent as [|r sent IH]; [reflexivity|]. exact IH. Qed.

(** X6. The handler sends a request to the code host only for an authorized
    sender, and then only the requests of the attempt on the pull request
    read from the text, under the configured token. *)
Theorem handle_message_event_authorized event settings (w : World) :
  github_requests (snd (perform (handle_message_event event settings) w)) <> [] ->
  is_authorized (event_user event) settings = true
  /\ exists pr,
       extract_pr (event_text event) = Returns (Some pr)
       /\ github_requests (snd (perform (handle_message_event event settings) w))
          = snd (run (attempt_for pr settings) (github w)).
Proof.
  rewrite handle_message_event_run.
  destruct (event_is_from_bot event); [intros H; now contradiction H|].
  destruct (extract_pr (event_text event)) as [[pr|]|e];
    try (intros H; now contradiction H).
  destruct (negb (has_merge_intent (event_text event))); [intros H; now contradiction H|].
  destruct (is_authorized (event_user event) settings); cbn [negb];
    [|intros H; now contradiction H].
  intros _. split; [reflexivity|]. exists pr. split; [reflexivity|].
  destruct (run (attempt_for pr settings) (github w)) as [[r|e] sent]; cbn [snd].
  - rewrite github_requests_app, github_requests_map. apply app_nil_r.
  - apply github_requests_map.
Qed.

Lemma handle_message_event_authorized_witness :
  is_authorized (event_user (sample_event "U111" sample_text))
    (sample_settings "U111,U222") = true.
Proof.
  refine (proj1 (handle_message_event_authorized (sample_event "U111" sample_text)
                   (sample_settings "U111,U222") sample_world _)).
  vm_compute. discriminate.
Defined.


(** X7. To a sender who is not authorized the handler posts the denial, in
    the thread of the message, and sends nothing to the code host. *)
Theorem handle_message_event_denied event settings (w : World) (pr : ParsedPR) :
  event_is_from_bot event = false ->
  extract_pr (event_text event) = Returns (Some pr) ->
  has_merge_intent (event_text event) = true ->
  is_authorized (event_user event) settings = false ->
  snd (perform (handle_message_event event settings) w)
  = [Slack (reply_post event settings denial_text)].
Proof.
  intros Hbot Hpr Hintent Hauth.
  rewrite handle_message_event_run, Hbot, Hpr, Hintent, Hauth. reflexivity.
Qed.

Lemma handle_message_event_denied_witness :
  snd (perform (handle_message_event (sample_event "U999" sample_text)
                  (sample_settings "U111,U222")) sample_world)
  = [Slack (reply_post (sample_event "U999" sample_text)
              (sample_settings "U111,U222") denial_text)].
Proof.
  apply (handle_message_event_denied (sample_event "U999" sample_text)
           (sample_settings "U111,U222") sample_world sample_pr);
    vm_compute; reflexivity.
Defined.


(** X8. For an authorized sender the handler makes the attempt and, when the
    attempt returns, posts its report once, after the requests: the report
    starts with the check mark exactly when the outcome is SUCCESS. *)
Theorem handle_message_event_report event settings (w : World) (pr : ParsedPR)
  (r : MergeResult) :
  event_is_from_bot event = false ->
  extract_pr (event_text event) = Returns (Some pr) ->
  has_merge_intent (event_text event) = true ->
  is_authorized (event_user event) settings = true ->
  fst (run (attempt_for pr settings) (github w)) = Returns r ->
  snd (perform (handle_message_event event settings) w)
  = (map Github (snd (run (attempt_for pr settings) (github w)))
       ++ [Slack (reply_post event settings (report_text r))])%list
  /\ (hd 0 (report_text r) = check_mark <-> status r = SUCCESS)
  /\ report_text r = (hd 0 (report_text r) :: wide " " ++ message r)%list.
Proof.
  intros Hbot Hpr Hintent Hauth Hr.
  rewrite handle_message_event_run, Hbot, Hpr, Hintent, Hauth. cbn [negb].
  destruct (run (attempt_for pr settings) (github w)) as [r' sent]. cbn [fst snd] in *.
  subst r'. split; [reflexivity|]. split; [|reflexivity].
  unfold report_text. destruct (status r); cbn [hd]; split; intros H;
    try reflexivity; discriminate H.
Qed.

Lemma handle_message_event_report_witness :
  hd 0 (report_text {| status := SUCCESS; message := wide "PR #42 merged successfully." |})
  = check_mark
  <-> SUCCESS = SUCCESS.
Proof.
  refine (proj1 (proj2 (handle_message_event_report (sample_event "U111" sample_text)
                          (sample_settings "U111,U222") sample_world sample_pr
                          {| status := SUCCESS;
                             message := wide "PR #42 merged successfully." |}
                          _ _ _ _ _)));
    vm_compute; reflexivity.
Defined.


(** X9. When the attempt raises, the handler raises too and posts nothing:
    the sender gets no report. *)
Theorem handle_message_event_silent event settings (w : World) (pr : ParsedPR)
  (e : exn) :
  event_is_from_bot event = false ->
  extract_pr (event_text event) = Returns (Some pr) ->
  has_merge_intent (event_text event) = true ->
  is_authorized (event_user event) settings = true ->
  fst (run (attempt_for pr settings) (github w)) = Raises e ->
  fst (perform (handle_message_event event settings) w) = Aborted (CodeError e)
  /\ slack_posts (snd (perform (handle_message_event event settings) w)) = [].
Proof.
  intros Hbot Hpr Hintent Hauth Hr.
  rewrite handle_message_event_run, Hbot, Hpr, Hintent, Hauth. cbn [negb].
  destruct (run (attempt_for pr settings) (github w)) as [r' sent]. cbn [fst snd] in *.
  subst r'. split; [reflexivity|]. apply slack_posts_map.
Qed.

Lemma handle_message_event_silent_witness :
  slack_posts (snd (perform (handle_message_event (sample_event "U111" sample_text)
                              (sample_settings "U111,U222")) unreachable_world)) = [].
Proof.
  refine (proj2 (handle_message_event_silent (sample_event "U111" sample_text)
                   (sample_settings "U111,U222") unreachable_world sample_pr
                   (TransportError ConnectTimeout) _ _ _ _ _));
    vm_compute; reflexivity.
Defined.


(** X10. Whatever the event and the services, the handler sends at most two
    requests and then posts at most one message, to the channel and thread
    of the event, with the bot's token; it sends nothing once it has
    posted. *)
Theorem handle_message_event_effects event settings (w : World) :
  exists sent posts,
    snd (perform (handle_message_event event settings) w)
    = (map Github sent ++ map Slack posts)%list
    /\ (length sent <= 2)%nat /\ (length posts <= 1)%nat
    /\ forall p, In p posts ->
         post_token p = slack_bot_token settings
         /\ post_channel p = event_channel event
         /\ post_thread_ts p = event_thread_ts event.
Proof.
  rewrite handle_message_event_run.
  destruct (event_is_from_bot event);
    [exists [], []; repeat split; simpl; (lia || contradiction)|].
  destruct (extract_pr (event_text event)) as [[pr|]|e];
    try (exists [], []; repeat split; simpl; (lia || contradiction)).
  destruct (negb (has_merge_intent (event_text event)));
    [exists [], []; repeat split; simpl; (lia || contradiction)|].
  destruct (negb (is_authorized (event_user event) settings)).
  { exists [], [reply_post event settings denial_text].
    repeat split; simpl; try lia; destruct H as [<- | []]; reflexivity. }
  pose proof (merge_pull_request_sent (owner pr) (repo pr) (pull_number pr)
                (github_token settings) (github w)) as Hsent.
  fold (attempt_for pr settings) in Hsent.
  destruct (run (attempt_for pr settings) (github w)) as [[r|e] sent]; cbn [snd] in *.
  - exists sent, [reply_post event settings (report_text r)].
    repeat split; simpl; try lia;
      try (destruct H as [<- | []]; reflexivity).
    destruct Hsent as [-> | ->]; simpl; lia.
  - exists sent, []. rewrite app_nil_r.
    repeat split; simpl; try lia; try contradiction.
    destruct Hsent as [-> | ->]; simpl; lia.
Qed.

(** ** The allow-list *)

Lemma lstrip_no_leading s : no_leading_space (lstrip s).
Proof.
  induction s as [|c s IH]; simpl; [exact I|].
  destruct (Py_UNICODE_ISSPACE c) eqn:Hc; [exact IH | exact Hc].
Qed.

Lemma lstrip_id s : no_leading_space s -> lstrip s = s.
Proof. destruct s as [|c s]; simpl; [reflexivity|]. now intros ->. Qed.

Lemma lstrip_suffix s : exists ws, s = (ws ++ lstrip s)%list.
Proof.
  induction s as [|c s [ws IH]]; simpl; [now exists []|].
  destruct (Py_UNICODE_ISSPACE c).
  - exists (c :: ws). simpl. now f_equal.
  - now exists [].
Qed.

(** A stripped string starts and ends outside white space. *)
Lemma strip_no_leading s : no_leading_space (strip s).
Proof.
  unfold strip. pose proof (lstrip_no_leading s) as Ht.
  destruct (lstrip_suffix (rev (lstrip s))) as [ws Hws].
  set (u := lstrip (rev (lstrip s))) in *.
  assert (Hrev : lstrip s = (rev u ++ rev ws)%list).
  { rewrite <- rev_app_distr, <- Hws. now rewrite rev_involutive. }
  destruct (rev u) as [|c t] eqn:Hu; [exact I|].
  rewrite Hrev in Ht. exact Ht.
Qed.

Lemma strip_idempotent s : strip (strip s) = strip s.
Proof.
  unfold strip at 1. rewrite (lstrip_id (strip s) (strip_no_leading s)).
  unfold strip. rewrite rev_involutive.
  now rewrite (lstrip_id _ (lstrip_no_leading (rev (lstrip s)))).
Qed.

Lemma authorized_user_ids_member uid settings :
  uid ∈ authorized_user_ids settings <->
  uid <> [] /\ exists piece,
    In piece (split_comma (authorized_slack_user_ids settings)) /\ strip piece = uid.
Proof.
  unfold authorized_user_ids.
  rewrite elem_of_list_to_set, list_elem_of_In, filter_In, in_map_iff. split.
  - intros [(piece & <- & Hin) Hne]. split; [|eauto].
    destruct (strip piece); [discriminate | discriminate].
  - intros [Hne (piece & Hin & <-)]. split; [eauto|].
    destruct (strip piece); [congruence | reflexivity].
Qed.

Lemma is_authorized_member uid settings :
  is_authorized uid settings = true <-> uid ∈ authorized_user_ids settings.
Proof.
  unfold is_authorized, set_is_empty.
  destruct (bool_decide (authorized_user_ids settings = ∅)) eqn:He.
  - apply bool_decide_eq_true in He. rewrite He. split; [discriminate|].
    intros H. now apply not_elem_of_empty in H.
  - apply bool_decide_eq_true.
Qed.

Lemma is_authorized_stripped uid settings :
  is_authorized uid settings = true -> uid <> [] /\ strip uid = uid.
Proof.
  rewrite is_authorized_member, authorized_user_ids_member.
  intros [Hne (piece & _ & <-)]. split; [exact Hne | apply strip_idempotent].
Qed.

(** X11. No configuration authorizes the empty identity, or an identity that
    starts or ends with white space: an authorized identity is not empty
    and is its own stripped form. *)
Theorem is_authorized_identity (slack_user_id : str) (settings : Settings) :
  is_authorized slack_user_id settings = true ->
  slack_user_id <> [] /\ strip slack_user_id = slack_user_id.
Proof. apply is_authorized_stripped. Qed.

Lemma is_authorized_identity_witness : strip "U111" = ("U111" : str).
Proof.
  refine (proj2 (is_authorized_identity "U111" (sample_settings "U111,U222") _)).
  vm_compute. reflexivity.
Defined.

Lemma split_comma_nonempty s : split_comma s <> [].
Proof.
  destruct s as [|c s]; simpl; [discriminate|].
  destruct (split_comma s); [discriminate|].
  destruct (Ascii.eqb c ","); discriminate.
Qed.

Lemma split_comma_app a b :
  split_comma (a ++ "," ++ b)%list = (split_comma a ++ split_comma b)%list.
Proof.
  induction a as [|c a IH].
  - simpl. pose proof (split_comma_nonempty b).
    destruct (split_comma b); [congruence | reflexivity].
  - change ((c :: a) ++ "," ++ b)%list with (c :: (a ++ "," ++ b))%list.
    cbn [split_comma]. rewrite IH. pose proof (split_comma_nonempty a).
    destruct (split_comma a) as [|cur rest]; [congruence|]. simpl.
    destruct (Ascii.eqb c ","); reflexivity.
Qed.

(** X12. Joining two configured lists with a comma authorizes the senders of
    either list and no one else. *)
Theorem authorized_user_ids_comma (s a b : Settings) (slack_user_id : str) :
  authorized_slack_user_ids s
  = (authorized_slack_user_ids a ++ "," ++ authorized_slack_user_ids b)%list ->
  is_authorized slack_user_id s
  = is_authorized slack_user_id a || is_authorized slack_user_id b.
Proof.
  intros Hs. apply eq_true_iff_eq.
  rewrite orb_true_iff, !is_authorized_member, !authorized_user_ids_member.
  rewrite Hs, split_comma_app. setoid_rewrite in_app_iff. split.
  - intros [Hne (piece & [H | H] & Hp)]; [left | right]; eauto.
  - intros [[Hne (piece & H & Hp)] | [Hne (piece & H & Hp)]]; eauto.
Qed.

Lemma authorized_user_ids_comma_witness :
  is_authorized "U222" (sample_settings "U111,U222")
  = is_authorized "U222" (sample_settings "U111")
    || is_authorized "U222" (sample_settings "U222").
Proof.
  apply (authorized_user_ids_comma (sample_settings "U111,U222")
           (sample_settings "U111") (sample_settings "U222") "U222").
  reflexivity.
Defined.

(** X13. An event that names no user (no [user] key, or an empty one) never
    makes the handler send anything to the code host. *)
Theorem handle_message_event_no_user event settings (w : World) :
  truthy (dict_get event "user") = false ->
  github_requests (snd (perform (handle_message_event event settings) w)) = [].
Proof.
  intros Huser.
  assert (Hid : event_user event = []).
  { unfold event_user, py_or. now rewrite Huser. }
  assert (Hauth : is_authorized (event_user event) settings = false).
  { destruct (is_authorized (event_user event) settings) eqn:H; [|reflexivity].
    apply is_authorized_stripped in H as [Hne _]. congruence. }
  rewrite handle_message_event_run, Hauth.
  destruct (event_is_from_bot event); [reflexivity|].
  destruct (extract_pr (event_text event)) as [[pr|]|e]; try reflexivity.
  destruct (negb (has_merge_intent (event_text event))); reflexivity.
Qed.

Lemma handle_message_event_no_user_witness :
  github_requests
    (snd (perform (handle_message_event [("text" : str, PStr sample_text)]
                     (sample_settings "U111,U222")) sample_world)) = [].
Proof.
  apply (handle_message_event_no_user [("text" : str, PStr sample_text)]
           (sample_settings "U111,U222") sample_world).
  reflexivity.
Defined.

(** ** Reading the message: case, and a URL at the start *)

Lemma tolower_idempotent c : unicode_tolower (unicode_tolower c) = unicode_tolower c.
Proof. destruct c as [[] [] [] [] [] [] [] []]; reflexivity. Qed.

Lemma isspace_tolower c : Py_UNICODE_ISSPACE (unicode_tolower c) = Py_UNICODE_ISSPACE c.
Proof. destruct c as [[] [] [] [] [] [] [] []]; reflexivity. Qed.

Lemma lower_idempotent s : lower (lower s) = lower s.
Proof.
  unfold lower. rewrite map_map. apply map_ext. apply tolower_idempotent.
Qed.

Lemma forallb_isspace_lower ws :
  forallb Py_UNICODE_ISSPACE (lower ws) = forallb Py_UNICODE_ISSPACE ws.
Proof.
  induction ws as [|c ws IH]; [reflexivity|]. simpl. now rewrite isspace_tolower, IH.
Qed.

Lemma ends_outside_word_lower pre :
  ends_outside_word (lower pre) <-> ends_outside_word pre.
Proof.
  unfold ends_outside_word. split.
  - intros H pre' c ->. rewrite <- is_word_tolower.
    apply (H (lower pre')). now rewrite lower_app.
  - intros H q c Hq. unfold lower in Hq.
    apply map_eq_app in Hq as (pre' & l & -> & <- & Hl).
    destruct l as [|c' [|? ?]]; try discriminate. injection Hl as <-.
    rewrite is_word_tolower. now apply (H pre').
Qed.

Lemma starts_outside_word_lower post :
  starts_outside_word (lower post) <-> starts_outside_word post.
Proof.
  rewrite !starts_outside_word_head. destruct post as [|c post]; simpl; [tauto|].
  now rewrite is_word_tolower.
Qed.

Lemma lower_nil s : lower s = [] <-> s = [].
Proof. destruct s; simpl; split; congruence. Qed.

Lemma has_standalone_word_lower w text :
  has_standalone_word w (lower text) <-> has_standalone_word w text.
Proof.
  unfold has_standalone_word, eq_ignore_case. split.
  - intros (pre & m & post & Ht & Hm & Hpre & Hpost). unfold lower in Ht at 1.
    apply map_eq_app in Ht as (pre' & l & -> & <- & Hl).
    apply map_eq_app in Hl as (m' & post' & -> & <- & <-).
    exists pre', m', post'. split; [reflexivity|].
    fold (lower m') in Hm. rewrite lower_idempotent in Hm.
    repeat split; auto.
    + now apply ends_outside_word_lower.
    + now apply starts_outside_word_lower.
  - intros (pre & m & post & -> & Hm & Hpre & Hpost).
    exists (lower pre), (lower m), (lower post). rewrite !lower_app, lower_idempotent.
    repeat split; auto.
    + now apply ends_outside_word_lower.
    + now apply starts_outside_word_lower.
Qed.

Lemma has_phrase_lower w1 w2 text :
  has_phrase w1 w2 (lower text) <-> has_phrase w1 w2 text.
Proof.
  unfold has_phrase, eq_ignore_case. split.
  - intros (pre & m1 & ws & m2 & post & Ht & H1 & Hne & Hws & H2). unfold lower in Ht at 1.
    apply map_eq_app in Ht as (pre' & l & -> & <- & Hl).
    apply map_eq_app in Hl as (m1' & l' & -> & <- & Hl).
    apply map_eq_app in Hl as (ws' & l'' & -> & <- & Hl).
    apply map_eq_app in Hl as (m2' & post' & -> & <- & <-).
    exists pre', m1', ws', m2', post'. split; [reflexivity|].
    fold (lower m1') in H1. fold (lower m2') in H2. fold (lower ws') in Hne, Hws.
    rewrite lower_idempotent in H1, H2. rewrite forallb_isspace_lower in Hws.
    repeat split; auto. intros ->. now apply Hne.
  - intros (pre & m1 & ws & m2 & post & -> & H1 & Hne & Hws & H2).
    exists (lower pre), (lower m1), (lower ws), (lower m2), (lower post).
    rewrite !lower_app, !lower_idempotent, forallb_isspace_lower.
    repeat split; auto. now rewrite lower_nil.
Qed.

Lemma has_merge_intent_lower text :
  has_merge_intent (lower text) = has_merge_intent text.
Proof.
  apply eq_true_iff_eq. rewrite !has_merge_intent_iff. unfold expresses_merge_intent.
  now rewrite has_standalone_word_lower, !has_phrase_lower.
Qed.

(** X14. Merge intent does not depend on the case of letters: two texts that
    differ only in case get the same answer. *)
Theorem has_merge_intent_case (text1 text2 : str) :
  eq_ignore_case text1 text2 -> has_merge_intent text1 = has_merge_intent text2.
Proof.
  unfold eq_ignore_case. intros H.
  now rewrite <- (has_merge_intent_lower text1), H, has_merge_intent_lower.
Qed.

Lemma has_merge_intent_case_witness :
  has_merge_intent "PLEASE Merge this" = has_merge_intent "please merge THIS".
Proof.
  apply (has_merge_intent_case "PLEASE Merge this" "please merge THIS"). reflexivity.
Defined.

Lemma extract_pr_at_start u o r d post :
  is_pr_url u o r d ->
  stops_before Py_UNICODE_ISDECIMAL post ->
  (length d <= int_max_str_digits)%nat ->
  extract_pr (u ++ post)%list
  = Returns (Some {| owner := o; repo := r; pull_number := decimal_value d; url := u |}).
Proof.
  intros Hu Hpost Hlen.
  destruct (search _PR_URL_PATTERN (u ++ post)%list) as [[pre m]|] eqn:Hs.
  - destruct (search_pr_some _ pre m Hs)
      as (u' & o' & r' & d' & post' & -> & Htext & Hu' & Hstop & Hleft).
    specialize (Hleft [] u post o r d eq_refl Hu). simpl in Hleft.
    destruct pre; [|simpl in Hleft; lia]. simpl in Htext.
    destruct (is_pr_url_unique u o r d post u' o' r' d' post' Hu Hu' Htext Hpost Hstop)
      as (<- & <- & <- & <- & <-).
    destruct Hu as (_ & _ & _ & _ & _ & Hd & Hd').
    rewrite (extract_pr_found _ [] u o r d post Hs Hd Hd').
    apply Nat.ltb_ge in Hlen. now rewrite Hlen.
  - exfalso. apply search_pr_none in Hs. apply Hs.
    exists [], u, post, o, r, d. auto.
Qed.

(** X15. A text that starts with a pull-request URL, the digits of its number
    (at most 4300) followed by no further digit, gives exactly that URL:
    its owner, its repository, the value of its digits, leading zeros
    dropped, and the URL itself, whatever follows. *)
Theorem extract_pr_leading_url (u o r d post : str) :
  is_pr_url u o r d ->
  stops_before Py_UNICODE_ISDECIMAL post ->
  (length d <= int_max_str_digits)%nat ->
  extract_pr (u ++ post)%list
  = Returns (Some {| owner := o; repo := r; pull_number := decimal_value d; url := u |}).
Proof. apply extract_pr_at_start. Qed.

Lemma extract_pr_leading_url_witness :
  extract_pr ("https://github.com/headout/app/pull/007" ++ " please")%list
  = Returns (Some {| owner := "headout"; repo := "app";
                     pull_number := decimal_value "007";
                     url := "https://github.com/headout/app/pull/007" |}).
Proof.
  apply (extract_pr_leading_url "https://github.com/headout/app/pull/007"
           "headout" "app" "007" " please").
  - unfold is_pr_url. repeat split; try discriminate; reflexivity.
  - reflexivity.
  - unfold int_max_str_digits. simpl. lia.
Defined.
(** ** The signature check: what it accepts, and when it raises *)

(** What the code does once the timestamp is read, by the three things
    that can follow. *)
Lemma verify_after_int now body timestamp signature secret n :
  py_int timestamp = Returns n ->
  verify_slack_signature now body timestamp signature secret =
  if 2 ^ 1024 - 2 ^ 970 <=? Z.abs n then Raises OverflowError
  else if float_gt (float_abs (float_sub now (round64 (inject_Z n)))) 300
       then Returns false
       else match utf8_decode body with
            | Raises e => Raises e
            | Returns _ => compare_digest (expected_signature body timestamp secret) signature
            end.
Proof.
  intros Hn. unfold verify_slack_signature. rewrite Hn.
  destruct (2 ^ 1024 - 2 ^ 970 <=? Z.abs n) eqn:Hfit.
  - apply Z.leb_le in Hfit. rewrite (float_of_int_overflow n Hfit). reflexivity.
  - apply Z.leb_gt in Hfit. rewrite (float_of_int_fits n Hfit). cbn [rbind].
    destruct (float_gt _ _); [reflexivity|].
    destruct (utf8_decode body) as [u|e] eqn:Hu; [|reflexivity].
    cbn [rbind]. rewrite utf8_encode_wide. cbn [rbind].
    rewrite (base_string_bytes body u timestamp Hu). reflexivity.
Qed.

Lemma verify_true_valid now body timestamp signature secret :
  clock_reading now ->
  verify_slack_signature now body timestamp signature secret = Returns true ->
  signature_valid now body timestamp signature secret.
Proof.
  intros Hclock H. destruct (py_int timestamp) as [n|e] eqn:Hn.
  2: { unfold verify_slack_signature in H. rewrite Hn in H.
       destruct (is_ValueError e); discriminate H. }
  rewrite (verify_after_int now body timestamp signature secret n Hn) in H.
  destruct (2 ^ 1024 - 2 ^ 970 <=? Z.abs n) eqn:Hfit; [discriminate H|].
  apply Z.leb_gt in Hfit.
  rewrite (window_exact now n _ Hclock (float_of_int_fits n Hfit)) in H.
  destruct (Qle_bool _ _) eqn:Hw; cbn [negb] in H; [|discriminate H].
  destruct (utf8_decode body) as [u|e]; [|discriminate H].
  apply Qle_bool_iff in Hw. apply compare_digest_expected in H.
  exists n. auto.
Qed.

(** X16. At a clock reading the check returns true only for a request
    that is valid: the timestamp is an integer within 300 seconds of the
    clock, and the signature is "v0=" and the hexadecimal HMAC-SHA256,
    under the secret, of "v0:", the timestamp, ":" and the raw body.  The
    strings are of code points up to U+00FF. *)
Theorem verify_slack_signature_sound now body timestamp signature secret :
  clock_reading now ->
  verify_slack_signature now body timestamp signature secret = Returns true ->
  signature_valid now body timestamp signature secret.
Proof. apply verify_true_valid. Qed.

Lemma clock_reading_sample : clock_reading (inject_Z 1700000000).
Proof.
  repeat split.
  - apply Qle_bool_iff. vm_compute. reflexivity.
  - apply Qle_bool_iff. vm_compute. reflexivity.
Qed.

Lemma verify_slack_signature_sound_witness :
  signature_valid (inject_Z 1700000000) (list_byte_of_string "payload=test") "1700000000"
    "v0=4eefd218a887d498ad0ece1c7177e7e25fb5a75dbf1dc90725625a3b1fae3194"
    "test_signing_secret".
Proof.
  apply (verify_slack_signature_sound (inject_Z 1700000000)
           (list_byte_of_string "payload=test") "1700000000"
           "v0=4eefd218a887d498ad0ece1c7177e7e25fb5a75dbf1dc90725625a3b1fae3194"
           "test_signing_secret").
  - exact clock_reading_sample.
  - vm_compute. reflexivity.
Defined.

Lemma verify_slack_signature_in_range_witness :
  verify_slack_signature (inject_Z 1700000000) (list_byte_of_string "payload=test")
    "1700000000" "v0=4eefd218a887d498ad0ece1c7177e7e25fb5a75dbf1dc90725625a3b1fae3194"
    "test_signing_secret" = Returns true
  <-> signature_valid (inject_Z 1700000000) (list_byte_of_string "payload=test")
        "1700000000" "v0=4eefd218a887d498ad0ece1c7177e7e25fb5a75dbf1dc90725625a3b1fae3194"
        "test_signing_secret".
Proof.
  refine (proj1 (verify_slack_signature_in_range (inject_Z 1700000000)
                   (list_byte_of_string "payload=test")
                   (wide "payload=test") "1700000000"
                   "v0=4eefd218a887d498ad0ece1c7177e7e25fb5a75dbf1dc90725625a3b1fae3194"
                   "test_signing_secret" _ _ _)).
  - exact clock_reading_sample.
  - vm_compute. reflexivity.
  - intros n H. vm_compute in H. injection H as <-. vm_compute. reflexivity.
Defined.

Lemma compare_digest_raises a b e :
  compare_digest a b = Raises e ->
  e = TypeError /\ forallb is_ascii_char a && forallb is_ascii_char b = false.
Proof.
  unfold compare_digest. destruct (_ && _); [discriminate|]. intros [= <-]. auto.
Qed.

(** X17. For a timestamp, a signature and a secret of code points up to
    U+00FF, at a clock reading, the check raises in three cases only: the
    timestamp is an integer too large for a float ([OverflowError]); the
    timestamp is inside the window and the body is not UTF-8 (the error
    of the decoder); the timestamp is inside the window, the body is UTF-8
    and the signature header holds a character outside ASCII
    ([TypeError]).  A timestamp that is no integer, or one outside the
    window that fits a float, never makes it raise. *)
Theorem verify_slack_signature_raises now body timestamp signature secret (e : exn) :
  clock_reading now ->
  verify_slack_signature now body timestamp signature secret = Raises e ->
  exists n,
    py_int timestamp = Returns n
    /\ ((e = OverflowError /\ 2 ^ 1024 - 2 ^ 970 <= Z.abs n)
        \/ ((Qabs (now - inject_Z n) <= inject_Z 300)%Q
            /\ (utf8_decode body = Raises e
                \/ (e = TypeError
                    /\ (exists u, utf8_decode body = Returns u)
                    /\ forallb is_ascii_char signature = false)))).
Proof.
  intros Hclock H. destruct (py_int timestamp) as [n|e'] eqn:Hn.
  2: { unfold verify_slack_signature in H. rewrite Hn in H.
       rewrite (py_int_raises _ _ Hn) in H. discriminate H. }
  exists n. split; [reflexivity|].
  rewrite (verify_after_int now body timestamp signature secret n Hn) in H.
  destruct (2 ^ 1024 - 2 ^ 970 <=? Z.abs n) eqn:Hfit.
  { injection H as <-. left. apply Z.leb_le in Hfit. auto. }
  apply Z.leb_gt in Hfit. right.
  rewrite (window_exact now n _ Hclock (float_of_int_fits n Hfit)) in H.
  destruct (Qle_bool (Qabs (now - inject_Z n)) (inject_Z 300)) eqn:Hw;
    cbn [negb] in H; [|discriminate H].
  split; [now apply Qle_bool_iff|].
  destruct (utf8_decode body) as [u|e'] eqn:Hu.
  - apply compare_digest_raises in H as [-> Hascii].
    rewrite expected_signature_ascii in Hascii. right. repeat split; eauto.
  - left. injection H as <-. reflexivity.
Qed.

Lemma verify_slack_signature_raises_witness :
  exists n,
    py_int "1700000000" = Returns n
    /\ ((TypeError = OverflowError /\ 2 ^ 1024 - 2 ^ 970 <= Z.abs n)
        \/ ((Qabs (inject_Z 1700000000 - inject_Z n) <= inject_Z 300)%Q
            /\ (utf8_decode (list_byte_of_string "payload=test") = Raises TypeError
                \/ (TypeError = TypeError
                    /\ (exists u, utf8_decode (list_byte_of_string "payload=test") = Returns u)
                    /\ forallb is_ascii_char ("v0=" ++ [chr 233])%list = false)))).
Proof.
  apply (verify_slack_signature_raises (inject_Z 1700000000)
           (list_byte_of_string "payload=test") "1700000000"
           ("v0=" ++ [chr 233])%list "test_signing_secret").
  - exact clock_reading_sample.
  - vm_compute. reflexivity.
Defined.

(** ** The endpoint *)

Lemma slack_events_queued now settings request :
  snd (slack_events now settings request) = []
  \/ exists event,
       snd (slack_events now settings request) = [event]
       /\ carries_message request event
       /\ request_verified now settings request = Returns true
       /\ fst (slack_events now settings request) = Returns ok_response.
Proof.
  unfold slack_events, request_verified, carries_message.
  destruct (request_json request) as [payload|e]; [|left; reflexivity].
  destruct payload as [| | | | | |d]; try (left; reflexivity).
  cbn [py_get]. fold (dict_get d "type").
  destruct (eq_str (dict_get d "type") "url_verification"); [left; reflexivity|].
  destruct (verify_slack_signature _ _ _ _ _) as [[|]|e]; try (left; reflexivity).
  destruct (eq_str (dict_get d "type") "event_callback") eqn:Hcb; [|left; reflexivity].
  fold (dict_get d "event").
  destruct (dict_get d "event") as [| | | | | |event] eqn:Hev; try (left; reflexivity).
  destruct (eq_str (dict_get event "type") "message") eqn:Hm; [|left; reflexivity].
  right. exists event. cbn [fst snd]. repeat split; auto. exists d. auto.
Qed.

(** X18. An event is queued for the handler only from a request whose signature
    check returned true, and which is an event callback carrying that
    event, a message; it is then the only one queued, and the answer is
    the ok response. *)
Theorem slack_events_queue now settings request (event : list (str * pyval)) :
  In event (snd (slack_events now settings request)) ->
  request_verified now settings request = Returns true
  /\ carries_message request event
  /\ snd (slack_events now settings request) = [event]
  /\ fst (slack_events now settings request) = Returns ok_response.
Proof.
  destruct (slack_events_queued now settings request)
    as [-> | (event' & Hq & Hc & Hv & Ha)]; [contradiction|].
  rewrite Hq. intros [<- | []]. auto.
Qed.

Lemma slack_events_queue_witness :
  request_verified (inject_Z 1700000000) sample_config (sample_request sample_signature)
  = Returns true.
Proof.
  refine (proj1 (slack_events_queue (inject_Z 1700000000) sample_config
                   (sample_request sample_signature) (sample_event "U111" sample_text) _)).
  vm_compute. left. reflexivity.
Defined.

(** X19. The verification challenge is answered without a look at the
    signature, whatever the headers, the secret and the clock, and nothing
    is queued: the answer echoes the [challenge] field when that value can
    be rendered as JSON, and the endpoint raises [ValueError] when it
    cannot (a float that is not finite, an [int] of more than 4300
    digits). *)
Theorem slack_events_challenge now settings request (d : list (str * pyval)) :
  request_json request = Returns (PDict d) ->
  eq_str (dict_get d "type") "url_verification" = true ->
  slack_events now settings request
  = (if json_renderable (dict_get d "challenge")
     then Returns (JSONResponse (PDict [("challenge" : str, dict_get d "challenge")]))
     else Raises ValueError, []).
Proof.
  intros Hjson Htype. unfold slack_events. rewrite Hjson. cbn [py_get].
  fold (dict_get d "type"). rewrite Htype. fold (dict_get d "challenge").
  cbn [rbind]. unfold json_response. cbn [json_renderable forallb snd].
  rewrite Bool.andb_true_r. reflexivity.
Qed.

Lemma slack_events_challenge_witness :
  slack_events (inject_Z 0) sample_config
    {| raw_body := []; x_slack_request_timestamp := ""; x_slack_signature := "";
       request_json := Returns (PDict [("type" : str, PStr "url_verification");
                                       ("challenge" : str, PStr "abc")]) |}
  = (Returns (JSONResponse (PDict [("challenge" : str, PStr "abc")])), []).
Proof.
  apply (slack_events_challenge (inject_Z 0) sample_config _
           [("type" : str, PStr "url_verification"); ("challenge" : str, PStr "abc")]);
    reflexivity.
Defined.

(** A challenge that is the float NaN makes the endpoint raise. *)
Example slack_events_challenge_nan :
  slack_events (inject_Z 0) sample_config
    {| raw_body := []; x_slack_request_timestamp := ""; x_slack_signature := "";
       request_json :=
         Returns (PDict [("type" : str, PStr "url_verification");
                         ("challenge" : str,
                          PFloat {| float_nonzero := true; float_repr := "nan" |})]) |}
  = (Raises ValueError, []).
Proof. reflexivity. Qed.

(** X20. The endpoint answers with a JSON response only to the verification
    challenge or to a request whose signature check returned true; every
    other request gets an HTTP error or makes the endpoint raise. *)
Theorem slack_events_answer now settings request (content : pyval) :
  fst (slack_events now settings request) = Returns (JSONResponse content) ->
  (request_verified now settings request = Returns true /\ JSONResponse content = ok_response)
  \/ exists d,
       request_json request = Returns (PDict d)
       /\ eq_str (dict_get d "type") "url_verification" = true
       /\ content = PDict [("challenge" : str, dict_get d "challenge")].
Proof.
  unfold slack_events, request_verified.
  destruct (request_json request) as [payload|e]; [|discriminate].
  destruct payload as [| | | | | |d]; try discriminate.
  cbn [py_get]. fold (dict_get d "type").
  destruct (eq_str (dict_get d "type") "url_verification") eqn:Hu.
  - cbn [rbind fst]. unfold json_response.
    destruct (json_renderable _); [|discriminate].
    intros [= <-]. right. exists d. auto.
  - destruct (verify_slack_signature _ _ _ _ _) as [[|]|e]; try discriminate.
    cbn [fst]. intros [= <-]. left. auto.
Qed.

Lemma slack_events_answer_witness :
  (request_verified (inject_Z 1700000000) sample_config (sample_request sample_signature)
   = Returns true
   /\ JSONResponse (PDict [("ok" : str, PBool true)]) = ok_response)
  \/ exists d,
       request_json (sample_request sample_signature) = Returns (PDict d)
       /\ eq_str (dict_get d "type") "url_verification" = true
       /\ PDict [("ok" : str, PBool true)] = PDict [("challenge" : str, dict_get d "challenge")].
Proof.
  apply (slack_events_answer (inject_Z 1700000000) sample_config
           (sample_request sample_signature) (PDict [("ok" : str, PBool true)])).
  vm_compute. reflexivity.
Defined.

(** ** From the request to the code host *)

Lemma run_queue_single settings event (w : World) :
  snd (perform (run_queue settings [event]) w)
  = snd (perform (handle_message_event event settings) w).
Proof.
  unfold perform. cbn [run_queue]. unfold task_bind.
  destruct (handle_message_event event settings w []) as [[[]|e] trace]; reflexivity.
Qed.

Lemma serve_trace now settings request (w : World) :
  snd (serve now settings request w) = []
  \/ exists event,
       snd (slack_events now settings request) = [event]
       /\ carries_message request event
       /\ request_verified now settings request = Returns true
       /\ snd (serve now settings request w)
          = snd (perform (handle_message_event event settings) w).
Proof.
  unfold serve.
  destruct (slack_events_queued now settings request)
    as [Hq | (event & Hq & Hc & Hv & _)].
  - left. destruct (slack_events now settings request) as [answer queued].
    cbn [snd] in Hq. subst queued. reflexivity.
  - right. exists event. rewrite Hq. repeat split; auto.
    destruct (slack_events now settings request) as [answer queued].
    cbn [snd] in Hq. subst queued.
    pose proof (run_queue_single settings event w) as Hrun.
    destruct (perform (run_queue settings [event]) w) as [done trace].
    cbn [snd] in *. exact Hrun.
Qed.

(** X21. Serving a request has an effect (a post to the chat or a request to
    the code host) only if the signature check returned true for the
    request and the request carries a message event, not from a bot, whose
    text holds a pull-request URL and merge intent. *)
Theorem serve_effect now settings request (w : World) :
  snd (serve now settings request w) <> [] ->
  request_verified now settings request = Returns true
  /\ exists event pr,
       carries_message request event
       /\ event_is_from_bot event = false
       /\ has_merge_intent (event_text event) = true
       /\ extract_pr (event_text event) = Returns (Some pr).
Proof.
  destruct (serve_trace now settings request w)
    as [-> | (event & Hq & Hc & Hv & ->)]; [intros H; now contradiction H|].
  rewrite handle_message_event_run. intros Htrace.
  split; [exact Hv|].
  destruct (event_is_from_bot event) eqn:Hbot; [now contradiction Htrace|].
  destruct (extract_pr (event_text event)) as [[pr|]|e] eqn:Hpr;
    try (now contradiction Htrace).
  destruct (has_merge_intent (event_text event)) eqn:Hintent; cbn [negb] in Htrace;
    [|now contradiction Htrace].
  exists event, pr. repeat split; auto.
Qed.

Lemma serve_effect_witness :
  request_verified (inject_Z 1700000000) sample_config (sample_request sample_signature)
  = Returns true.
Proof.
  refine (proj1 (serve_effect (inject_Z 1700000000) sample_config
                   (sample_request sample_signature) sample_world _)).
  vm_compute. discriminate.
Defined.

(** X22. Serving a request sends something to the code host only if the
    signature check returned true for the request and the request carries
    a message event of an authorized sender; what is sent is then the
    attempt on the pull request read from its text, and nothing else. *)
Theorem serve_merge now settings request (w : World) :
  github_requests (snd (serve now settings request w)) <> [] ->
  request_verified now settings request = Returns true
  /\ exists event pr,
       carries_message request event
       /\ is_authorized (event_user event) settings = true
       /\ extract_pr (event_text event) = Returns (Some pr)
       /\ github_requests (snd (serve now settings request w))
          = snd (run (attempt_for pr settings) (github w)).
Proof.
  destruct (serve_trace now settings request w)
    as [-> | (event & Hq & Hc & Hv & ->)]; [intros H; now contradiction H|].
  rewrite handle_message_event_run. intros Htrace.
  split; [exact Hv|].
  destruct (event_is_from_bot event) eqn:Hbot; [now contradiction Htrace|].
  destruct (extract_pr (event_text event)) as [[pr|]|e] eqn:Hpr;
    try (now contradiction Htrace).
  destruct (negb (has_merge_intent (event_text event))); [now contradiction Htrace|].
  destruct (is_authorized (event_user event) settings) eqn:Hauth; cbn [negb] in *;
    [|now contradiction Htrace].
  exists event, pr. split; [exact Hc|]. split; [exact Hauth|]. split; [exact Hpr|].
  destruct (run (attempt_for pr settings) (github w)) as [[r|e] sent]; cbn [snd].
  - rewrite github_requests_app, github_requests_map. apply app_nil_r.
  - apply github_requests_map.
Qed.

Lemma serve_merge_witness :
  request_verified (inject_Z 1700000000) sample_config (sample_request sample_signature)
  = Returns true.
Proof.
  refine (proj1 (serve_merge (inject_Z 1700000000) sample_config
                   (sample_request sample_signature) sample_world _)).
  vm_compute. discriminate.
Defined.

(** The repository's pipeline on the sample request: with the right
    signature the pull request is merged and reported; with another one
    nothing happens and the answer is 401. *)
Example serve_signed_request :
  map (fun e => match e with Github r => Some (req_method r) | Slack _ => None end)
      (snd (serve (inject_Z 1700000000) sample_config
              (sample_request sample_signature) sample_world))
  = [Some GET; Some PUT; None].
Proof. vm_compute. reflexivity. Qed.

Example serve_unsigned_request :
  serve (inject_Z 1700000000) sample_config (sample_request "v0=bad") sample_world
  = (Returns (HTTPException 401 "Invalid Slack signature."), Done tt, []).
Proof. vm_compute. reflexivity. Qed.
